(** * The parameter / override state of a Cubism model

    A shallow embedding of [src/model/cubismmodel.ts] (class [CubismModel]
    and its four record classes) and the properties of its index
    registries, override store and value resolution.

    JavaScript numbers are IEEE binary64 values: they are the primitive
    floats of Rocq, with the same rounding.  A [Float32Array] keeps single
    precision cells, so a store rounds the number to binary32 ([fround]);
    a load widens the cell exactly.  Indices and counts are integers ([Z]):
    the code compares them with [0] and returns [-1] in one place.

    A call has no result ([None]) when the code throws (a property of
    [undefined] or [null] is read), when an assertion fails, or when a cell
    that does not exist is read as a number.  The state is passed
    explicitly: a setter maps a model to the model after the call.

    The calls [update] and [release] hand over to the deformation engine
    and are not part of the embedding; [prepareCapacity] only reserves
    memory and has no counterpart here, and the deprecated
    [...Overwrite...] aliases are the functions they forward to. *)

From stdpp Require Import gmap strings list fin_maps.
From Stdlib Require Import ZArith.
From Stdlib Require Import Floats.PrimFloat Floats.SpecFloat Floats.FloatOps.

Local Open Scope Z_scope.

(* Decimal literals such as 0.1 denote the nearest binary64 value. *)
#[local] Set Warnings "-inexact-float,-clear-no-such-hyp".

(** ** Numbers *)

Abbreviation number := float (only parsing).

(** [Math.fround]: the binary32 value nearest to a binary64 one (ties to
    even), as a binary64 value.  This is what a store into a
    [Float32Array] keeps. *)
Definition fround (x : number) : number :=
  match Prim2SF x with
  | S754_finite s m e => SF2Prim (binary_round 24 128 s m e)
  | _ => x
  end.

(** [Number.isNaN] and the global [isFinite] on numbers. *)
Definition isNaN (x : number) : bool := PrimFloat.is_nan x.
Definition isFinite (x : number) : bool := PrimFloat.is_finite x.

(** [Math.floor]. *)
Definition Math_floor (x : number) : number :=
  match Prim2SF x with
  | S754_finite s m e =>
      if 0 <=? e then x
      else
        let q := Z.shiftr (Z.pos m) (- e) in
        let exact := Z.shiftl q (- e) =? Z.pos m in
        let n := if s then (if exact then q else q + 1) else q in
        if n =? 0 then 0%float else SF2Prim (S754_finite s (Z.to_pos n) 0)
  | _ => x
  end.

(** [Math.sign]: [1], [-1], or the argument itself when it is a zero or NaN. *)
Definition Math_sign (x : number) : number :=
  if PrimFloat.ltb 0 x then 1%float
  else if PrimFloat.ltb x 0 then (-1)%float
  else x.

Definition is_negative_zero (x : number) : bool :=
  PrimFloat.eqb x 0 && PrimFloat.ltb (PrimFloat.div 1 x) 0.

(** [Math.min] and [Math.max]: NaN when an argument is NaN; [-0] is below [+0]. *)
Definition Math_min (x y : number) : number :=
  if isNaN x || isNaN y then PrimFloat.nan
  else if PrimFloat.ltb x y then x
  else if PrimFloat.ltb y x then y
  else if is_negative_zero x then x else y.

Definition Math_max (x y : number) : number :=
  if isNaN x || isNaN y then PrimFloat.nan
  else if PrimFloat.ltb x y then y
  else if PrimFloat.ltb y x then x
  else if is_negative_zero x then y else x.

Module CubismMath.

(** Modelled from the spec: [CubismMath.mod] ([math/cubismmath.ts] is not
    among the sources).  The spec wraps a value "by modulo arithmetic" and
    calls the division undefined for a degenerate span, where the result
    "is not a finite number": the remainder of the division carries the
    sign of the dividend and is NaN when the divisor is zero or an operand
    is NaN or infinite. *)
Definition mod_ (dividend divisor : number) : number :=
  if negb (isFinite dividend) || PrimFloat.eqb divisor 0
     || isNaN dividend || isNaN divisor
  then PrimFloat.nan
  else
    let absDividend := PrimFloat.abs dividend in
    let absDivisor := PrimFloat.abs divisor in
    ((absDividend - Math_floor (absDividend / absDivisor) * absDivisor)
     * Math_sign dividend)%float.

(** Modelled from the spec: [CubismMath.clamp] (same missing file).  The
    spec gives the clamped value as [max(min(value, max), min)]. *)
Definition clamp (val min max : number) : number :=
  Math_max (Math_min val max) min.

End CubismMath.

(** ** Typed arrays and containers *)

(** Reading index [i] of an array-like value: [undefined] (here [None])
    outside [0 .. length-1]. *)
Definition index {A} (v : list A) (i : Z) : option A :=
  if decide (0 ≤ i) then v !! Z.to_nat i else None.

Module Float32Array.
(** The cells of the array, each a single precision value widened to a
    number. *)
Definition t := list number.

(** [arr[i]]. *)
Definition get (arr : t) (i : Z) : option number := index arr i.

(** [arr[i] = x]: the cell keeps [fround x]; a store outside the array
    is ignored. *)
Definition set (arr : t) (i : Z) (x : number) : t :=
  if decide (0 ≤ i) then <[Z.to_nat i := fround x]> arr else arr.
End Float32Array.

Module csmVector.
(** Modelled from the spec: [csmVector.at] ([type/csmvector.ts] is not among
    the sources; the spec has the per-entity records in vectors indexed by
    entity): the slot of an index, [undefined] outside the vector. *)
Definition at_ {A} (v : list A) (i : Z) : option A := index v i.

(** Modelled from the spec: [csmVector.set], which overwrites a slot of the
    vector (it is called on existing slots only). *)
Definition set {A} (v : list A) (i : Z) (x : A) : list A :=
  if decide (0 ≤ i) then <[Z.to_nat i := x]> v else v.

(** Modelled from the spec: [csmVector.pushBack], which appends one slot. *)
Definition pushBack {A} (v : list A) (x : A) : list A := v ++ [x].

(** Modelled from the spec: [csmVector.getSize], the number of slots. *)
Definition getSize {A} (v : list A) : Z := Z.of_nat (length v).
End csmVector.

(** [csmMap] ([type/csmmap.ts]) is not among the sources.  The spec calls
    it the "absent identifier overflow map": a finite map from keys to
    values, here a [gmap]. *)
Module csmMap.
Section ops.
Context `{Countable K} {V : Type}.

(** Modelled from the spec: [csmMap.isExist], whether the key has an entry. *)
Definition isExist (m : gmap K V) (k : K) : bool :=
  bool_decide (is_Some (m !! k)).

(** Modelled from the spec: [csmMap.getValue], the value of a key (the class
    calls it for keys that have an entry). *)
Definition getValue (m : gmap K V) (k : K) : option V := m !! k.

(** Modelled from the spec: [csmMap.setValue], which binds the key to the
    value, adding the entry when the key has none. *)
Definition setValue (m : gmap K V) (k : K) (v : V) : gmap K V := <[k := v]> m.

(** Modelled from the spec: [csmMap.appendKey], which "appends a default
    value slot" for a key that has none and leaves an existing entry. *)
Definition appendKey (dflt : V) (m : gmap K V) (k : K) : gmap K V :=
  if isExist m k then m else <[k := dflt]> m.

(** Modelled from the spec: [csmMap.getSize], the number of entries. *)
Definition getSize (m : gmap K V) : Z := Z.of_nat (size m).
End ops.
End csmMap.

(** Modelled from the spec: the value of a "default value slot" of a map of
    numbers, taken to be zero. *)
Definition default_number : number := 0%float.

(** Modelled from the spec: [CSM_ASSERT] ([utils/cubismdebug.ts] is not
    among the sources).  The spec has an out-of-range index "asserted
    (fail-fast) rather than recovered": a failed assertion stops the call,
    which then has no result. *)
Definition CSM_ASSERT (cond : bool) : option unit :=
  if cond then Some tt else None.

(** [0 <= i && i < n], the range test of the assertions. *)
Definition in_range (i n : Z) : bool := (0 <=? i) && (i <? n).

(** ** Identifiers *)

(** A [CubismIdHandle] is the [CubismId] object that the identifier manager
    keeps for a name; the model compares handles with [==].  The manager
    returns one object per name, so a handle is modelled by its name. *)
Abbreviation CubismIdHandle := string (only parsing).

Module CubismIdManager.
(** Modelled from the spec: the identifier registry
    ([id/cubismidmanager.ts] is not among the sources) "returns a stable,
    comparable handle for a name string". *)
Definition getId (name : string) : CubismIdHandle := name.
End CubismIdManager.

(** [x == y] on handles. *)
Definition handle_eqb (x y : CubismIdHandle) : bool := bool_decide (x = y).

(** ** The record classes *)

Set Primitive Projections.

Module CubismTextureColor.
(** Modelled from the spec: [CubismTextureColor]
    ([rendering/cubismrenderer.ts] is not among the sources), the RGBA
    colour of the override records. *)
Record t := Build { r : number; g : number; b : number; a : number }.
End CubismTextureColor.

Module ParameterRepeatData.
(** Lines 22-46. *)
Record t := Build { isOverridden : bool; isParameterRepeated : bool }.
End ParameterRepeatData.

Module DrawableColorData.
(** Lines 52-67. *)
Record t := Build { isOverridden : bool; color : CubismTextureColor.t }.
End DrawableColorData.

Module PartColorData.
(** Lines 71-86. *)
Record t := Build { isOverridden : bool; color : CubismTextureColor.t }.
End PartColorData.

Module DrawableCullingData.
(** Lines 91-109. *)
Record t := Build { isOverridden : bool; isCulling : bool }.
End DrawableCullingData.

(** ** The snapshot of the deformation engine *)

(** [Live2DCubismCore.Model] is the object of the external core library.
    The spec describes it as "a snapshot object exposing
    parameter/part/drawable counts and flat arrays"; the records below hold
    the counts and arrays that the class reads, and the two arrays
    ([values], [opacities]) that it writes. *)
Module Live2DCubismCore.

Module Parameters.
(** Modelled from the spec: the parameters of the snapshot ([repeats] is an
    array of integers, the others of the arrays are [Float32Array]s). *)
Record t := Build {
  count : Z;
  ids : list string;
  minimumValues : Float32Array.t;
  maximumValues : Float32Array.t;
  defaultValues : Float32Array.t;
  values : Float32Array.t;
  repeats : list Z
}.

(** The parameters with another content of [values]. *)
Definition set_values (v : Float32Array.t) (p : t) : t :=
  let '(Build c i mn mx d _ rp) := p in Build c i mn mx d v rp.
End Parameters.

Module Parts.
(** Modelled from the spec: the parts of the snapshot. *)
Record t := Build {
  count : Z;
  ids : list string;
  opacities : Float32Array.t;
  parentIndices : list Z
}.

(** The parts with another content of [opacities]. *)
Definition set_opacities (v : Float32Array.t) (p : t) : t :=
  let '(Build c i _ pi) := p in Build c i v pi.
End Parts.

Module Drawables.
(** Modelled from the spec: the drawables of the snapshot; a colour array
    holds four floats per drawable. *)
Record t := Build {
  count : Z;
  ids : list string;
  constantFlags : list Z;
  multiplyColors : Float32Array.t;
  screenColors : Float32Array.t;
  parentPartIndices : list Z
}.
End Drawables.

Module Model.
(** Modelled from the spec: the snapshot. *)
Record t := Build {
  parameters : Parameters.t;
  parts : Parts.t;
  drawables : Drawables.t
}.

Definition set_parameters (v : Parameters.t) (s : t) : t :=
  let '(Build _ pa dr) := s in Build v pa dr.

Definition set_parts (v : Parts.t) (s : t) : t :=
  let '(Build pm _ dr) := s in Build pm v dr.
End Model.

Module Utils.
(** Modelled from the spec: the mask of the "double-sided" constant
    bit-flag of a drawable, bit 2 of the flag byte in the core library. *)
Definition csmIsDoubleSided : Z := 4.

(** Modelled from the spec: [Utils.hasIsDoubleSidedBit], whether the
    "double-sided" bit is present in the flags. *)
Definition hasIsDoubleSidedBit (bitfield : Z) : bool :=
  Z.land bitfield csmIsDoubleSided =? csmIsDoubleSided.
End Utils.

End Live2DCubismCore.

Import Live2DCubismCore.

(** ** The model object *)

(** A field typed [Float32Array] (lines 2122-2126) is [null] until
    [initialize] binds it to an array of the snapshot (lines 1924-1927): the
    same object, not a copy.  The embedding keeps the array once, in the
    snapshot, and the field says whether it is bound. *)
Inductive view := null | aliased.

(** The address of a [DrawableCullingData] object.  [_userCullings] is a
    vector of references: two slots may hold the same object, and a write
    through one is seen through the other.  [objects] is the store of these
    objects. *)
Definition loc := nat.

(** The fields of the class (lines 2093-2135), and the store of the
    culling records. *)
Record CubismModel := Build_CubismModel {
  _notExistPartOpacities : gmap Z number;
  _notExistPartId : gmap CubismIdHandle Z;
  _notExistParameterValues : gmap Z number;
  _notExistParameterId : gmap CubismIdHandle Z;
  _savedParameters : list number;
  _isOverriddenParameterRepeat : bool;
  _isOverriddenModelMultiplyColors : bool;
  _isOverriddenModelScreenColors : bool;
  _userParameterRepeatDataList : list ParameterRepeatData.t;
  _userMultiplyColors : list DrawableColorData.t;
  _userScreenColors : list DrawableColorData.t;
  _userPartScreenColors : list PartColorData.t;
  _userPartMultiplyColors : list PartColorData.t;
  _partChildDrawables : list (list Z);
  _model : Live2DCubismCore.Model.t;
  _parameterValues : view;
  _parameterMaximumValues : view;
  _parameterMinimumValues : view;
  _partOpacities : view;
  _modelOpacity : number;
  _parameterIds : list CubismIdHandle;
  _partIds : list CubismIdHandle;
  _drawableIds : list CubismIdHandle;
  _isOverriddenCullings : bool;
  _userCullings : list loc;
  objects : list DrawableCullingData.t
}.

(** [this.field = v], one function per field. *)
Definition set__notExistPartOpacities (v : gmap Z number) (m : CubismModel)
  : CubismModel :=
  let '(Build_CubismModel
       _ x1 x2 x3 x4 x5 x6 x7 x8 x9 x10 x11 x12 x13 x14 x15 x16 x17 x18
       x19 x20 x21 x22 x23 x24 x25) := m in
  Build_CubismModel
    v x1 x2 x3 x4 x5 x6 x7 x8 x9 x10 x11 x12 x13 x14 x15 x16 x17 x18 x19
    x20 x21 x22 x23 x24 x25.

Definition set__notExistPartId (v : gmap CubismIdHandle Z) (m : CubismModel)
  : CubismModel :=
  let '(Build_CubismModel
       x0 _ x2 x3 x4 x5 x6 x7 x8 x9 x10 x11 x12 x13 x14 x15 x16 x17 x18
       x19 x20 x21 x22 x23 x24 x25) := m in
  Build_CubismModel
    x0 v x2 x3 x4 x5 x6 x7 x8 x9 x10 x11 x12 x13 x14 x15 x16 x17 x18 x19
    x20 x21 x22 x23 x24 x25.

Definition set__notExistParameterValues (v : gmap Z number) (m : CubismModel)
  : CubismModel :=
  let '(Build_CubismModel
       x0 x1 _ x3 x4 x5 x6 x7 x8 x9 x10 x11 x12 x13 x14 x15 x16 x17 x18
       x19 x20 x21 x22 x23 x24 x25) := m in
  Build_CubismModel
    x0 x1 v x3 x4 x5 x6 x7 x8 x9 x10 x11 x12 x13 x14 x15 x16 x17 x18 x19
    x20 x21 x22 x23 x24 x25.

Definition set__notExistParameterId (v : gmap CubismIdHandle Z) (m : CubismModel)
  : CubismModel :=
  let '(Build_CubismModel
       x0 x1 x2 _ x4 x5 x6 x7 x8 x9 x10 x11 x12 x13 x14 x15 x16 x17 x18
       x19 x20 x21 x22 x23 x24 x25) := m in
  Build_CubismModel
    x0 x1 x2 v x4 x5 x6 x7 x8 x9 x10 x11 x12 x13 x14 x15 x16 x17 x18 x19
    x20 x21 x22 x23 x24 x25.

Definition set__savedParameters (v : list number) (m : CubismModel)
  : CubismModel :=
  let '(Build_CubismModel
       x0 x1 x2 x3 _ x5 x6 x7 x8 x9 x10 x11 x12 x13 x14 x15 x16 x17 x18
       x19 x20 x21 x22 x23 x24 x25) := m in
  Build_CubismModel
    x0 x1 x2 x3 v x5 x6 x7 x8 x9 x10 x11 x12 x13 x14 x15 x16 x17 x18 x19
    x20 x21 x22 x23 x24 x25.

Definition set__isOverriddenParameterRepeat (v : bool) (m : CubismModel)
  : CubismModel :=
  let '(Build_CubismModel
       x0 x1 x2 x3 x4 _ x6 x7 x8 x9 x10 x11 x12 x13 x14 x15 x16 x17 x18
       x19 x20 x21 x22 x23 x24 x25) := m in
  Build_CubismModel
    x0 x1 x2 x3 x4 v x6 x7 x8 x9 x10 x11 x12 x13 x14 x15 x16 x17 x18 x19
    x20 x21 x22 x23 x24 x25.

Definition set__isOverriddenModelMultiplyColors (v : bool) (m : CubismModel)
  : CubismModel :=
  let '(Build_CubismModel
       x0 x1 x2 x3 x4 x5 _ x7 x8 x9 x10 x11 x12 x13 x14 x15 x16 x17 x18
       x19 x20 x21 x22 x23 x24 x25) := m in
  Build_CubismModel
    x0 x1 x2 x3 x4 x5 v x7 x8 x9 x10 x11 x12 x13 x14 x15 x16 x17 x18 x19
    x20 x21 x22 x23 x24 x25.

Definition set__isOverriddenModelScreenColors (v : bool) (m : CubismModel)
  : CubismModel :=
  let '(Build_CubismModel
       x0 x1 x2 x3 x4 x5 x6 _ x8 x9 x10 x11 x12 x13 x14 x15 x16 x17 x18
       x19 x20 x21 x22 x23 x24 x25) := m in
  Build_CubismModel
    x0 x1 x2 x3 x4 x5 x6 v x8 x9 x10 x11 x12 x13 x14 x15 x16 x17 x18 x19
    x20 x21 x22 x23 x24 x25.

Definition set__userParameterRepeatDataList (v : list ParameterRepeatData.t) (m : CubismModel)
  : CubismModel :=
  let '(Build_CubismModel
       x0 x1 x2 x3 x4 x5 x6 x7 _ x9 x10 x11 x12 x13 x14 x15 x16 x17 x18
       x19 x20 x21 x22 x23 x24 x25) := m in
  Build_CubismModel
    x0 x1 x2 x3 x4 x5 x6 x7 v x9 x10 x11 x12 x13 x14 x15 x16 x17 x18 x19
    x20 x21 x22 x23 x24 x25.

Definition set__userMultiplyColors (v : list DrawableColorData.t) (m : CubismModel)
  : CubismModel :=
  let '(Build_CubismModel
       x0 x1 x2 x3 x4 x5 x6 x7 x8 _ x10 x11 x12 x13 x14 x15 x16 x17 x18
       x19 x20 x21 x22 x23 x24 x25) := m in
  Build_CubismModel
    x0 x1 x2 x3 x4 x5 x6 x7 x8 v x10 x11 x12 x13 x14 x15 x16 x17 x18 x19
    x20 x21 x22 x23 x24 x25.

Definition set__userScreenColors (v : list DrawableColorData.t) (m : CubismModel)
  : CubismModel :=
  let '(Build_CubismModel
       x0 x1 x2 x3 x4 x5 x6 x7 x8 x9 _ x11 x12 x13 x14 x15 x16 x17 x18
       x19 x20 x21 x22 x23 x24 x25) := m in
  Build_CubismModel
    x0 x1 x2 x3 x4 x5 x6 x7 x8 x9 v x11 x12 x13 x14 x15 x16 x17 x18 x19
    x20 x21 x22 x23 x24 x25.

Definition set__userPartScreenColors (v : list PartColorData.t) (m : CubismModel)
  : CubismModel :=
  let '(Build_CubismModel
       x0 x1 x2 x3 x4 x5 x6 x7 x8 x9 x10 _ x12 x13 x14 x15 x16 x17 x18
       x19 x20 x21 x22 x23 x24 x25) := m in
  Build_CubismModel
    x0 x1 x2 x3 x4 x5 x6 x7 x8 x9 x10 v x12 x13 x14 x15 x16 x17 x18 x19
    x20 x21 x22 x23 x24 x25.

Definition set__userPartMultiplyColors (v : list PartColorData.t) (m : CubismModel)
  : CubismModel :=
  let '(Build_CubismModel
       x0 x1 x2 x3 x4 x5 x6 x7 x8 x9 x10 x11 _ x13 x14 x15 x16 x17 x18
       x19 x20 x21 x22 x23 x24 x25) := m in
  Build_CubismModel
    x0 x1 x2 x3 x4 x5 x6 x7 x8 x9 x10 x11 v x13 x14 x15 x16 x17 x18 x19
    x20 x21 x22 x23 x24 x25.

Definition set__partChildDrawables (v : list (list Z)) (m : CubismModel)
  : CubismModel :=
  let '(Build_CubismModel
       x0 x1 x2 x3 x4 x5 x6 x7 x8 x9 x10 x11 x12 _ x14 x15 x16 x17 x18
       x19 x20 x21 x22 x23 x24 x25) := m in
  Build_CubismModel
    x0 x1 x2 x3 x4 x5 x6 x7 x8 x9 x10 x11 x12 v x14 x15 x16 x17 x18 x19
    x20 x21 x22 x23 x24 x25.

Definition set__model (v : Live2DCubismCore.Model.t) (m : CubismModel)
  : CubismModel :=
  let '(Build_CubismModel
       x0 x1 x2 x3 x4 x5 x6 x7 x8 x9 x10 x11 x12 x13 _ x15 x16 x17 x18
       x19 x20 x21 x22 x23 x24 x25) := m in
  Build_CubismModel
    x0 x1 x2 x3 x4 x5 x6 x7 x8 x9 x10 x11 x12 x13 v x15 x16 x17 x18 x19
    x20 x21 x22 x23 x24 x25.

Definition set__parameterValues (v : view) (m : CubismModel)
  : CubismModel :=
  let '(Build_CubismModel
       x0 x1 x2 x3 x4 x5 x6 x7 x8 x9 x10 x11 x12 x13 x14 _ x16 x17 x18
       x19 x20 x21 x22 x23 x24 x25) := m in
  Build_CubismModel
    x0 x1 x2 x3 x4 x5 x6 x7 x8 x9 x10 x11 x12 x13 x14 v x16 x17 x18 x19
    x20 x21 x22 x23 x24 x25.

Definition set__parameterMaximumValues (v : view) (m : CubismModel)
  : CubismModel :=
  let '(Build_CubismModel
       x0 x1 x2 x3 x4 x5 x6 x7 x8 x9 x10 x11 x12 x13 x14 x15 _ x17 x18
       x19 x20 x21 x22 x23 x24 x25) := m in
  Build_CubismModel
    x0 x1 x2 x3 x4 x5 x6 x7 x8 x9 x10 x11 x12 x13 x14 x15 v x17 x18 x19
    x20 x21 x22 x23 x24 x25.

Definition set__parameterMinimumValues (v : view) (m : CubismModel)
  : CubismModel :=
  let '(Build_CubismModel
       x0 x1 x2 x3 x4 x5 x6 x7 x8 x9 x10 x11 x12 x13 x14 x15 x16 _ x18
       x19 x20 x21 x22 x23 x24 x25) := m in
  Build_CubismModel
    x0 x1 x2 x3 x4 x5 x6 x7 x8 x9 x10 x11 x12 x13 x14 x15 x16 v x18 x19
    x20 x21 x22 x23 x24 x25.

Definition set__partOpacities (v : view) (m : CubismModel)
  : CubismModel :=
  let '(Build_CubismModel
       x0 x1 x2 x3 x4 x5 x6 x7 x8 x9 x10 x11 x12 x13 x14 x15 x16 x17 _
       x19 x20 x21 x22 x23 x24 x25) := m in
  Build_CubismModel
    x0 x1 x2 x3 x4 x5 x6 x7 x8 x9 x10 x11 x12 x13 x14 x15 x16 x17 v x19
    x20 x21 x22 x23 x24 x25.

Definition set__modelOpacity (v : number) (m : CubismModel)
  : CubismModel :=
  let '(Build_CubismModel
       x0 x1 x2 x3 x4 x5 x6 x7 x8 x9 x10 x11 x12 x13 x14 x15 x16 x17 x18
       _ x20 x21 x22 x23 x24 x25) := m in
  Build_CubismModel
    x0 x1 x2 x3 x4 x5 x6 x7 x8 x9 x10 x11 x12 x13 x14 x15 x16 x17 x18 v
    x20 x21 x22 x23 x24 x25.

Definition set__parameterIds (v : list CubismIdHandle) (m : CubismModel)
  : CubismModel :=
  let '(Build_CubismModel
       x0 x1 x2 x3 x4 x5 x6 x7 x8 x9 x10 x11 x12 x13 x14 x15 x16 x17 x18
       x19 _ x21 x22 x23 x24 x25) := m in
  Build_CubismModel
    x0 x1 x2 x3 x4 x5 x6 x7 x8 x9 x10 x11 x12 x13 x14 x15 x16 x17 x18
    x19 v x21 x22 x23 x24 x25.

Definition set__partIds (v : list CubismIdHandle) (m : CubismModel)
  : CubismModel :=
  let '(Build_CubismModel
       x0 x1 x2 x3 x4 x5 x6 x7 x8 x9 x10 x11 x12 x13 x14 x15 x16 x17 x18
       x19 x20 _ x22 x23 x24 x25) := m in
  Build_CubismModel
    x0 x1 x2 x3 x4 x5 x6 x7 x8 x9 x10 x11 x12 x13 x14 x15 x16 x17 x18
    x19 x20 v x22 x23 x24 x25.

Definition set__drawableIds (v : list CubismIdHandle) (m : CubismModel)
  : CubismModel :=
  let '(Build_CubismModel
       x0 x1 x2 x3 x4 x5 x6 x7 x8 x9 x10 x11 x12 x13 x14 x15 x16 x17 x18
       x19 x20 x21 _ x23 x24 x25) := m in
  Build_CubismModel
    x0 x1 x2 x3 x4 x5 x6 x7 x8 x9 x10 x11 x12 x13 x14 x15 x16 x17 x18
    x19 x20 x21 v x23 x24 x25.

Definition set__isOverriddenCullings (v : bool) (m : CubismModel)
  : CubismModel :=
  let '(Build_CubismModel
       x0 x1 x2 x3 x4 x5 x6 x7 x8 x9 x10 x11 x12 x13 x14 x15 x16 x17 x18
       x19 x20 x21 x22 _ x24 x25) := m in
  Build_CubismModel
    x0 x1 x2 x3 x4 x5 x6 x7 x8 x9 x10 x11 x12 x13 x14 x15 x16 x17 x18
    x19 x20 x21 x22 v x24 x25.

Definition set__userCullings (v : list loc) (m : CubismModel)
  : CubismModel :=
  let '(Build_CubismModel
       x0 x1 x2 x3 x4 x5 x6 x7 x8 x9 x10 x11 x12 x13 x14 x15 x16 x17 x18
       x19 x20 x21 x22 x23 _ x25) := m in
  Build_CubismModel
    x0 x1 x2 x3 x4 x5 x6 x7 x8 x9 x10 x11 x12 x13 x14 x15 x16 x17 x18
    x19 x20 x21 x22 x23 v x25.

Definition set__objects (v : list DrawableCullingData.t) (m : CubismModel)
  : CubismModel :=
  let '(Build_CubismModel
       x0 x1 x2 x3 x4 x5 x6 x7 x8 x9 x10 x11 x12 x13 x14 x15 x16 x17 x18
       x19 x20 x21 x22 x23 x24 _) := m in
  Build_CubismModel
    x0 x1 x2 x3 x4 x5 x6 x7 x8 x9 x10 x11 x12 x13 x14 x15 x16 x17 x18
    x19 x20 x21 x22 x23 x24 v.

Unset Primitive Projections.

(** ** Loops *)

(** [for (let i = start; i < start + n; ++i) body], threading the state and
    stopping when the body fails. *)
Fixpoint for_loop {S : Type} (body : Z → S → option S) (i : Z) (n : nat) (s : S)
  : option S :=
  match n with
  | O => Some s
  | Datatypes.S n' => s' ← body i s; for_loop body (i + 1) n' s'
  end.

(** [for (let i = 0; i < count; ++i) body]. *)
Definition for_ {S : Type} (count : Z) (body : Z → S → option S) (s : S) : option S :=
  for_loop body 0 (Z.to_nat count) s.

(** The linear scan of an identifier vector:
    [for (i = start; ...; ++i) if (id == ids.at(i)) return i;].  A slot
    outside the vector is [undefined], which equals no handle. *)
Fixpoint scan (ids : list CubismIdHandle) (id : CubismIdHandle) (i : Z) (n : nat)
  : option Z :=
  match n with
  | O => None
  | Datatypes.S n' =>
      match csmVector.at_ ids i with
      | Some x => if handle_eqb id x then Some i else scan ids id (i + 1) n'
      | None => scan ids id (i + 1) n'
      end
  end.

(** ** Accessors of the bound arrays *)

Definition parameterValues (m : CubismModel) : option Float32Array.t :=
  match _parameterValues m with
  | null => None
  | aliased => Some (Parameters.values (Model.parameters (_model m)))
  end.

Definition partOpacities (m : CubismModel) : option Float32Array.t :=
  match _partOpacities m with
  | null => None
  | aliased => Some (Parts.opacities (Model.parts (_model m)))
  end.

(** The model with another content of the snapshot's [values] array, and
    of its [opacities] array. *)
Definition with_parameterValues (arr : Float32Array.t) (m : CubismModel)
  : CubismModel :=
  set__model
    (Model.set_parameters
       (Parameters.set_values arr (Model.parameters (_model m))) (_model m)) m.

Definition with_partOpacities (arr : Float32Array.t) (m : CubismModel)
  : CubismModel :=
  set__model
    (Model.set_parts
       (Parts.set_opacities arr (Model.parts (_model m))) (_model m)) m.

(** [this._parameterValues[i] = x] and [this._partOpacities[i] = x]: the
    store lands in the snapshot's array. *)
Definition store_parameterValue (i : Z) (x : number) (m : CubismModel)
  : option CubismModel :=
  arr ← parameterValues m;
  Some (with_parameterValues (Float32Array.set arr i x) m).

Definition store_partOpacity (i : Z) (x : number) (m : CubismModel)
  : option CubismModel :=
  arr ← partOpacities m;
  Some (with_partOpacities (Float32Array.set arr i x) m).

(** ** Save and load (lines 168-179, 1905-1916) *)

Definition saveParameters (m : CubismModel) : option CubismModel :=
  let parameterCount := Parameters.count (Model.parameters (_model m)) in
  let savedParameterCount := csmVector.getSize (_savedParameters m) in
  for_ parameterCount
    (λ i m,
       arr ← parameterValues m;
       x ← Float32Array.get arr i;
       if decide (i < savedParameterCount)
       then Some (set__savedParameters (csmVector.set (_savedParameters m) i x) m)
       else Some (set__savedParameters (csmVector.pushBack (_savedParameters m) x) m))
    m.

Definition loadParameters (m : CubismModel) : option CubismModel :=
  let parameterCount := Parameters.count (Model.parameters (_model m)) in
  let savedParameterCount := csmVector.getSize (_savedParameters m) in
  let parameterCount :=
    if decide (parameterCount > savedParameterCount)
    then savedParameterCount else parameterCount in
  for_ parameterCount
    (λ i m, x ← csmVector.at_ (_savedParameters m) i; store_parameterValue i x m)
    m.

(** ** Colours of drawables (lines 186-281, 1711-1737) *)

Definition getOverrideFlagForModelMultiplyColors (m : CubismModel) : bool :=
  _isOverriddenModelMultiplyColors m.

Definition getOverrideFlagForModelScreenColors (m : CubismModel) : bool :=
  _isOverriddenModelScreenColors m.

Definition setOverrideFlagForModelMultiplyColors (value : bool) (m : CubismModel)
  : CubismModel := set__isOverriddenModelMultiplyColors value m.

Definition setOverrideFlagForModelScreenColors (value : bool) (m : CubismModel)
  : CubismModel := set__isOverriddenModelScreenColors value m.

Definition getOverrideFlagForDrawableMultiplyColors (drawableindex : Z)
  (m : CubismModel) : option bool :=
  DrawableColorData.isOverridden <$> csmVector.at_ (_userMultiplyColors m) drawableindex.

Definition getOverrideFlagForDrawableScreenColors (drawableindex : Z)
  (m : CubismModel) : option bool :=
  DrawableColorData.isOverridden <$> csmVector.at_ (_userScreenColors m) drawableindex.

(** The four floats of drawable [drawableIndex] in a flat colour array. *)
Definition read_color (colors : Float32Array.t) (drawableIndex : Z)
  : option CubismTextureColor.t :=
  let index := drawableIndex * 4 in
  r ← Float32Array.get colors index;
  g ← Float32Array.get colors (index + 1);
  b ← Float32Array.get colors (index + 2);
  a ← Float32Array.get colors (index + 3);
  Some (CubismTextureColor.Build r g b a).

Definition getDrawableMultiplyColor (drawableIndex : Z) (m : CubismModel)
  : option CubismTextureColor.t :=
  read_color (Drawables.multiplyColors (Model.drawables (_model m))) drawableIndex.

Definition getDrawableScreenColor (drawableIndex : Z) (m : CubismModel)
  : option CubismTextureColor.t :=
  read_color (Drawables.screenColors (Model.drawables (_model m))) drawableIndex.

Definition getMultiplyColor (index : Z) (m : CubismModel)
  : option CubismTextureColor.t :=
  if getOverrideFlagForModelMultiplyColors m
  then DrawableColorData.color <$> csmVector.at_ (_userMultiplyColors m) index
  else
    overridden ← getOverrideFlagForDrawableMultiplyColors index m;
    if overridden : bool
    then DrawableColorData.color <$> csmVector.at_ (_userMultiplyColors m) index
    else getDrawableMultiplyColor index m.

Definition getScreenColor (index : Z) (m : CubismModel)
  : option CubismTextureColor.t :=
  if getOverrideFlagForModelScreenColors m
  then DrawableColorData.color <$> csmVector.at_ (_userScreenColors m) index
  else
    overridden ← getOverrideFlagForDrawableScreenColors index m;
    if overridden : bool
    then DrawableColorData.color <$> csmVector.at_ (_userScreenColors m) index
    else getDrawableScreenColor index m.

(** [colors.at(index).color.r = r; ... .a = a]: the record keeps its flag. *)
Definition write_drawable_color (colors : list DrawableColorData.t) (index : Z)
  (c : CubismTextureColor.t) : option (list DrawableColorData.t) :=
  d ← csmVector.at_ colors index;
  Some (csmVector.set colors index
          (DrawableColorData.Build (DrawableColorData.isOverridden d) c)).

Definition setMultiplyColorByRGBA (index : Z) (r g b a : number) (m : CubismModel)
  : option CubismModel :=
  colors ← write_drawable_color (_userMultiplyColors m) index
              (CubismTextureColor.Build r g b a);
  Some (set__userMultiplyColors colors m).

Definition setMultiplyColorByTextureColor (index : Z) (color : CubismTextureColor.t)
  (m : CubismModel) : option CubismModel :=
  setMultiplyColorByRGBA index (CubismTextureColor.r color) (CubismTextureColor.g color)
    (CubismTextureColor.b color) (CubismTextureColor.a color) m.

Definition setScreenColorByRGBA (index : Z) (r g b a : number) (m : CubismModel)
  : option CubismModel :=
  colors ← write_drawable_color (_userScreenColors m) index
              (CubismTextureColor.Build r g b a);
  Some (set__userScreenColors colors m).

Definition setScreenColorByTextureColor (index : Z) (color : CubismTextureColor.t)
  (m : CubismModel) : option CubismModel :=
  setScreenColorByRGBA index (CubismTextureColor.r color) (CubismTextureColor.g color)
    (CubismTextureColor.b color) (CubismTextureColor.a color) m.

Definition setOverrideFlagForDrawableMultiplyColors (drawableindex : Z) (value : bool)
  (m : CubismModel) : option CubismModel :=
  d ← csmVector.at_ (_userMultiplyColors m) drawableindex;
  Some (set__userMultiplyColors
          (csmVector.set (_userMultiplyColors m) drawableindex
             (DrawableColorData.Build value (DrawableColorData.color d))) m).

Definition setOverrideFlagForDrawableScreenColors (drawableindex : Z) (value : bool)
  (m : CubismModel) : option CubismModel :=
  d ← csmVector.at_ (_userScreenColors m) drawableindex;
  Some (set__userScreenColors
          (csmVector.set (_userScreenColors m) drawableindex
             (DrawableColorData.Build value (DrawableColorData.color d))) m).

(** ** Colours of parts and their cascade (lines 287-425, 728-897) *)

Definition getPartMultiplyColor (partIndex : Z) (m : CubismModel)
  : option CubismTextureColor.t :=
  PartColorData.color <$> csmVector.at_ (_userPartMultiplyColors m) partIndex.

Definition getPartScreenColor (partIndex : Z) (m : CubismModel)
  : option CubismTextureColor.t :=
  PartColorData.color <$> csmVector.at_ (_userPartScreenColors m) partIndex.

(** [setPartColor]: the two vectors are passed by reference by the callers
    and come back updated. *)
Definition setPartColor (partChildDrawables : list (list Z)) (partIndex : Z)
  (r g b a : number)
  (partColors : list PartColorData.t) (drawableColors : list DrawableColorData.t)
  : option (list PartColorData.t * list DrawableColorData.t) :=
  p ← csmVector.at_ partColors partIndex;
  let partColors :=
    csmVector.set partColors partIndex
      (PartColorData.Build (PartColorData.isOverridden p)
         (CubismTextureColor.Build r g b a)) in
  if PartColorData.isOverridden p
  then
    children ← csmVector.at_ partChildDrawables partIndex;
    drawableColors ←
      for_ (csmVector.getSize children)
        (λ i drawableColors,
           drawableIndex ← csmVector.at_ children i;
           write_drawable_color drawableColors drawableIndex
             (CubismTextureColor.Build r g b a))
        drawableColors;
    Some (partColors, drawableColors)
  else Some (partColors, drawableColors).

Definition setPartMultiplyColorByRGBA (partIndex : Z) (r g b a : number)
  (m : CubismModel) : option CubismModel :=
  '(partColors, drawableColors) ←
    setPartColor (_partChildDrawables m) partIndex r g b a
      (_userPartMultiplyColors m) (_userMultiplyColors m);
  Some (set__userPartMultiplyColors partColors
          (set__userMultiplyColors drawableColors m)).

Definition setPartMultiplyColorByTextureColor (partIndex : Z)
  (color : CubismTextureColor.t) (m : CubismModel) : option CubismModel :=
  setPartMultiplyColorByRGBA partIndex (CubismTextureColor.r color)
    (CubismTextureColor.g color) (CubismTextureColor.b color)
    (CubismTextureColor.a color) m.

Definition setPartScreenColorByRGBA (partIndex : Z) (r g b a : number)
  (m : CubismModel) : option CubismModel :=
  '(partColors, drawableColors) ←
    setPartColor (_partChildDrawables m) partIndex r g b a
      (_userPartScreenColors m) (_userScreenColors m);
  Some (set__userPartScreenColors partColors
          (set__userScreenColors drawableColors m)).

Definition setPartScreenColorByTextureColor (partIndex : Z)
  (color : CubismTextureColor.t) (m : CubismModel) : option CubismModel :=
  setPartScreenColorByRGBA partIndex (CubismTextureColor.r color)
    (CubismTextureColor.g color) (CubismTextureColor.b color)
    (CubismTextureColor.a color) m.

Definition getOverrideColorForPartMultiplyColors (partIndex : Z) (m : CubismModel)
  : option bool :=
  PartColorData.isOverridden <$> csmVector.at_ (_userPartMultiplyColors m) partIndex.

Definition getOverrideColorForPartScreenColors (partIndex : Z) (m : CubismModel)
  : option bool :=
  PartColorData.isOverridden <$> csmVector.at_ (_userPartScreenColors m) partIndex.

(** One round of the loop of [setOverrideColorForPartColors]: the child's
    flag is assigned [value] in every case, its colour only when [value]
    holds. *)
Definition cascade_flag (value : bool) (partColor : CubismTextureColor.t)
  (drawableColors : list DrawableColorData.t) (drawableIndex : Z)
  : option (list DrawableColorData.t) :=
  d ← csmVector.at_ drawableColors drawableIndex;
  let drawableColors :=
    csmVector.set drawableColors drawableIndex
      (DrawableColorData.Build value (DrawableColorData.color d)) in
  if value
  then write_drawable_color drawableColors drawableIndex partColor
  else Some drawableColors.

Definition setOverrideColorForPartColors (partChildDrawables : list (list Z))
  (partIndex : Z) (value : bool)
  (partColors : list PartColorData.t) (drawableColors : list DrawableColorData.t)
  : option (list PartColorData.t * list DrawableColorData.t) :=
  p ← csmVector.at_ partColors partIndex;
  let partColors :=
    csmVector.set partColors partIndex
      (PartColorData.Build value (PartColorData.color p)) in
  children ← csmVector.at_ partChildDrawables partIndex;
  drawableColors ←
    for_ (csmVector.getSize children)
      (λ i drawableColors,
         drawableIndex ← csmVector.at_ children i;
         cascade_flag value (PartColorData.color p) drawableColors drawableIndex)
      drawableColors;
  Some (partColors, drawableColors).

Definition setOverrideColorForPartMultiplyColors (partIndex : Z) (value : bool)
  (m : CubismModel) : option CubismModel :=
  p ← csmVector.at_ (_userPartMultiplyColors m) partIndex;
  let m :=
    set__userPartMultiplyColors
      (csmVector.set (_userPartMultiplyColors m) partIndex
         (PartColorData.Build value (PartColorData.color p))) m in
  '(partColors, drawableColors) ←
    setOverrideColorForPartColors (_partChildDrawables m) partIndex value
      (_userPartMultiplyColors m) (_userMultiplyColors m);
  Some (set__userPartMultiplyColors partColors
          (set__userMultiplyColors drawableColors m)).

Definition setOverrideColorForPartScreenColors (partIndex : Z) (value : bool)
  (m : CubismModel) : option CubismModel :=
  p ← csmVector.at_ (_userPartScreenColors m) partIndex;
  let m :=
    set__userPartScreenColors
      (csmVector.set (_userPartScreenColors m) partIndex
         (PartColorData.Build value (PartColorData.color p))) m in
  '(partColors, drawableColors) ←
    setOverrideColorForPartColors (_partChildDrawables m) partIndex value
      (_userPartScreenColors m) (_userScreenColors m);
  Some (set__userPartScreenColors partColors
          (set__userScreenColors drawableColors m)).

(** ** Culling (lines 905-1032) *)

(** [this._userCullings.at(drawableIndex)]: the object that the slot refers to. *)
Definition userCulling (drawableIndex : Z) (m : CubismModel)
  : option (loc * DrawableCullingData.t) :=
  l ← csmVector.at_ (_userCullings m) drawableIndex;
  o ← objects m !! l;
  Some (l, o).

Definition getOverrideFlagForModelCullings (m : CubismModel) : bool :=
  _isOverriddenCullings m.

Definition setOverrideFlagForModelCullings (isOverriddenCullings : bool)
  (m : CubismModel) : CubismModel :=
  set__isOverriddenCullings isOverriddenCullings m.

Definition getOverrideFlagForDrawableCullings (drawableIndex : Z) (m : CubismModel)
  : option bool :=
  '(_, o) ← userCulling drawableIndex m;
  Some (DrawableCullingData.isOverridden o).

Definition setOverrideFlagForDrawableCullings (drawableIndex : Z)
  (isOverriddenCullings : bool) (m : CubismModel) : option CubismModel :=
  '(l, o) ← userCulling drawableIndex m;
  Some (set__objects
          (<[l := DrawableCullingData.Build isOverriddenCullings
                    (DrawableCullingData.isCulling o)]> (objects m)) m).

Definition getDrawableCulling (drawableIndex : Z) (m : CubismModel) : option bool :=
  if getOverrideFlagForModelCullings m
  then '(_, o) ← userCulling drawableIndex m; Some (DrawableCullingData.isCulling o)
  else
    overridden ← getOverrideFlagForDrawableCullings drawableIndex m;
    if overridden : bool
    then '(_, o) ← userCulling drawableIndex m; Some (DrawableCullingData.isCulling o)
    else
      let constantFlags := Drawables.constantFlags (Model.drawables (_model m)) in
      flags ← index constantFlags drawableIndex;
      Some (negb (Utils.hasIsDoubleSidedBit flags)).

Definition setDrawableCulling (drawableIndex : Z) (isCulling : bool) (m : CubismModel)
  : option CubismModel :=
  '(l, o) ← userCulling drawableIndex m;
  Some (set__objects
          (<[l := DrawableCullingData.Build (DrawableCullingData.isOverridden o)
                    isCulling]> (objects m)) m).

Definition getModelOapcity (m : CubismModel) : number := _modelOpacity m.

Definition setModelOapcity (value : number) (m : CubismModel) : CubismModel :=
  set__modelOpacity value m.

(** ** Parts: index registry and opacity (lines 1064-1181) *)

Definition getPartCount (m : CubismModel) : Z :=
  Parts.count (Model.parts (_model m)).

Definition getPartIndex (partId : CubismIdHandle) (m : CubismModel)
  : option (Z * CubismModel) :=
  let partCount := Parts.count (Model.parts (_model m)) in
  match scan (_partIds m) partId 0 (Z.to_nat partCount) with
  | Some partIndex => Some (partIndex, m)
  | None =>
      if csmMap.isExist (_notExistPartId m) partId
      then
        partIndex ← csmMap.getValue (_notExistPartId m) partId;
        Some (partIndex, m)
      else
        let partIndex := partCount + csmMap.getSize (_notExistPartId m) in
        let m := set__notExistPartId
                   (csmMap.setValue (_notExistPartId m) partId partIndex) m in
        let m := set__notExistPartOpacities
                   (csmMap.appendKey default_number (_notExistPartOpacities m) partIndex)
                   m in
        Some (partIndex, m)
  end.

Definition setPartOpacityByIndex (partIndex : Z) (opacity : number) (m : CubismModel)
  : option CubismModel :=
  if csmMap.isExist (_notExistPartOpacities m) partIndex
  then Some (set__notExistPartOpacities
               (csmMap.setValue (_notExistPartOpacities m) partIndex opacity) m)
  else
    _ ← CSM_ASSERT (in_range partIndex (getPartCount m));
    store_partOpacity partIndex opacity m.

Definition setPartOpacityById (partId : CubismIdHandle) (opacity : number)
  (m : CubismModel) : option CubismModel :=
  '(index, m) ← getPartIndex partId m;
  if decide (index < 0)
  then Some m
  else setPartOpacityByIndex index opacity m.

Definition getPartOpacityByIndex (partIndex : Z) (m : CubismModel) : option number :=
  if csmMap.isExist (_notExistPartOpacities m) partIndex
  then csmMap.getValue (_notExistPartOpacities m) partIndex
  else
    _ ← CSM_ASSERT (in_range partIndex (getPartCount m));
    arr ← partOpacities m;
    Float32Array.get arr partIndex.

Definition getPartOpacityById (partId : CubismIdHandle) (m : CubismModel)
  : option (number * CubismModel) :=
  '(index, m) ← getPartIndex partId m;
  if decide (index < 0)
  then Some (0%float, m)
  else x ← getPartOpacityByIndex index m; Some (x, m).

(** ** Parameters: index registry (lines 1188-1221) *)

Definition getParameterCount (m : CubismModel) : Z :=
  Parameters.count (Model.parameters (_model m)).

Definition getParameterIndex (parameterId : CubismIdHandle) (m : CubismModel)
  : option (Z * CubismModel) :=
  let idCount := Parameters.count (Model.parameters (_model m)) in
  match scan (_parameterIds m) parameterId 0 (Z.to_nat idCount) with
  | Some parameterIndex => Some (parameterIndex, m)
  | None =>
      if csmMap.isExist (_notExistParameterId m) parameterId
      then
        parameterIndex ← csmMap.getValue (_notExistParameterId m) parameterId;
        Some (parameterIndex, m)
      else
        let parameterIndex :=
          Parameters.count (Model.parameters (_model m))
          + csmMap.getSize (_notExistParameterId m) in
        let m := set__notExistParameterId
                   (csmMap.setValue (_notExistParameterId m) parameterId parameterIndex)
                   m in
        let m := set__notExistParameterValues
                   (csmMap.appendKey default_number (_notExistParameterValues m)
                      parameterIndex) m in
        Some (parameterIndex, m)
  end.

(** ** Parameters: repeat override (lines 432-492, 1400-1512) *)

Definition getOverrideFlagForModelParameterRepeat (m : CubismModel) : bool :=
  _isOverriddenParameterRepeat m.

Definition setOverrideFlagForModelParameterRepeat (isRepeat : bool) (m : CubismModel)
  : CubismModel := set__isOverriddenParameterRepeat isRepeat m.

Definition getOverrideFlagForParameterRepeat (parameterIndex : Z) (m : CubismModel)
  : option bool :=
  ParameterRepeatData.isOverridden
    <$> csmVector.at_ (_userParameterRepeatDataList m) parameterIndex.

Definition setOverrideFlagForParameterRepeat (parameterIndex : Z) (value : bool)
  (m : CubismModel) : option CubismModel :=
  d ← csmVector.at_ (_userParameterRepeatDataList m) parameterIndex;
  Some (set__userParameterRepeatDataList
          (csmVector.set (_userParameterRepeatDataList m) parameterIndex
             (ParameterRepeatData.Build value (ParameterRepeatData.isParameterRepeated d)))
          m).

Definition getRepeatFlagForParameterRepeat (parameterIndex : Z) (m : CubismModel)
  : option bool :=
  ParameterRepeatData.isParameterRepeated
    <$> csmVector.at_ (_userParameterRepeatDataList m) parameterIndex.

Definition setRepeatFlagForParameterRepeat (parameterIndex : Z) (value : bool)
  (m : CubismModel) : option CubismModel :=
  d ← csmVector.at_ (_userParameterRepeatDataList m) parameterIndex;
  Some (set__userParameterRepeatDataList
          (csmVector.set (_userParameterRepeatDataList m) parameterIndex
             (ParameterRepeatData.Build (ParameterRepeatData.isOverridden d) value))
          m).

(** [this._model.parameters.repeats[parameterIndex] != 0].  The comparison is a
    loose inequality: at an index that has no cell the left side is
    [undefined], which is not equal to [0], so the result is [true]. *)
Definition getParameterRepeats (parameterIndex : Z) (m : CubismModel) : option bool :=
  match index (Parameters.repeats (Model.parameters (_model m))) parameterIndex with
  | Some rp => Some (negb (rp =? 0))
  | None => Some true
  end.

Definition isRepeat (parameterIndex : Z) (m : CubismModel) : option bool :=
  if csmMap.isExist (_notExistParameterValues m) parameterIndex
  then Some false
  else
    _ ← CSM_ASSERT (in_range parameterIndex (getParameterCount m));
    if _isOverriddenParameterRepeat m
    then
      ParameterRepeatData.isParameterRepeated
        <$> csmVector.at_ (_userParameterRepeatDataList m) parameterIndex
    else
      d ← csmVector.at_ (_userParameterRepeatDataList m) parameterIndex;
      if ParameterRepeatData.isOverridden d
      then Some (ParameterRepeatData.isParameterRepeated d)
      else getParameterRepeats parameterIndex m.

Definition getParameterMaximumValue (parameterIndex : Z) (m : CubismModel)
  : option number :=
  Float32Array.get (Parameters.maximumValues (Model.parameters (_model m)))
    parameterIndex.

Definition getParameterMinimumValue (parameterIndex : Z) (m : CubismModel)
  : option number :=
  Float32Array.get (Parameters.minimumValues (Model.parameters (_model m)))
    parameterIndex.

(** The two steps of [getParameterRepeatValue] on the range of the
    parameter.  They run one after the other: the second test reads the
    value that the first one left. *)
Definition wrap_over (minValue maxValue value : number) : number :=
  let valueSize := (maxValue - minValue)%float in
  if PrimFloat.ltb maxValue value
  then
    let overValue := CubismMath.mod_ (value - maxValue)%float valueSize in
    if negb (isNaN overValue) then (minValue + overValue)%float else maxValue
  else value.

Definition wrap_under (minValue maxValue value : number) : number :=
  let valueSize := (maxValue - minValue)%float in
  if PrimFloat.ltb value minValue
  then
    let overValue := CubismMath.mod_ (minValue - value)%float valueSize in
    if negb (isNaN overValue) then (maxValue - overValue)%float else minValue
  else value.

Definition getParameterRepeatValue (parameterIndex : Z) (value : number)
  (m : CubismModel) : option number :=
  if csmMap.isExist (_notExistParameterValues m) parameterIndex
  then Some value
  else
    _ ← CSM_ASSERT (in_range parameterIndex (getParameterCount m));
    maxValue ← getParameterMaximumValue parameterIndex m;
    minValue ← getParameterMinimumValue parameterIndex m;
    let value := wrap_over minValue maxValue value in
    let value := wrap_under minValue maxValue value in
    Some value.

Definition getParameterClampValue (parameterIndex : Z) (value : number)
  (m : CubismModel) : option number :=
  if csmMap.isExist (_notExistParameterValues m) parameterIndex
  then Some value
  else
    _ ← CSM_ASSERT (in_range parameterIndex (getParameterCount m));
    maxValue ← getParameterMaximumValue parameterIndex m;
    minValue ← getParameterMinimumValue parameterIndex m;
    Some (CubismMath.clamp value minValue maxValue).

(** ** Parameters: values (lines 1279-1391, 1520-1545) *)

Definition getParameterValueByIndex (parameterIndex : Z) (m : CubismModel)
  : option number :=
  if csmMap.isExist (_notExistParameterValues m) parameterIndex
  then csmMap.getValue (_notExistParameterValues m) parameterIndex
  else
    _ ← CSM_ASSERT (in_range parameterIndex (getParameterCount m));
    arr ← parameterValues m;
    Float32Array.get arr parameterIndex.

Definition getParameterValueById (parameterId : CubismIdHandle) (m : CubismModel)
  : option (number * CubismModel) :=
  '(parameterIndex, m) ← getParameterIndex parameterId m;
  x ← getParameterValueByIndex parameterIndex m;
  Some (x, m).

Definition setParameterValueByIndex (parameterIndex : Z) (value weight : number)
  (m : CubismModel) : option CubismModel :=
  if csmMap.isExist (_notExistParameterValues m) parameterIndex
  then
    x ← (if PrimFloat.eqb weight 1
         then Some value
         else
           old ← csmMap.getValue (_notExistParameterValues m) parameterIndex;
           Some (old * (1 - weight) + value * weight)%float);
    Some (set__notExistParameterValues
            (csmMap.setValue (_notExistParameterValues m) parameterIndex x) m)
  else
    _ ← CSM_ASSERT (in_range parameterIndex (getParameterCount m));
    repeat ← isRepeat parameterIndex m;
    value ← (if repeat : bool
             then getParameterRepeatValue parameterIndex value m
             else getParameterClampValue parameterIndex value m);
    if PrimFloat.eqb weight 1
    then store_parameterValue parameterIndex value m
    else
      arr ← parameterValues m;
      old ← Float32Array.get arr parameterIndex;
      let x := (old * (1 - weight) + value * weight)%float in
      m ← store_parameterValue parameterIndex x m;
      store_parameterValue parameterIndex x m.

Definition setParameterValueById (parameterId : CubismIdHandle) (value weight : number)
  (m : CubismModel) : option CubismModel :=
  '(index, m) ← getParameterIndex parameterId m;
  setParameterValueByIndex index value weight m.

Definition addParameterValueByIndex (parameterIndex : Z) (value weight : number)
  (m : CubismModel) : option CubismModel :=
  x ← getParameterValueByIndex parameterIndex m;
  setParameterValueByIndex parameterIndex (x + value * weight)%float 1%float m.

Definition addParameterValueById (parameterId : CubismIdHandle) (value weight : number)
  (m : CubismModel) : option CubismModel :=
  '(index, m) ← getParameterIndex parameterId m;
  addParameterValueByIndex index value weight m.

Definition multiplyParameterValueByIndex (parameterIndex : Z) (value weight : number)
  (m : CubismModel) : option CubismModel :=
  x ← getParameterValueByIndex parameterIndex m;
  setParameterValueByIndex parameterIndex
    (x * (1.0 + (value - 1.0) * weight))%float 1%float m.

Definition multiplyParameterValueById (parameterId : CubismIdHandle)
  (value weight : number) (m : CubismModel) : option CubismModel :=
  '(index, m) ← getParameterIndex parameterId m;
  multiplyParameterValueByIndex index value weight m.

(** ** Drawables: index lookup (lines 1552-1575) *)

Definition getDrawableCount (m : CubismModel) : Z :=
  Drawables.count (Model.drawables (_model m)).

Definition getDrawableIndex (drawableId : CubismIdHandle) (m : CubismModel) : Z :=
  let drawableCount := Drawables.count (Model.drawables (_model m)) in
  match scan (_drawableIds m) drawableId 0 (Z.to_nat drawableCount) with
  | Some drawableIndex => drawableIndex
  | None => -1
  end.

Definition getDrawableParentPartIndex (drawableIndex : Z) (m : CubismModel)
  : option Z :=
  index (Drawables.parentPartIndices (Model.drawables (_model m))) drawableIndex.

(** ** Construction and initialisation (lines 1921-2083) *)

Definition CubismModel_constructor (model : Model.t) : CubismModel :=
  {| _model := model;
     _parameterValues := null;
     _parameterMaximumValues := null;
     _parameterMinimumValues := null;
     _partOpacities := null;
     _savedParameters := [];
     _parameterIds := [];
     _drawableIds := [];
     _partIds := [];
     _isOverriddenParameterRepeat := true;
     _isOverriddenModelMultiplyColors := false;
     _isOverriddenModelScreenColors := false;
     _isOverriddenCullings := false;
     _modelOpacity := 1.0%float;
     _userParameterRepeatDataList := [];
     _userMultiplyColors := [];
     _userScreenColors := [];
     _userCullings := [];
     _userPartMultiplyColors := [];
     _userPartScreenColors := [];
     _partChildDrawables := [];
     _notExistPartId := ∅;
     _notExistParameterId := ∅;
     _notExistParameterValues := ∅;
     _notExistPartOpacities := ∅;
     objects := [] |}.

Definition white : CubismTextureColor.t :=
  CubismTextureColor.Build 1.0%float 1.0%float 1.0%float 1.0%float.

Definition black : CubismTextureColor.t :=
  CubismTextureColor.Build 0.0%float 0.0%float 0.0%float 1.0%float.

(** The body of the first loop: one identifier and one repeat record per
    parameter. *)
Definition initialize_parameter (parameterIds : list string) (i : Z) (m : CubismModel)
  : option CubismModel :=
  id ← index parameterIds i;
  let m := set__parameterIds
             (csmVector.pushBack (_parameterIds m) (CubismIdManager.getId id)) m in
  Some (set__userParameterRepeatDataList
          (csmVector.pushBack (_userParameterRepeatDataList m)
             (ParameterRepeatData.Build false false)) m).

Definition initialize_partId (partIds : list string) (i : Z) (m : CubismModel)
  : option CubismModel :=
  id ← index partIds i;
  Some (set__partIds (csmVector.pushBack (_partIds m) (CubismIdManager.getId id)) m).

(** The body of the loop over parts: two fresh colour records and an empty
    vector of children. *)
Definition initialize_part (i : Z) (m : CubismModel) : option CubismModel :=
  let m := set__userPartMultiplyColors
             (csmVector.pushBack (_userPartMultiplyColors m)
                (PartColorData.Build false white)) m in
  let m := set__userPartScreenColors
             (csmVector.pushBack (_userPartScreenColors m)
                (PartColorData.Build false black)) m in
  let m := set__partChildDrawables
             (csmVector.pushBack (_partChildDrawables m) []) m in
  _ ← csmVector.at_ (_partChildDrawables m) i;
  Some m.

(** The body of the loop over drawables.  The colour records are fresh
    objects; [userCulling] is the one object allocated before the loops, and
    every slot of [_userCullings] receives a reference to it. *)
Definition initialize_drawable (drawableIds : list string) (userCulling : loc)
  (i : Z) (m : CubismModel) : option CubismModel :=
  id ← index drawableIds i;
  let m := set__drawableIds
             (csmVector.pushBack (_drawableIds m) (CubismIdManager.getId id)) m in
  let m := set__userMultiplyColors
             (csmVector.pushBack (_userMultiplyColors m)
                (DrawableColorData.Build false white)) m in
  let m := set__userScreenColors
             (csmVector.pushBack (_userScreenColors m)
                (DrawableColorData.Build false black)) m in
  let m := set__userCullings (csmVector.pushBack (_userCullings m) userCulling) m in
  parentIndex ← getDrawableParentPartIndex i m;
  if decide (parentIndex >= 0)
  then
    children ← csmVector.at_ (_partChildDrawables m) parentIndex;
    Some (set__partChildDrawables
            (csmVector.set (_partChildDrawables m) parentIndex
               (csmVector.pushBack children i)) m)
  else Some m.

Definition initialize (m : CubismModel) : option CubismModel :=
  let m := set__parameterValues aliased m in
  let m := set__partOpacities aliased m in
  let m := set__parameterMaximumValues aliased m in
  let m := set__parameterMinimumValues aliased m in
  let parameterIds := Parameters.ids (Model.parameters (_model m)) in
  let parameterCount := Parameters.count (Model.parameters (_model m)) in
  m ← for_ parameterCount (initialize_parameter parameterIds) m;
  let partCount := Parts.count (Model.parts (_model m)) in
  let partIds := Parts.ids (Model.parts (_model m)) in
  m ← for_ partCount (initialize_partId partIds) m;
  let drawableIds := Drawables.ids (Model.drawables (_model m)) in
  let drawableCount := Drawables.count (Model.drawables (_model m)) in
  let userCulling : loc := length (objects m) in
  let m := set__objects (objects m ++ [DrawableCullingData.Build false false]) m in
  m ← for_ partCount initialize_part m;
  for_ drawableCount (initialize_drawable drawableIds userCulling) m.

(** ** The calls of an application *)

(** The setters, the identifier lookups, [saveParameters] and
    [loadParameters] of the public interface, as data: between two updates a
    model instance is driven by a sequence of these calls.  [update],
    [release] and [initialize] are not among them: they hand the arrays to
    the core, or rebuild or drop the state of the class. *)
Inductive Call :=
  | SaveParameters
  | LoadParameters
  | SetMultiplyColorByRGBA (index : Z) (r g b a : number)
  | SetScreenColorByRGBA (index : Z) (r g b a : number)
  | SetPartMultiplyColorByRGBA (partIndex : Z) (r g b a : number)
  | SetPartScreenColorByRGBA (partIndex : Z) (r g b a : number)
  | SetOverrideFlagForModelParameterRepeat (isRepeat : bool)
  | SetOverrideFlagForParameterRepeat (parameterIndex : Z) (value : bool)
  | SetRepeatFlagForParameterRepeat (parameterIndex : Z) (value : bool)
  | SetOverrideFlagForModelMultiplyColors (value : bool)
  | SetOverrideFlagForModelScreenColors (value : bool)
  | SetOverrideFlagForDrawableMultiplyColors (drawableindex : Z) (value : bool)
  | SetOverrideFlagForDrawableScreenColors (drawableindex : Z) (value : bool)
  | SetOverrideColorForPartMultiplyColors (partIndex : Z) (value : bool)
  | SetOverrideColorForPartScreenColors (partIndex : Z) (value : bool)
  | SetDrawableCulling (drawableIndex : Z) (isCulling : bool)
  | SetOverrideFlagForModelCullings (isOverriddenCullings : bool)
  | SetOverrideFlagForDrawableCullings (drawableIndex : Z) (isOverriddenCullings : bool)
  | SetModelOapcity (value : number)
  | GetPartIndex (partId : CubismIdHandle)
  | SetPartOpacityByIndex (partIndex : Z) (opacity : number)
  | SetPartOpacityById (partId : CubismIdHandle) (opacity : number)
  | GetPartOpacityById (partId : CubismIdHandle)
  | GetParameterIndex (parameterId : CubismIdHandle)
  | GetParameterValueById (parameterId : CubismIdHandle)
  | SetParameterValueByIndex (parameterIndex : Z) (value weight : number)
  | SetParameterValueById (parameterId : CubismIdHandle) (value weight : number)
  | AddParameterValueByIndex (parameterIndex : Z) (value weight : number)
  | AddParameterValueById (parameterId : CubismIdHandle) (value weight : number)
  | MultiplyParameterValueByIndex (parameterIndex : Z) (value weight : number)
  | MultiplyParameterValueById (parameterId : CubismIdHandle) (value weight : number)
  | SetMultiplyColorByTextureColor (index : Z) (color : CubismTextureColor.t)
  | SetScreenColorByTextureColor (index : Z) (color : CubismTextureColor.t)
  | SetPartMultiplyColorByTextureColor (partIndex : Z) (color : CubismTextureColor.t)
  | SetPartScreenColorByTextureColor (partIndex : Z) (color : CubismTextureColor.t).

(** The state after a call, when the call has a result. *)
Definition run (c : Call) (m : CubismModel) : option CubismModel :=
  match c with
  | SaveParameters => saveParameters m
  | LoadParameters => loadParameters m
  | SetMultiplyColorByRGBA i r g b a => setMultiplyColorByRGBA i r g b a m
  | SetScreenColorByRGBA i r g b a => setScreenColorByRGBA i r g b a m
  | SetPartMultiplyColorByRGBA p r g b a => setPartMultiplyColorByRGBA p r g b a m
  | SetPartScreenColorByRGBA p r g b a => setPartScreenColorByRGBA p r g b a m
  | SetOverrideFlagForModelParameterRepeat v =>
      Some (setOverrideFlagForModelParameterRepeat v m)
  | SetOverrideFlagForParameterRepeat i v => setOverrideFlagForParameterRepeat i v m
  | SetRepeatFlagForParameterRepeat i v => setRepeatFlagForParameterRepeat i v m
  | SetOverrideFlagForModelMultiplyColors v =>
      Some (setOverrideFlagForModelMultiplyColors v m)
  | SetOverrideFlagForModelScreenColors v =>
      Some (setOverrideFlagForModelScreenColors v m)
  | SetOverrideFlagForDrawableMultiplyColors d v =>
      setOverrideFlagForDrawableMultiplyColors d v m
  | SetOverrideFlagForDrawableScreenColors d v =>
      setOverrideFlagForDrawableScreenColors d v m
  | SetOverrideColorForPartMultiplyColors p v =>
      setOverrideColorForPartMultiplyColors p v m
  | SetOverrideColorForPartScreenColors p v =>
      setOverrideColorForPartScreenColors p v m
  | SetDrawableCulling d v => setDrawableCulling d v m
  | SetOverrideFlagForModelCullings v => Some (setOverrideFlagForModelCullings v m)
  | SetOverrideFlagForDrawableCullings d v => setOverrideFlagForDrawableCullings d v m
  | SetModelOapcity v => Some (setModelOapcity v m)
  | GetPartIndex id => snd <$> getPartIndex id m
  | SetPartOpacityByIndex p o => setPartOpacityByIndex p o m
  | SetPartOpacityById id o => setPartOpacityById id o m
  | GetPartOpacityById id => snd <$> getPartOpacityById id m
  | GetParameterIndex id => snd <$> getParameterIndex id m
  | GetParameterValueById id => snd <$> getParameterValueById id m
  | SetParameterValueByIndex i v w => setParameterValueByIndex i v w m
  | SetParameterValueById id v w => setParameterValueById id v w m
  | AddParameterValueByIndex i v w => addParameterValueByIndex i v w m
  | AddParameterValueById id v w => addParameterValueById id v w m
  | MultiplyParameterValueByIndex i v w => multiplyParameterValueByIndex i v w m
  | MultiplyParameterValueById id v w => multiplyParameterValueById id v w m
  | SetMultiplyColorByTextureColor i c => setMultiplyColorByTextureColor i c m
  | SetScreenColorByTextureColor i c => setScreenColorByTextureColor i c m
  | SetPartMultiplyColorByTextureColor p c =>
      setPartMultiplyColorByTextureColor p c m
  | SetPartScreenColorByTextureColor p c => setPartScreenColorByTextureColor p c m
  end.

(** A snapshot whose arrays have the sizes that its counts announce (the
    colour arrays hold four floats per drawable), and in which the parent of
    a drawable is a part or [-1]. *)
Definition snapshot_ok (s : Model.t) : Prop :=
  let pm := Model.parameters s in
  let pt := Model.parts s in
  let dr := Model.drawables s in
  0 ≤ Parameters.count pm ∧ 0 ≤ Parts.count pt ∧ 0 ≤ Drawables.count dr
  ∧ Z.of_nat (length (Parameters.ids pm)) = Parameters.count pm
  ∧ Z.of_nat (length (Parameters.minimumValues pm)) = Parameters.count pm
  ∧ Z.of_nat (length (Parameters.maximumValues pm)) = Parameters.count pm
  ∧ Z.of_nat (length (Parameters.values pm)) = Parameters.count pm
  ∧ Z.of_nat (length (Parameters.repeats pm)) = Parameters.count pm
  ∧ Z.of_nat (length (Parts.ids pt)) = Parts.count pt
  ∧ Z.of_nat (length (Parts.opacities pt)) = Parts.count pt
  ∧ Z.of_nat (length (Drawables.ids dr)) = Drawables.count dr
  ∧ Z.of_nat (length (Drawables.constantFlags dr)) = Drawables.count dr
  ∧ Z.of_nat (length (Drawables.multiplyColors dr)) = 4 * Drawables.count dr
  ∧ Z.of_nat (length (Drawables.screenColors dr)) = 4 * Drawables.count dr
  ∧ Z.of_nat (length (Drawables.parentPartIndices dr)) = Drawables.count dr
  ∧ Forall (λ p, -1 ≤ p < Parts.count pt) (Drawables.parentPartIndices dr).

(** The states of a model instance: built from a snapshot by the
    constructor and [initialize], then driven by calls. *)
Inductive reachable : CubismModel → Prop :=
  | reachable_initialize (s : Model.t) (m : CubismModel) :
      snapshot_ok s →
      initialize (CubismModel_constructor s) = Some m →
      reachable m
  | reachable_run (c : Call) (m m' : CubismModel) :
      reachable m → run c m = Some m' → reachable m'.

(** ** An asset to compute with *)

(** Two parameters ([Angle], range [-30, 30], and [Turn], range [0, 10]
    with the repeat bit set), one part and its one drawable. *)
Definition sample : Model.t :=
  Model.Build
    (Parameters.Build 2 ["Angle"; "Turn"]
       [(-30)%float; 0%float] [30%float; 10%float] [0%float; 0%float]
       [0%float; 0%float] [0; 1])
    (Parts.Build 1 ["Body"] [1%float] [-1])
    (Drawables.Build 1 ["Mesh"] [0]
       [1%float; 1%float; 1%float; 1%float]
       [0%float; 0%float; 0%float; 1%float] [0]).

(** The sample asset with two drawables under its part. *)
Definition sample2 : Model.t :=
  Model.Build
    (Model.parameters sample)
    (Model.parts sample)
    (Drawables.Build 2 ["Mesh"; "Hair"] [0; 4]
       [1%float; 1%float; 1%float; 1%float; 1%float; 1%float; 1%float; 1%float]
       [0%float; 0%float; 0%float; 1%float; 0%float; 0%float; 0%float; 1%float]
       [0; 0]).

(** The colour [(1, 0, 0, 1)]. *)
Definition red : CubismTextureColor.t :=
  CubismTextureColor.Build 1%float 0%float 0%float 1%float.

(** ** Sequences of calls *)

(** The state after a sequence of calls. *)
Definition after (calls : list Call) (m : CubismModel) : option CubismModel :=
  foldl (λ state c, state ≫= run c) (Some m) calls.

(** What no call changes: the identifier vectors and the counts stay, and
    the overflow maps of identifiers keep the entries they have. *)
Definition extends (m m' : CubismModel) : Prop :=
  _parameterIds m' = _parameterIds m
  ∧ _partIds m' = _partIds m
  ∧ getParameterCount m' = getParameterCount m
  ∧ getPartCount m' = getPartCount m
  ∧ _notExistParameterId m ⊆ _notExistParameterId m'
  ∧ _notExistPartId m ⊆ _notExistPartId m'.

(** The value that [setParameterValueByIndex] hands to the store for a
    parameter of the asset: wrapped under repeat policy, clamped otherwise. *)
Definition resolved_value (repeat : bool) (minValue maxValue value : number)
  : number :=
  if repeat
  then wrap_under minValue maxValue (wrap_over minValue maxValue value)
  else CubismMath.clamp value minValue maxValue.

(** ** The invariant of a model instance *)

(** The children of part [p] among the first [nd] drawables, in increasing
    order: the drawables whose parent is [p]. *)
Definition children_of (s : Model.t) (nd : nat) (p : Z) : list Z :=
  filter (λ d, index (Drawables.parentPartIndices (Model.drawables s)) d = Some p)
    (seqZ 0 (Z.of_nat nd)).

(** The slots of an overflow map of values are the synthetic indices handed
    out so far: [count], [count + 1], ... in the order of allocation; every
    identifier of the overflow map of identifiers holds one of them. *)
Definition overflow_ok (count : Z) (ids : gmap CubismIdHandle Z)
  (slots : gmap Z number) : Prop :=
  (∀ k : Z, is_Some (slots !! k) ↔ count ≤ k < count + Z.of_nat (size ids))
  ∧ (∀ (id : CubismIdHandle) (k : Z),
        ids !! id = Some k → count ≤ k < count + Z.of_nat (size ids)).

Record Inv (m : CubismModel) : Prop := {
  inv_snapshot : snapshot_ok (_model m);
  inv_parameterValues : _parameterValues m = aliased;
  inv_partOpacities : _partOpacities m = aliased;
  inv_parameterIds :
    _parameterIds m = Parameters.ids (Model.parameters (_model m));
  inv_partIds : _partIds m = Parts.ids (Model.parts (_model m));
  inv_drawableIds : _drawableIds m = Drawables.ids (Model.drawables (_model m));
  inv_repeatData :
    Z.of_nat (length (_userParameterRepeatDataList m)) = getParameterCount m;
  inv_multiplyColors :
    Z.of_nat (length (_userMultiplyColors m)) = getDrawableCount m;
  inv_screenColors :
    Z.of_nat (length (_userScreenColors m)) = getDrawableCount m;
  inv_partMultiplyColors :
    Z.of_nat (length (_userPartMultiplyColors m)) = getPartCount m;
  inv_partScreenColors :
    Z.of_nat (length (_userPartScreenColors m)) = getPartCount m;
  inv_children_length :
    Z.of_nat (length (_partChildDrawables m)) = getPartCount m;
  inv_children :
    Forall (Forall (λ d, 0 ≤ d < getDrawableCount m)) (_partChildDrawables m);
  inv_topology :
    _partChildDrawables m
    = children_of (_model m) (Z.to_nat (getDrawableCount m))
        <$> seqZ 0 (getPartCount m);
  inv_cullings_length :
    Z.of_nat (length (_userCullings m)) = getDrawableCount m;
  inv_cullings :
    ∃ l : loc, (l < length (objects m))%nat ∧ Forall (λ x, x = l) (_userCullings m);
  inv_parameters_overflow :
    overflow_ok (getParameterCount m) (_notExistParameterId m)
      (_notExistParameterValues m);
  inv_parts_overflow :
    overflow_ok (getPartCount m) (_notExistPartId m) (_notExistPartOpacities m)
}.

(** The cells of a [Float32Array] hold single precision values: storing a
    cell's own value changes nothing. *)
Definition single_precision (arr : Float32Array.t) : Prop :=
  Forall (λ x, fround x = x) arr.

(** ** The state that [initialize] builds *)

(** The model when the four loops of [initialize] have run [np], [nq], [nr]
    and [nd] rounds; [alloc] tells whether the culling record has been
    allocated. *)
Definition initialized_upto (s : Model.t) (np nq : nat) (alloc : bool) (nr nd : nat)
  : CubismModel :=
  {| _model := s;
     _parameterValues := aliased;
     _parameterMaximumValues := aliased;
     _parameterMinimumValues := aliased;
     _partOpacities := aliased;
     _savedParameters := [];
     _parameterIds := take np (Parameters.ids (Model.parameters s));
     _drawableIds := take nd (Drawables.ids (Model.drawables s));
     _partIds := take nq (Parts.ids (Model.parts s));
     _isOverriddenParameterRepeat := true;
     _isOverriddenModelMultiplyColors := false;
     _isOverriddenModelScreenColors := false;
     _isOverriddenCullings := false;
     _modelOpacity := 1.0%float;
     _userParameterRepeatDataList := replicate np (ParameterRepeatData.Build false false);
     _userMultiplyColors := replicate nd (DrawableColorData.Build false white);
     _userScreenColors := replicate nd (DrawableColorData.Build false black);
     _userCullings := replicate nd 0%nat;
     _userPartMultiplyColors := replicate nr (PartColorData.Build false white);
     _userPartScreenColors := replicate nr (PartColorData.Build false black);
     _partChildDrawables := children_of s nd <$> seqZ 0 (Z.of_nat nr);
     _notExistPartId := ∅;
     _notExistParameterId := ∅;
     _notExistParameterValues := ∅;
     _notExistPartOpacities := ∅;
     objects := if alloc then [DrawableCullingData.Build false false] else [] |}.

(** The model that the constructor and [initialize] build from a snapshot. *)
Definition initial (s : Model.t) : CubismModel :=
  initialized_upto s
    (Z.to_nat (Parameters.count (Model.parameters s)))
    (Z.to_nat (Parts.count (Model.parts s)))
    true
    (Z.to_nat (Parts.count (Model.parts s)))
    (Z.to_nat (Drawables.count (Model.drawables s))).

(** The record of a child after the loop of [setOverrideColorForPartColors]. *)
Definition cascaded (value : bool) (partColor : CubismTextureColor.t)
  (d : DrawableColorData.t) : DrawableColorData.t :=
  DrawableColorData.Build value
    (if value then partColor else DrawableColorData.color d).

(** ** Identifiers and defaults of the asset (lines 1093-1115, 1258-1272, 1582-1585) *)

(** [getPartId], [getParameterId] and [getDrawableId] hand the name at the
    index to the identifier manager.  Outside the array the name is
    [undefined], for which the embedding has no handle: the call has no
    result here. *)
Definition getPartId (partIndex : Z) (m : CubismModel) : option CubismIdHandle :=
  partId ← index (Parts.ids (Model.parts (_model m))) partIndex;
  Some (CubismIdManager.getId partId).

Definition getPartParentPartIndices (m : CubismModel) : list Z :=
  Parts.parentIndices (Model.parts (_model m)).

Definition getParameterDefaultValue (parameterIndex : Z) (m : CubismModel)
  : option number :=
  Float32Array.get (Parameters.defaultValues (Model.parameters (_model m)))
    parameterIndex.

Definition getParameterId (parameterIndex : Z) (m : CubismModel)
  : option CubismIdHandle :=
  parameterId ← index (Parameters.ids (Model.parameters (_model m))) parameterIndex;
  Some (CubismIdManager.getId parameterId).

Definition getDrawableId (drawableIndex : Z) (m : CubismModel)
  : option CubismIdHandle :=
  let parameterIds := Drawables.ids (Model.drawables (_model m)) in
  drawableId ← index parameterIds drawableIndex;
  Some (CubismIdManager.getId drawableId).

(** ** What the calls leave alone *)

(** The calls that write the override state (colours, culling, repeat
    flags, model opacity); the others read or write parameter values and
    part opacities, among them the lookups, which may register an
    identifier. *)
Definition override_call (c : Call) : bool :=
  match c with
  | SetMultiplyColorByRGBA _ _ _ _ _ | SetScreenColorByRGBA _ _ _ _ _
  | SetMultiplyColorByTextureColor _ _ | SetScreenColorByTextureColor _ _
  | SetPartMultiplyColorByRGBA _ _ _ _ _ | SetPartScreenColorByRGBA _ _ _ _ _
  | SetPartMultiplyColorByTextureColor _ _ | SetPartScreenColorByTextureColor _ _
  | SetOverrideFlagForModelParameterRepeat _
  | SetOverrideFlagForParameterRepeat _ _ | SetRepeatFlagForParameterRepeat _ _
  | SetOverrideFlagForModelMultiplyColors _ | SetOverrideFlagForModelScreenColors _
  | SetOverrideFlagForDrawableMultiplyColors _ _
  | SetOverrideFlagForDrawableScreenColors _ _
  | SetOverrideColorForPartMultiplyColors _ _
  | SetOverrideColorForPartScreenColors _ _
  | SetDrawableCulling _ _ | SetOverrideFlagForModelCullings _
  | SetOverrideFlagForDrawableCullings _ _ | SetModelOapcity _ => true
  | _ => false
  end.

(** The part of the state that holds values: the snapshot, the overflow
    maps and the saved parameters. *)
Definition same_values (m m' : CubismModel) : Prop :=
  _model m' = _model m
  ∧ _notExistParameterId m' = _notExistParameterId m
  ∧ _notExistParameterValues m' = _notExistParameterValues m
  ∧ _notExistPartId m' = _notExistPartId m
  ∧ _notExistPartOpacities m' = _notExistPartOpacities m
  ∧ _savedParameters m' = _savedParameters m.

(** The part of the state that holds overrides. *)
Definition same_overrides (m m' : CubismModel) : Prop :=
  _userMultiplyColors m' = _userMultiplyColors m
  ∧ _userScreenColors m' = _userScreenColors m
  ∧ _userPartMultiplyColors m' = _userPartMultiplyColors m
  ∧ _userPartScreenColors m' = _userPartScreenColors m
  ∧ _userParameterRepeatDataList m' = _userParameterRepeatDataList m
  ∧ objects m' = objects m
  ∧ _isOverriddenParameterRepeat m' = _isOverriddenParameterRepeat m
  ∧ _isOverriddenModelMultiplyColors m' = _isOverriddenModelMultiplyColors m
  ∧ _isOverriddenModelScreenColors m' = _isOverriddenModelScreenColors m
  ∧ _isOverriddenCullings m' = _isOverriddenCullings m
  ∧ _modelOpacity m' = _modelOpacity m.

(** The data of the asset that the class only reads, and the fields that
    [initialize] fills once: every array of the snapshot but [values] and
    [opacities], of which the length stays; the identifier vectors, the
    lists of children and the slots of the culling vector. *)
Definition same_asset (m m' : CubismModel) : Prop :=
  Model.drawables (_model m') = Model.drawables (_model m)
  ∧ Parameters.count (Model.parameters (_model m'))
    = Parameters.count (Model.parameters (_model m))
  ∧ Parameters.ids (Model.parameters (_model m'))
    = Parameters.ids (Model.parameters (_model m))
  ∧ Parameters.minimumValues (Model.parameters (_model m'))
    = Parameters.minimumValues (Model.parameters (_model m))
  ∧ Parameters.maximumValues (Model.parameters (_model m'))
    = Parameters.maximumValues (Model.parameters (_model m))
  ∧ Parameters.defaultValues (Model.parameters (_model m'))
    = Parameters.defaultValues (Model.parameters (_model m))
  ∧ Parameters.repeats (Model.parameters (_model m'))
    = Parameters.repeats (Model.parameters (_model m))
  ∧ length (Parameters.values (Model.parameters (_model m')))
    = length (Parameters.values (Model.parameters (_model m)))
  ∧ Parts.count (Model.parts (_model m')) = Parts.count (Model.parts (_model m))
  ∧ Parts.ids (Model.parts (_model m')) = Parts.ids (Model.parts (_model m))
  ∧ Parts.parentIndices (Model.parts (_model m'))
    = Parts.parentIndices (Model.parts (_model m))
  ∧ length (Parts.opacities (Model.parts (_model m')))
    = length (Parts.opacities (Model.parts (_model m)))
  ∧ _parameterIds m' = _parameterIds m
  ∧ _partIds m' = _partIds m
  ∧ _drawableIds m' = _drawableIds m
  ∧ _partChildDrawables m' = _partChildDrawables m
  ∧ _userCullings m' = _userCullings m
  ∧ _parameterValues m' = _parameterValues m
  ∧ _partOpacities m' = _partOpacities m.

(** The identifiers of an overflow map are none of the asset's, and no two
    of them hold the same synthetic index. *)
Definition registry_ok (ids : list CubismIdHandle) (absent : gmap CubismIdHandle Z)
  : Prop :=
  (∀ (id : CubismIdHandle) (k : Z), absent !! id = Some k → id ∉ ids)
  ∧ (∀ (id1 id2 : CubismIdHandle) (k : Z),
        absent !! id1 = Some k → absent !! id2 = Some k → id1 = id2).

(** The indices that address a parameter value or a part opacity: those of
    the asset, then one per absent identifier registered so far. *)
Definition parameter_slot (i : Z) (m : CubismModel) : bool :=
  in_range i (getParameterCount m + csmMap.getSize (_notExistParameterId m)).

Definition part_slot (i : Z) (m : CubismModel) : bool :=
  in_range i (getPartCount m + csmMap.getSize (_notExistPartId m)).

(** The calls whose index argument addresses an entity of the model.  A
    call that takes an identifier, or no index at all, is always one. *)
Definition valid_call (c : Call) (m : CubismModel) : bool :=
  match c with
  | SetMultiplyColorByRGBA i _ _ _ _ | SetScreenColorByRGBA i _ _ _ _
  | SetMultiplyColorByTextureColor i _ | SetScreenColorByTextureColor i _
  | SetOverrideFlagForDrawableMultiplyColors i _
  | SetOverrideFlagForDrawableScreenColors i _
  | SetDrawableCulling i _ | SetOverrideFlagForDrawableCullings i _ =>
      in_range i (getDrawableCount m)
  | SetPartMultiplyColorByRGBA p _ _ _ _ | SetPartScreenColorByRGBA p _ _ _ _
  | SetPartMultiplyColorByTextureColor p _ | SetPartScreenColorByTextureColor p _
  | SetOverrideColorForPartMultiplyColors p _
  | SetOverrideColorForPartScreenColors p _ =>
      in_range p (getPartCount m)
  | SetOverrideFlagForParameterRepeat i _ | SetRepeatFlagForParameterRepeat i _ =>
      in_range i (getParameterCount m)
  | SetPartOpacityByIndex p _ => part_slot p m
  | SetParameterValueByIndex i _ _ | AddParameterValueByIndex i _ _
  | MultiplyParameterValueByIndex i _ _ => parameter_slot i m
  | _ => true
  end.

(** What the two registries of absent identifiers keep: the shape of the
    overflow maps and the identifiers in them, for parameters and parts. *)
Definition registries_ok (m : CubismModel) : Prop :=
  (Z.of_nat (length (_parameterIds m)) = getParameterCount m
   ∧ overflow_ok (getParameterCount m) (_notExistParameterId m)
       (_notExistParameterValues m)
   ∧ registry_ok (_parameterIds m) (_notExistParameterId m))
  ∧ (Z.of_nat (length (_partIds m)) = getPartCount m
     ∧ overflow_ok (getPartCount m) (_notExistPartId m) (_notExistPartOpacities m)
     ∧ registry_ok (_partIds m) (_notExistPartId m)).

(** The record of a child after the loop of [setPartColor]: the colour is
    assigned, the flag stays. *)
Definition painted (c : CubismTextureColor.t) (d : DrawableColorData.t)
  : DrawableColorData.t :=
  DrawableColorData.Build (DrawableColorData.isOverridden d) c.

(** ** Masks (lines 1808-1816) *)

(** The loop of [isUsingMasking] from drawable [d] on, for [n] rounds.  A
    round continues when [maskCounts[d] <= 0]; outside the array the
    element is [undefined], the comparison is false and the loop returns
    [true]. *)
Fixpoint isUsingMasking_from (maskCounts : list Z) (d : Z) (n : nat) : bool :=
  match n with
  | O => false
  | S n' =>
      match index maskCounts d with
      | Some c => if c <=? 0 then isUsingMasking_from maskCounts (d + 1) n' else true
      | None => true
      end
  end.

(** [isUsingMasking] reads two fields of [this._model.drawables], the count
    and the [Int32Array] of mask counts; they are the arguments here, the
    snapshot record above does not carry the mask counts. *)
Definition isUsingMasking (count : Z) (maskCounts : list Z) : bool :=
  isUsingMasking_from maskCounts 0 (Z.to_nat count).

(** The sample asset with its drawable under a part that does not exist
    (parent index [1], one part). *)
Definition sample_foreign : Model.t :=
  Model.Build
    (Model.parameters sample)
    (Model.parts sample)
    (Drawables.Build 1 ["Mesh"] [0]
       [1%float; 1%float; 1%float; 1%float]
       [0%float; 0%float; 0%float; 1%float] [1]).

(** ** Reading and writing slots *)

Lemma index_Some {A} (v : list A) (i : Z) (x : A) :
  index v i = Some x ↔ 0 ≤ i ∧ v !! Z.to_nat i = Some x.
Proof.
  unfold index. destruct (decide (0 ≤ i)); [naive_solver | split; [done | lia]].
Qed.

Lemma index_is_Some {A} (v : list A) (i : Z) :
  is_Some (index v i) ↔ 0 ≤ i < Z.of_nat (length v).
Proof.
  unfold index. case_decide.
  - rewrite lookup_lt_is_Some. lia.
  - split; [by intros [? ?] | lia].
Qed.

Lemma index_None {A} (v : list A) (i : Z) :
  index v i = None ↔ ¬ (0 ≤ i < Z.of_nat (length v)).
Proof. rewrite <- index_is_Some, eq_None_not_Some. done. Qed.

Lemma index_of_nat {A} (v : list A) (n : nat) : index v (Z.of_nat n) = v !! n.
Proof. unfold index. case_decide; [by rewrite Nat2Z.id | lia]. Qed.

Lemma length_vector_set {A} (v : list A) (i : Z) (x : A) :
  length (csmVector.set v i x) = length v.
Proof. unfold csmVector.set. case_decide; [apply length_insert | done]. Qed.

Lemma index_vector_set_eq {A} (v : list A) (i : Z) (x : A) :
  0 ≤ i < Z.of_nat (length v) → index (csmVector.set v i x) i = Some x.
Proof.
  intros Hi. unfold index, csmVector.set. case_decide; [| lia].
  apply list_lookup_insert_eq. lia.
Qed.

Lemma index_vector_set_ne {A} (v : list A) (i j : Z) (x : A) :
  i ≠ j → index (csmVector.set v i x) j = index v j.
Proof.
  intros Hne. unfold index, csmVector.set. repeat case_decide; try done.
  apply list_lookup_insert_ne. lia.
Qed.

Lemma length_array_set (arr : Float32Array.t) (i : Z) (x : number) :
  length (Float32Array.set arr i x) = length arr.
Proof. unfold Float32Array.set. case_decide; [apply length_insert | done]. Qed.

Lemma array_get_set_eq (arr : Float32Array.t) (i : Z) (x : number) :
  0 ≤ i < Z.of_nat (length arr) →
  Float32Array.get (Float32Array.set arr i x) i = Some (fround x).
Proof.
  intros Hi. unfold Float32Array.get, Float32Array.set, index.
  case_decide; [| lia]. apply list_lookup_insert_eq. lia.
Qed.

Lemma array_get_set_ne (arr : Float32Array.t) (i j : Z) (x : number) :
  i ≠ j → Float32Array.get (Float32Array.set arr i x) j = Float32Array.get arr j.
Proof.
  intros Hne. unfold Float32Array.get, Float32Array.set, index.
  repeat case_decide; try done. apply list_lookup_insert_ne. lia.
Qed.

Lemma in_range_true (i n : Z) : in_range i n = true ↔ 0 ≤ i < n.
Proof. unfold in_range. rewrite andb_true_iff, Z.leb_le, Z.ltb_lt. done. Qed.

Lemma CSM_ASSERT_Some (c : bool) : CSM_ASSERT c = Some tt ↔ c = true.
Proof. destruct c; simpl; naive_solver. Qed.

Lemma isExist_true `{Countable K} {V} (m : gmap K V) (k : K) :
  csmMap.isExist m k = true ↔ is_Some (m !! k).
Proof. unfold csmMap.isExist. apply bool_decide_eq_true. Qed.

Lemma isExist_false `{Countable K} {V} (m : gmap K V) (k : K) :
  csmMap.isExist m k = false ↔ m !! k = None.
Proof.
  unfold csmMap.isExist. rewrite bool_decide_eq_false, eq_None_not_Some. done.
Qed.

(** ** Loops *)

(** A loop keeps what each round keeps. *)
Lemma for_loop_invariant {S : Type} (P : Z → S → Prop) (body : Z → S → option S)
  (n : nat) :
  ∀ (i : Z) (s s' : S),
    P i s →
    (∀ j t t', i ≤ j < i + Z.of_nat n → P j t → body j t = Some t' → P (j + 1) t') →
    for_loop body i n s = Some s' →
    P (i + Z.of_nat n) s'.
Proof.
  induction n as [| n IH]; intros i s s' HP Hstep Hrun; simpl in Hrun.
  - simplify_eq. by replace (i + Z.of_nat 0) with i by lia.
  - destruct (body i s) as [t |] eqn:Hb; simpl in Hrun; [| done].
    replace (i + Z.of_nat (Datatypes.S n)) with ((i + 1) + Z.of_nat n) by lia.
    eapply IH; [| | exact Hrun].
    + eapply Hstep; [| exact HP | exact Hb]. lia.
    + intros j t0 t' Hj. apply Hstep. lia.
Qed.

(** A loop ends when each round does. *)
Lemma for_loop_total {S : Type} (P : Z → S → Prop) (body : Z → S → option S)
  (n : nat) :
  ∀ (i : Z) (s : S),
    P i s →
    (∀ j t, i ≤ j < i + Z.of_nat n → P j t →
            ∃ t', body j t = Some t' ∧ P (j + 1) t') →
    ∃ s', for_loop body i n s = Some s' ∧ P (i + Z.of_nat n) s'.
Proof.
  induction n as [| n IH]; intros i s HP Hstep; simpl.
  - exists s. split; [done |]. by replace (i + Z.of_nat 0) with i by lia.
  - destruct (Hstep i s) as (t & Hb & Ht); [lia | done |].
    rewrite Hb; simpl.
    replace (i + Z.of_nat (Datatypes.S n)) with ((i + 1) + Z.of_nat n) by lia.
    apply IH; [done |]. intros j t0 Hj. apply Hstep. lia.
Qed.

(** The scan returns the first position of the identifier, if there is one
    among the positions scanned. *)
Lemma scan_Some (ids : list CubismIdHandle) (id : CubismIdHandle) (n : nat) :
  ∀ (i k : Z),
    scan ids id i n = Some k →
    i ≤ k < i + Z.of_nat n ∧ index ids k = Some id
    ∧ ∀ j, i ≤ j < k → index ids j ≠ Some id.
Proof.
  induction n as [| n IH]; intros i k Hs; simpl in Hs; [done |].
  unfold csmVector.at_ in Hs.
  destruct (index ids i) as [x |] eqn:Hi.
  - unfold handle_eqb in Hs. case_bool_decide as Heq.
    + simplify_eq. split; [lia |]. split; [done |]. intros j Hj. lia.
    + apply IH in Hs as (Hk & Hid & Hfirst).
      split; [lia |]. split; [done |]. intros j Hj.
      destruct (decide (j = i)) as [-> |]; [congruence | apply Hfirst; lia].
  - apply IH in Hs as (Hk & Hid & Hfirst).
    split; [lia |]. split; [done |]. intros j Hj.
    destruct (decide (j = i)) as [-> |]; [congruence | apply Hfirst; lia].
Qed.

Lemma scan_None (ids : list CubismIdHandle) (id : CubismIdHandle) (n : nat) :
  ∀ (i : Z),
    scan ids id i n = None ↔ ∀ j, i ≤ j < i + Z.of_nat n → index ids j ≠ Some id.
Proof.
  induction n as [| n IH]; intros i; simpl.
  - split; [intros _ j Hj; lia | done].
  - unfold csmVector.at_. destruct (index ids i) as [x |] eqn:Hi.
    + unfold handle_eqb. case_bool_decide as Heq.
      * split; [done |]. intros Hall. exfalso. apply (Hall i); [lia | congruence].
      * rewrite IH. split; intros Hall j Hj.
        -- destruct (decide (j = i)) as [-> |]; [congruence | apply Hall; lia].
        -- apply Hall. lia.
    + rewrite IH. split; intros Hall j Hj.
      * destruct (decide (j = i)) as [-> |]; [congruence | apply Hall; lia].
      * apply Hall. lia.
Qed.

(** On a vector that holds the [count] identifiers of the asset, the scan
    fails exactly for the identifiers that the asset does not have. *)
Lemma scan_unknown (ids : list CubismIdHandle) (id : CubismIdHandle) (count : Z) :
  Z.of_nat (length ids) = count →
  scan ids id 0 (Z.to_nat count) = None ↔ id ∉ ids.
Proof.
  intros Hlen. rewrite scan_None. rewrite list_elem_of_lookup. split.
  - intros Hall [k Hk]. apply (Hall (Z.of_nat k)).
    + apply lookup_lt_Some in Hk. lia.
    + by rewrite index_of_nat.
  - intros Hno j Hj Hidx. apply Hno. apply index_Some in Hidx as [_ Hidx]. eauto.
Qed.

(** ** Writes that keep the invariant *)

Lemma Inv_set_savedParameters (s : list number) (m : CubismModel) :
  Inv m → Inv (set__savedParameters s m).
Proof. intros []; constructor; done. Qed.

Lemma Inv_set_isOverriddenParameterRepeat (v : bool) (m : CubismModel) :
  Inv m → Inv (set__isOverriddenParameterRepeat v m).
Proof. intros []; constructor; done. Qed.

Lemma Inv_set_isOverriddenModelMultiplyColors (v : bool) (m : CubismModel) :
  Inv m → Inv (set__isOverriddenModelMultiplyColors v m).
Proof. intros []; constructor; done. Qed.

Lemma Inv_set_isOverriddenModelScreenColors (v : bool) (m : CubismModel) :
  Inv m → Inv (set__isOverriddenModelScreenColors v m).
Proof. intros []; constructor; done. Qed.

Lemma Inv_set_isOverriddenCullings (v : bool) (m : CubismModel) :
  Inv m → Inv (set__isOverriddenCullings v m).
Proof. intros []; constructor; done. Qed.

Lemma Inv_set_modelOpacity (v : number) (m : CubismModel) :
  Inv m → Inv (set__modelOpacity v m).
Proof. intros []; constructor; done. Qed.

Lemma Inv_set_userParameterRepeatDataList (v : list ParameterRepeatData.t)
  (m : CubismModel) :
  length v = length (_userParameterRepeatDataList m) →
  Inv m → Inv (set__userParameterRepeatDataList v m).
Proof. intros Hlen []; constructor; try done. simpl. by rewrite Hlen. Qed.

Lemma Inv_set_userMultiplyColors (v : list DrawableColorData.t) (m : CubismModel) :
  length v = length (_userMultiplyColors m) →
  Inv m → Inv (set__userMultiplyColors v m).
Proof. intros Hlen []; constructor; try done. simpl. by rewrite Hlen. Qed.

Lemma Inv_set_userScreenColors (v : list DrawableColorData.t) (m : CubismModel) :
  length v = length (_userScreenColors m) →
  Inv m → Inv (set__userScreenColors v m).
Proof. intros Hlen []; constructor; try done. simpl. by rewrite Hlen. Qed.

Lemma Inv_set_userPartMultiplyColors (v : list PartColorData.t) (m : CubismModel) :
  length v = length (_userPartMultiplyColors m) →
  Inv m → Inv (set__userPartMultiplyColors v m).
Proof. intros Hlen []; constructor; try done. simpl. by rewrite Hlen. Qed.

Lemma Inv_set_userPartScreenColors (v : list PartColorData.t) (m : CubismModel) :
  length v = length (_userPartScreenColors m) →
  Inv m → Inv (set__userPartScreenColors v m).
Proof. intros Hlen []; constructor; try done. simpl. by rewrite Hlen. Qed.

Lemma Inv_set_objects (v : list DrawableCullingData.t) (m : CubismModel) :
  length v = length (objects m) →
  Inv m → Inv (set__objects v m).
Proof. intros Hlen []; constructor; try done. simpl. by rewrite Hlen. Qed.

Lemma Inv_store_parameterValue (i : Z) (x : number) (m m' : CubismModel) :
  store_parameterValue i x m = Some m' → Inv m → Inv m'.
Proof.
  unfold store_parameterValue, parameterValues. intros Hs HI.
  destruct HI as [Hsnap Hpv ? ? ? ? ? ? ? ? ? ? ? ? ? ? ? ?].
  rewrite Hpv in Hs. simpl in Hs. simplify_eq.
  constructor; try done.
  unfold snapshot_ok in *. simpl. rewrite length_array_set. done.
Qed.

Lemma Inv_store_partOpacity (i : Z) (x : number) (m m' : CubismModel) :
  store_partOpacity i x m = Some m' → Inv m → Inv m'.
Proof.
  unfold store_partOpacity, partOpacities. intros Hs HI.
  destruct HI as [Hsnap ? Hpo ? ? ? ? ? ? ? ? ? ? ? ? ? ? ?].
  rewrite Hpo in Hs. simpl in Hs. simplify_eq.
  constructor; try done.
  unfold snapshot_ok in *. simpl. rewrite length_array_set. done.
Qed.

(** ** Calls keep the invariant *)

Lemma Inv_saveParameters (m m' : CubismModel) :
  saveParameters m = Some m' → Inv m → Inv m'.
Proof.
  unfold saveParameters, for_. intros Hrun HI.
  apply (for_loop_invariant (λ _ t, Inv t)) in Hrun; [done | done |].
  intros j t t' _ Ht Hb.
  destruct (parameterValues t) as [arr |]; simpl in Hb; [| done].
  destruct (Float32Array.get arr j) as [x |]; simpl in Hb; [| done].
  case_decide; simplify_eq; by apply Inv_set_savedParameters.
Qed.

Lemma Inv_loadParameters (m m' : CubismModel) :
  loadParameters m = Some m' → Inv m → Inv m'.
Proof.
  unfold loadParameters, for_. intros Hrun HI.
  apply (for_loop_invariant (λ _ t, Inv t)) in Hrun; [done | done |].
  intros j t t' _ Ht Hb.
  destruct (csmVector.at_ (_savedParameters t) j) as [x |]; simpl in Hb; [| done].
  by eapply Inv_store_parameterValue.
Qed.

Lemma length_write_drawable_color (colors colors' : list DrawableColorData.t)
  (i : Z) (c : CubismTextureColor.t) :
  write_drawable_color colors i c = Some colors' → length colors' = length colors.
Proof.
  unfold write_drawable_color. intros Hw.
  destruct (csmVector.at_ colors i); simplify_eq/=. apply length_vector_set.
Qed.

Lemma length_cascade_flag (value : bool) (c : CubismTextureColor.t)
  (colors colors' : list DrawableColorData.t) (i : Z) :
  cascade_flag value c colors i = Some colors' → length colors' = length colors.
Proof.
  unfold cascade_flag. intros Hw.
  destruct (csmVector.at_ colors i); simpl in Hw; [| done].
  destruct value.
  - apply length_write_drawable_color in Hw. by rewrite length_vector_set in Hw.
  - simplify_eq. apply length_vector_set.
Qed.

Lemma length_setPartColor (children : list (list Z)) (partIndex : Z)
  (r g b a : number) (pc pc' : list PartColorData.t)
  (dc dc' : list DrawableColorData.t) :
  setPartColor children partIndex r g b a pc dc = Some (pc', dc') →
  length pc' = length pc ∧ length dc' = length dc.
Proof.
  unfold setPartColor. intros Hs.
  destruct (csmVector.at_ pc partIndex) as [p |]; simpl in Hs; [| done].
  destruct (PartColorData.isOverridden p).
  - destruct (csmVector.at_ children partIndex) as [ch |]; simpl in Hs; [| done].
    destruct (for_ _ _ dc) as [dc1 |] eqn:Hloop; simplify_eq/=.
    split; [apply length_vector_set |].
    unfold for_ in Hloop.
    apply (for_loop_invariant (λ _ t, length t = length dc)) in Hloop; [done | done |].
    intros j t t' _ Ht Hb.
    destruct (csmVector.at_ ch j); simpl in Hb; [| done].
    apply length_write_drawable_color in Hb. congruence.
  - simplify_eq. split; [apply length_vector_set | done].
Qed.

Lemma length_setOverrideColorForPartColors (children : list (list Z))
  (partIndex : Z) (value : bool) (pc pc' : list PartColorData.t)
  (dc dc' : list DrawableColorData.t) :
  setOverrideColorForPartColors children partIndex value pc dc = Some (pc', dc') →
  length pc' = length pc ∧ length dc' = length dc.
Proof.
  unfold setOverrideColorForPartColors. intros Hs.
  destruct (csmVector.at_ pc partIndex) as [p |]; simpl in Hs; [| done].
  destruct (csmVector.at_ children partIndex) as [ch |]; simpl in Hs; [| done].
  destruct (for_ _ _ dc) as [dc1 |] eqn:Hloop; simplify_eq/=.
  split; [apply length_vector_set |].
  unfold for_ in Hloop.
  apply (for_loop_invariant (λ _ t, length t = length dc)) in Hloop; [done | done |].
  intros j t t' _ Ht Hb.
  destruct (csmVector.at_ ch j); simpl in Hb; [| done].
  apply length_cascade_flag in Hb. congruence.
Qed.

Lemma Inv_setPartMultiplyColorByRGBA (p : Z) (r g b a : number) (m m' : CubismModel) :
  setPartMultiplyColorByRGBA p r g b a m = Some m' → Inv m → Inv m'.
Proof.
  unfold setPartMultiplyColorByRGBA. intros Hs HI.
  destruct (setPartColor _ _ _ _ _ _ _ _) as [[pc dc] |] eqn:Hp; simplify_eq/=.
  apply length_setPartColor in Hp as [Hpc Hdc].
  apply Inv_set_userPartMultiplyColors; [done |].
  by apply Inv_set_userMultiplyColors.
Qed.

Lemma Inv_setPartScreenColorByRGBA (p : Z) (r g b a : number) (m m' : CubismModel) :
  setPartScreenColorByRGBA p r g b a m = Some m' → Inv m → Inv m'.
Proof.
  unfold setPartScreenColorByRGBA. intros Hs HI.
  destruct (setPartColor _ _ _ _ _ _ _ _) as [[pc dc] |] eqn:Hp; simplify_eq/=.
  apply length_setPartColor in Hp as [Hpc Hdc].
  apply Inv_set_userPartScreenColors; [done |].
  by apply Inv_set_userScreenColors.
Qed.

Lemma Inv_setOverrideColorForPartMultiplyColors (p : Z) (v : bool)
  (m m' : CubismModel) :
  setOverrideColorForPartMultiplyColors p v m = Some m' → Inv m → Inv m'.
Proof.
  unfold setOverrideColorForPartMultiplyColors. intros Hs HI.
  destruct (csmVector.at_ (_userPartMultiplyColors m) p) as [pd |];
    simpl in Hs; [| done].
  destruct (setOverrideColorForPartColors _ _ _ _ _) as [[pc dc] |] eqn:Hp;
    simplify_eq/=.
  apply length_setOverrideColorForPartColors in Hp as [Hpc Hdc].
  apply Inv_set_userPartMultiplyColors; [done |].
  apply Inv_set_userMultiplyColors; [done |].
  apply Inv_set_userPartMultiplyColors; [apply length_vector_set | done].
Qed.

Lemma Inv_setOverrideColorForPartScreenColors (p : Z) (v : bool)
  (m m' : CubismModel) :
  setOverrideColorForPartScreenColors p v m = Some m' → Inv m → Inv m'.
Proof.
  unfold setOverrideColorForPartScreenColors. intros Hs HI.
  destruct (csmVector.at_ (_userPartScreenColors m) p) as [pd |];
    simpl in Hs; [| done].
  destruct (setOverrideColorForPartColors _ _ _ _ _) as [[pc dc] |] eqn:Hp;
    simplify_eq/=.
  apply length_setOverrideColorForPartColors in Hp as [Hpc Hdc].
  apply Inv_set_userPartScreenColors; [done |].
  apply Inv_set_userScreenColors; [done |].
  apply Inv_set_userPartScreenColors; [apply length_vector_set | done].
Qed.

(** A fresh identifier takes the next synthetic index and one new slot. *)
Lemma overflow_ok_allocate (count : Z) (ids : gmap CubismIdHandle Z)
  (slots : gmap Z number) (id : CubismIdHandle) :
  overflow_ok count ids slots →
  ids !! id = None →
  overflow_ok count
    (csmMap.setValue ids id (count + csmMap.getSize ids))
    (csmMap.appendKey default_number slots (count + csmMap.getSize ids)).
Proof.
  intros [Hslots Hids] Hfresh.
  assert (slots !! (count + csmMap.getSize ids) = None) as Hnew.
  { apply eq_None_not_Some. rewrite Hslots. unfold csmMap.getSize. lia. }
  unfold csmMap.setValue, csmMap.appendKey, csmMap.getSize in *.
  rewrite (proj2 (isExist_false _ _) Hnew).
  unfold overflow_ok. rewrite (map_size_insert_None _ _ _ Hfresh).
  split.
  - intros k. destruct (decide (k = count + Z.of_nat (size ids))) as [-> | Hne].
    + rewrite lookup_insert_eq. split; [lia | eauto].
    + rewrite lookup_insert_ne by done. rewrite Hslots. lia.
  - intros id' k. destruct (decide (id' = id)) as [-> | Hne].
    + rewrite lookup_insert_eq. intros [= <-]. lia.
    + rewrite lookup_insert_ne by done. intros Hk. apply Hids in Hk. lia.
Qed.

(** Writing an existing slot keeps the slots. *)
Lemma overflow_ok_setValue (count : Z) (ids : gmap CubismIdHandle Z)
  (slots : gmap Z number) (k : Z) (x : number) :
  overflow_ok count ids slots →
  is_Some (slots !! k) →
  overflow_ok count ids (csmMap.setValue slots k x).
Proof.
  intros [Hslots Hids] Hk. split; [| done].
  intros k'. unfold csmMap.setValue.
  destruct (decide (k' = k)) as [-> | Hne].
  - rewrite lookup_insert_eq. rewrite <- Hslots. split; eauto.
  - rewrite lookup_insert_ne by done. apply Hslots.
Qed.

Lemma Inv_getPartIndex (id : CubismIdHandle) (m m' : CubismModel) (k : Z) :
  getPartIndex id m = Some (k, m') → Inv m → Inv m'.
Proof.
  unfold getPartIndex. intros Hg HI.
  destruct (scan _ _ _ _); [by simplify_eq |].
  destruct (csmMap.isExist (_notExistPartId m) id) eqn:Hex.
  - destruct (csmMap.getValue _ _); by simplify_eq/=.
  - simplify_eq. apply isExist_false in Hex.
    destruct HI. constructor; try done. simpl.
    by apply overflow_ok_allocate.
Qed.

Lemma Inv_getParameterIndex (id : CubismIdHandle) (m m' : CubismModel) (k : Z) :
  getParameterIndex id m = Some (k, m') → Inv m → Inv m'.
Proof.
  unfold getParameterIndex. intros Hg HI.
  destruct (scan _ _ _ _); [by simplify_eq |].
  destruct (csmMap.isExist (_notExistParameterId m) id) eqn:Hex.
  - destruct (csmMap.getValue _ _); by simplify_eq/=.
  - simplify_eq. apply isExist_false in Hex.
    destruct HI. constructor; try done. simpl.
    by apply overflow_ok_allocate.
Qed.

Lemma Inv_setPartOpacityByIndex (p : Z) (o : number) (m m' : CubismModel) :
  setPartOpacityByIndex p o m = Some m' → Inv m → Inv m'.
Proof.
  unfold setPartOpacityByIndex. intros Hs HI.
  destruct (csmMap.isExist (_notExistPartOpacities m) p) eqn:Hex.
  - simplify_eq. apply isExist_true in Hex.
    destruct HI. constructor; try done. simpl.
    by apply overflow_ok_setValue.
  - destruct (CSM_ASSERT _); simpl in Hs; [| done].
    by eapply Inv_store_partOpacity.
Qed.

Lemma Inv_setParameterValueByIndex (i : Z) (v w : number) (m m' : CubismModel) :
  setParameterValueByIndex i v w m = Some m' → Inv m → Inv m'.
Proof.
  unfold setParameterValueByIndex. intros Hs HI.
  destruct (csmMap.isExist (_notExistParameterValues m) i) eqn:Hex.
  - apply isExist_true in Hex.
    match type of Hs with (?e ≫= _) = _ => destruct e as [x |] end;
      simplify_eq/=.
    destruct HI. constructor; try done. simpl.
    by apply overflow_ok_setValue.
  - destruct (CSM_ASSERT _); simpl in Hs; [| done].
    destruct (isRepeat i m) as [rp |]; simpl in Hs; [| done].
    match type of Hs with (?e ≫= _) = _ => destruct e as [x |] end;
      simpl in Hs; [| done].
    destruct (PrimFloat.eqb w 1).
    + by eapply Inv_store_parameterValue.
    + destruct (parameterValues m) as [arr |]; simpl in Hs; [| done].
      destruct (Float32Array.get arr i) as [old |]; simpl in Hs; [| done].
      match type of Hs with (?e ≫= _) = _ => destruct e as [m1 |] eqn:H1 end;
        simpl in Hs; [| done].
      eapply Inv_store_parameterValue; [exact Hs |].
      by eapply Inv_store_parameterValue.
Qed.

Lemma Inv_run (c : Call) (m m' : CubismModel) :
  run c m = Some m' → Inv m → Inv m'.
Proof.
  destruct c; simpl; intros Hr HI.
  - by eapply Inv_saveParameters.
  - by eapply Inv_loadParameters.
  - unfold setMultiplyColorByRGBA in Hr.
    destruct (write_drawable_color _ _ _) as [cs |] eqn:Hw; simplify_eq/=.
    apply Inv_set_userMultiplyColors; [| done].
    by eapply length_write_drawable_color.
  - unfold setScreenColorByRGBA in Hr.
    destruct (write_drawable_color _ _ _) as [cs |] eqn:Hw; simplify_eq/=.
    apply Inv_set_userScreenColors; [| done].
    by eapply length_write_drawable_color.
  - by eapply Inv_setPartMultiplyColorByRGBA.
  - by eapply Inv_setPartScreenColorByRGBA.
  - simplify_eq. by apply Inv_set_isOverriddenParameterRepeat.
  - unfold setOverrideFlagForParameterRepeat in Hr.
    destruct (csmVector.at_ _ _); simplify_eq/=.
    apply Inv_set_userParameterRepeatDataList; [apply length_vector_set | done].
  - unfold setRepeatFlagForParameterRepeat in Hr.
    destruct (csmVector.at_ _ _); simplify_eq/=.
    apply Inv_set_userParameterRepeatDataList; [apply length_vector_set | done].
  - simplify_eq. by apply Inv_set_isOverriddenModelMultiplyColors.
  - simplify_eq. by apply Inv_set_isOverriddenModelScreenColors.
  - unfold setOverrideFlagForDrawableMultiplyColors in Hr.
    destruct (csmVector.at_ _ _); simplify_eq/=.
    apply Inv_set_userMultiplyColors; [apply length_vector_set | done].
  - unfold setOverrideFlagForDrawableScreenColors in Hr.
    destruct (csmVector.at_ _ _); simplify_eq/=.
    apply Inv_set_userScreenColors; [apply length_vector_set | done].
  - by eapply Inv_setOverrideColorForPartMultiplyColors.
  - by eapply Inv_setOverrideColorForPartScreenColors.
  - unfold setDrawableCulling in Hr.
    destruct (userCulling _ _) as [[l o] |]; simplify_eq/=.
    apply Inv_set_objects; [apply length_insert | done].
  - simplify_eq. by apply Inv_set_isOverriddenCullings.
  - unfold setOverrideFlagForDrawableCullings in Hr.
    destruct (userCulling _ _) as [[l o] |]; simplify_eq/=.
    apply Inv_set_objects; [apply length_insert | done].
  - simplify_eq. by apply Inv_set_modelOpacity.
  - destruct (getPartIndex _ _) as [[k m1] |] eqn:Hg; simplify_eq/=.
    by eapply Inv_getPartIndex.
  - by eapply Inv_setPartOpacityByIndex.
  - unfold setPartOpacityById in Hr.
    destruct (getPartIndex _ _) as [[k m1] |] eqn:Hg; simpl in Hr; [| done].
    apply Inv_getPartIndex in Hg; [| done].
    case_decide; [by simplify_eq |]. by eapply Inv_setPartOpacityByIndex.
  - unfold getPartOpacityById in Hr.
    destruct (getPartIndex _ _) as [[k m1] |] eqn:Hg; simpl in Hr; [| done].
    apply Inv_getPartIndex in Hg; [| done].
    case_decide; [by simplify_eq/= |].
    destruct (getPartOpacityByIndex k m1); by simplify_eq/=.
  - destruct (getParameterIndex _ _) as [[k m1] |] eqn:Hg; simplify_eq/=.
    by eapply Inv_getParameterIndex.
  - unfold getParameterValueById in Hr.
    destruct (getParameterIndex _ _) as [[k m1] |] eqn:Hg; simpl in Hr; [| done].
    apply Inv_getParameterIndex in Hg; [| done].
    destruct (getParameterValueByIndex k m1); by simplify_eq/=.
  - by eapply Inv_setParameterValueByIndex.
  - unfold setParameterValueById in Hr.
    destruct (getParameterIndex _ _) as [[k m1] |] eqn:Hg; simpl in Hr; [| done].
    apply Inv_getParameterIndex in Hg; [| done].
    by eapply Inv_setParameterValueByIndex.
  - unfold addParameterValueByIndex in Hr.
    destruct (getParameterValueByIndex _ _); simpl in Hr; [| done].
    by eapply Inv_setParameterValueByIndex.
  - unfold addParameterValueById, addParameterValueByIndex in Hr.
    destruct (getParameterIndex _ _) as [[k m1] |] eqn:Hg; simpl in Hr; [| done].
    apply Inv_getParameterIndex in Hg; [| done].
    destruct (getParameterValueByIndex _ _); simpl in Hr; [| done].
    by eapply Inv_setParameterValueByIndex.
  - unfold multiplyParameterValueByIndex in Hr.
    destruct (getParameterValueByIndex _ _); simpl in Hr; [| done].
    by eapply Inv_setParameterValueByIndex.
  - unfold multiplyParameterValueById, multiplyParameterValueByIndex in Hr.
    destruct (getParameterIndex _ _) as [[k m1] |] eqn:Hg; simpl in Hr; [| done].
    apply Inv_getParameterIndex in Hg; [| done].
    destruct (getParameterValueByIndex _ _); simpl in Hr; [| done].
    by eapply Inv_setParameterValueByIndex.
  - unfold setMultiplyColorByTextureColor, setMultiplyColorByRGBA in Hr.
    destruct (write_drawable_color _ _ _) as [cs |] eqn:Hw; simplify_eq/=.
    apply Inv_set_userMultiplyColors; [| done].
    by eapply length_write_drawable_color.
  - unfold setScreenColorByTextureColor, setScreenColorByRGBA in Hr.
    destruct (write_drawable_color _ _ _) as [cs |] eqn:Hw; simplify_eq/=.
    apply Inv_set_userScreenColors; [| done].
    by eapply length_write_drawable_color.
  - by eapply Inv_setPartMultiplyColorByRGBA.
  - by eapply Inv_setPartScreenColorByRGBA.
Qed.

(** ** [initialize] *)

Lemma take_S_lookup {A} (l : list A) (n : nat) (x : A) :
  l !! n = Some x → take (S n) l = take n l ++ [x].
Proof. intros Hx. by rewrite (take_S_r _ _ _ Hx). Qed.

Lemma replicate_snoc {A} (n : nat) (x : A) :
  replicate n x ++ [x] = x :: replicate n x.
Proof. induction n as [| n IH]; simpl; [done |]. by rewrite IH. Qed.

Lemma seqZ_S_end (n : nat) :
  seqZ 0 (Z.of_nat (S n)) = seqZ 0 (Z.of_nat n) ++ [Z.of_nat n].
Proof.
  replace (Z.of_nat (S n)) with (Z.of_nat n + 1) by lia.
  rewrite seqZ_app by lia. done.
Qed.

Lemma initialize_parameters (s : Model.t) (n : nat) :
  Z.of_nat n ≤ Z.of_nat (length (Parameters.ids (Model.parameters s))) →
  for_loop (initialize_parameter (Parameters.ids (Model.parameters s))) 0 n
    (initialized_upto s 0 0 false 0 0)
  = Some (initialized_upto s n 0 false 0 0).
Proof.
  intros Hn.
  destruct (for_loop_total
              (λ j t, t = initialized_upto s (Z.to_nat j) 0 false 0 0)
              (initialize_parameter (Parameters.ids (Model.parameters s)))
              n 0 (initialized_upto s 0 0 false 0 0)) as (t & Hrun & Ht);
    [done | | by rewrite Hrun, Ht, Z.add_0_l, Nat2Z.id].
  intros j t Hj ->. eexists. split; [| reflexivity].
  unfold initialize_parameter.
  destruct (lookup_lt_is_Some_2 (Parameters.ids (Model.parameters s)) (Z.to_nat j))
    as [id Hid]; [lia |].
  rewrite (proj2 (index_Some _ _ _) (conj (proj1 Hj) Hid)). simpl.
  replace (Z.to_nat (j + 1)) with (S (Z.to_nat j)) by lia.
  unfold initialized_upto, csmVector.pushBack, CubismIdManager.getId. simpl.
  rewrite (take_S_lookup _ _ _ Hid), replicate_snoc. done.
Qed.

Lemma initialize_partIds (s : Model.t) (np n : nat) :
  Z.of_nat n ≤ Z.of_nat (length (Parts.ids (Model.parts s))) →
  for_loop (initialize_partId (Parts.ids (Model.parts s))) 0 n
    (initialized_upto s np 0 false 0 0)
  = Some (initialized_upto s np n false 0 0).
Proof.
  intros Hn.
  destruct (for_loop_total
              (λ j t, t = initialized_upto s np (Z.to_nat j) false 0 0)
              (initialize_partId (Parts.ids (Model.parts s)))
              n 0 (initialized_upto s np 0 false 0 0)) as (t & Hrun & Ht);
    [done | | by rewrite Hrun, Ht, Z.add_0_l, Nat2Z.id].
  intros j t Hj ->. eexists. split; [| reflexivity].
  unfold initialize_partId.
  destruct (lookup_lt_is_Some_2 (Parts.ids (Model.parts s)) (Z.to_nat j))
    as [id Hid]; [lia |].
  rewrite (proj2 (index_Some _ _ _) (conj (proj1 Hj) Hid)). simpl.
  replace (Z.to_nat (j + 1)) with (S (Z.to_nat j)) by lia.
  unfold initialized_upto, csmVector.pushBack, CubismIdManager.getId. simpl.
  rewrite (take_S_lookup _ _ _ Hid). done.
Qed.

Lemma initialize_parts (s : Model.t) (np nq n : nat) :
  for_loop initialize_part 0 n (initialized_upto s np nq true 0 0)
  = Some (initialized_upto s np nq true n 0).
Proof.
  destruct (for_loop_total
              (λ j t, t = initialized_upto s np nq true (Z.to_nat j) 0)
              initialize_part
              n 0 (initialized_upto s np nq true 0 0)) as (t & Hrun & Ht);
    [done | | by rewrite Hrun, Ht, Z.add_0_l, Nat2Z.id].
  intros j t Hj ->. eexists. split; [| reflexivity].
  unfold initialize_part, csmVector.at_, csmVector.pushBack. simpl.
  replace (Z.to_nat (j + 1)) with (S (Z.to_nat j)) by lia.
  destruct (index_is_Some
              ((children_of s 0 <$> seqZ 0 (Z.of_nat (Z.to_nat j))) ++ [[]]) j)
    as [_ Hin].
  destruct Hin as [ch Hch].
  { rewrite length_app, length_fmap, length_seqZ. simpl. lia. }
  rewrite Hch. simpl.
  unfold initialized_upto. simpl.
  rewrite !replicate_snoc, seqZ_S_end, fmap_app. done.
Qed.

(** One more drawable: it joins the children of its parent, if it has one. *)
Lemma children_of_S (s : Model.t) (nd : nat) (p : Z) :
  children_of s (S nd) p
  = children_of s nd p
    ++ (if decide (index (Drawables.parentPartIndices (Model.drawables s))
                     (Z.of_nat nd) = Some p)
        then [Z.of_nat nd] else []).
Proof.
  unfold children_of. by rewrite seqZ_S_end, filter_app.
Qed.

Lemma children_step_parent (s : Model.t) (nr nd : nat) (parent : Z) :
  index (Drawables.parentPartIndices (Model.drawables s)) (Z.of_nat nd) = Some parent →
  0 ≤ parent < Z.of_nat nr →
  csmVector.set (children_of s nd <$> seqZ 0 (Z.of_nat nr)) parent
    (children_of s nd parent ++ [Z.of_nat nd])
  = children_of s (S nd) <$> seqZ 0 (Z.of_nat nr).
Proof.
  intros Hparent Hrange. unfold csmVector.set.
  case_decide; [| lia].
  apply list_eq. intros k.
  destruct (decide (k = Z.to_nat parent)) as [-> | Hne].
  - rewrite list_lookup_insert_eq by (rewrite length_fmap, length_seqZ; lia).
    rewrite list_lookup_fmap, lookup_seqZ_lt by lia. simpl.
    rewrite children_of_S. rewrite Z.add_0_l, Z2Nat.id by lia.
    rewrite decide_True by done. done.
  - rewrite list_lookup_insert_ne by done.
    rewrite !list_lookup_fmap.
    destruct (seqZ 0 (Z.of_nat nr) !! k) as [p |] eqn:Hp; simpl; [| done].
    apply lookup_seqZ in Hp as [-> Hk].
    rewrite children_of_S, decide_False, app_nil_r; [done |].
    rewrite Hparent. intros [= ->]. lia.
Qed.

Lemma children_step_orphan (s : Model.t) (nr nd : nat) (parent : Z) :
  index (Drawables.parentPartIndices (Model.drawables s)) (Z.of_nat nd) = Some parent →
  parent < 0 →
  children_of s nd <$> seqZ 0 (Z.of_nat nr)
  = children_of s (S nd) <$> seqZ 0 (Z.of_nat nr).
Proof.
  intros Hparent Hneg. apply list_eq. intros k.
  rewrite !list_lookup_fmap.
  destruct (seqZ 0 (Z.of_nat nr) !! k) as [p |] eqn:Hp; simpl; [| done].
  apply lookup_seqZ in Hp as [-> Hk].
  rewrite children_of_S, decide_False, app_nil_r; [done |].
  rewrite Hparent. intros [= ->]. lia.
Qed.

Lemma initialize_drawables (s : Model.t) (np nq nr n : nat) :
  Z.of_nat n ≤ Z.of_nat (length (Drawables.ids (Model.drawables s))) →
  Z.of_nat n ≤ Z.of_nat (length (Drawables.parentPartIndices (Model.drawables s))) →
  Forall (λ p, -1 ≤ p < Z.of_nat nr)
    (Drawables.parentPartIndices (Model.drawables s)) →
  for_loop (initialize_drawable (Drawables.ids (Model.drawables s)) 0%nat) 0 n
    (initialized_upto s np nq true nr 0)
  = Some (initialized_upto s np nq true nr n).
Proof.
  intros Hids Hparents Hrange.
  destruct (for_loop_total
              (λ j t, t = initialized_upto s np nq true nr (Z.to_nat j))
              (initialize_drawable (Drawables.ids (Model.drawables s)) 0%nat)
              n 0 (initialized_upto s np nq true nr 0)) as (t & Hrun & Ht);
    [done | | by rewrite Hrun, Ht, Z.add_0_l, Nat2Z.id].
  intros j t Hj ->. eexists. split; [| reflexivity].
  assert (∃ k : nat, j = Z.of_nat k ∧ (k < n)%nat) as (k & -> & Hk)
    by (exists (Z.to_nat j); lia).
  replace (Z.to_nat (Z.of_nat k + 1)) with (S k) by lia.
  rewrite Nat2Z.id.
  unfold initialize_drawable, getDrawableParentPartIndex.
  destruct (lookup_lt_is_Some_2 (Drawables.ids (Model.drawables s)) k)
    as [id Hid]; [lia |].
  destruct (lookup_lt_is_Some_2
              (Drawables.parentPartIndices (Model.drawables s)) k)
    as [parent Hp]; [lia |].
  assert (index (Drawables.parentPartIndices (Model.drawables s)) (Z.of_nat k)
          = Some parent) as Hparent by (by rewrite index_of_nat).
  assert (-1 ≤ parent < Z.of_nat nr) as Hpr.
  { rewrite Forall_lookup in Hrange. by eapply Hrange. }
  rewrite index_of_nat, Hid. simpl. rewrite Hparent. simpl.
  case_decide as Hge.
  - unfold csmVector.at_.
    assert (index (children_of s k <$> seqZ 0 (Z.of_nat nr)) parent
            = Some (children_of s k parent)) as ->.
    { apply index_Some. split; [lia |].
      rewrite list_lookup_fmap, lookup_seqZ_lt by lia. simpl.
      by rewrite Z.add_0_l, Z2Nat.id by lia. }
    simpl. f_equal.
    unfold csmVector.pushBack, CubismIdManager.getId.
    rewrite children_step_parent by (done || lia).
    unfold initialized_upto. simpl.
    rewrite (take_S_lookup _ _ _ Hid), !replicate_snoc. done.
  - f_equal.
    unfold initialized_upto, csmVector.pushBack, CubismIdManager.getId. simpl.
    rewrite (take_S_lookup _ _ _ Hid), !replicate_snoc.
    rewrite (children_step_orphan s nr k parent) by (done || lia). done.
Qed.

(** [initialize] on a fresh instance has a result, the state [initial]. *)
Lemma initialize_initial (s : Model.t) :
  snapshot_ok s → initialize (CubismModel_constructor s) = Some (initial s).
Proof.
  intros (Hpc & Hqc & Hdc & Hpids & _ & _ & _ & _ & Hqids & _ & Hdids & _ & _ & _
          & Hparents & Hrange).
  unfold initialize, for_. simpl.
  change (set__parameterMinimumValues aliased
            (set__parameterMaximumValues aliased
               (set__partOpacities aliased
                  (set__parameterValues aliased (CubismModel_constructor s)))))
    with (initialized_upto s 0 0 false 0 0).
  rewrite initialize_parameters by lia. simpl.
  rewrite initialize_partIds by lia. simpl.
  change (set__objects _ _)
    with (initialized_upto s (Z.to_nat (Parameters.count (Model.parameters s)))
            (Z.to_nat (Parts.count (Model.parts s))) true 0 0).
  rewrite initialize_parts. simpl.
  rewrite initialize_drawables; [done | lia | lia |].
  by rewrite Z2Nat.id by lia.
Qed.

Lemma overflow_ok_empty (count : Z) : overflow_ok count ∅ ∅.
Proof.
  split.
  - intros k. rewrite lookup_empty, map_size_empty. split; [by intros [? ?] | lia].
  - intros id k. by rewrite lookup_empty.
Qed.

Lemma Inv_initial (s : Model.t) : snapshot_ok s → Inv (initial s).
Proof.
  intros Hs.
  pose proof Hs as (Hpc & Hqc & Hdc & Hpids & _ & _ & _ & _ & Hqids & _ & Hdids & _).
  simpl in Hpc, Hqc, Hdc, Hpids, Hqids, Hdids.
  constructor; unfold initial, getParameterCount, getPartCount, getDrawableCount;
    simpl; rewrite ?length_replicate, ?length_fmap, ?length_seqZ; try lia.
  - done.
  - done.
  - done.
  - apply take_ge. lia.
  - apply take_ge. lia.
  - apply take_ge. lia.
  - apply Forall_fmap, Forall_forall. intros p _. simpl.
    unfold children_of. apply Forall_forall. intros d Hd.
    apply list_elem_of_filter in Hd as [_ Hd]. apply elem_of_seqZ in Hd. lia.
  - by rewrite Z2Nat.id by lia.
  - exists 0%nat. split; [lia |]. apply Forall_replicate. done.
  - apply overflow_ok_empty.
  - apply overflow_ok_empty.
Qed.

(** Every state of a model instance satisfies the invariant. *)
Lemma reachable_Inv (m : CubismModel) : reachable m → Inv m.
Proof.
  induction 1 as [s m Hs Hinit | c m m' _ IH Hrun].
  - rewrite initialize_initial in Hinit by done. simplify_eq. by apply Inv_initial.
  - by eapply Inv_run.
Qed.

Lemma reachable_initial (s : Model.t) : snapshot_ok s → reachable (initial s).
Proof. intros Hs. eapply reachable_initialize; [done | by apply initialize_initial]. Qed.

Lemma reachable_after (calls : list Call) (m m' : CubismModel) :
  reachable m → after calls m = Some m' → reachable m'.
Proof.
  unfold after. revert m. induction calls as [| c calls IH]; intros m Hr Ha.
  - simpl in Ha. by simplify_eq.
  - simpl in Ha. destruct (run c m) as [m1 |] eqn:Hrun.
    + eapply IH; [| exact Ha]. by eapply reachable_run.
    + exfalso. clear -Ha. induction calls as [| c' calls IH']; simpl in Ha; [done |].
      by apply IH'.
Qed.

(** ** The sample assets *)

Lemma sample_ok : snapshot_ok sample.
Proof.
  unfold snapshot_ok; simpl. repeat split; try lia.
  repeat constructor; lia.
Qed.

Lemma sample2_ok : snapshot_ok sample2.
Proof.
  unfold snapshot_ok; simpl. repeat split; try lia.
  repeat constructor; lia.
Qed.

(** ** Drawable lookup *)

(** C3 (as stated, refuted): on the sample asset the drawable lookup answers
    [-1] for a name that the asset does not have, and leaves no entry, where
    the parameter lookup hands out the synthetic index [2]. *)
Lemma getDrawableIndex_not_promoted :
  ("Nope" ∉ Drawables.ids (Model.drawables (_model (initial sample))))
  ∧ getDrawableIndex "Nope" (initial sample) = -1
  ∧ (fst <$> getParameterIndex "Nope" (initial sample)) = Some 2.
Proof. split; [set_solver | split; reflexivity]. Qed.

(** C3 (amended): for every drawable identifier that the loaded asset does
    not have, [getDrawableIndex] returns the value [-1]; it has no overflow
    table and changes nothing, so a repeated lookup returns [-1] again.  For
    an identifier of the asset it returns the first index that carries it:
    an index of the asset whose cell is the identifier, with no smaller index
    whose cell is the identifier. *)
Theorem getDrawableIndex_unknown (m : CubismModel) (id : CubismIdHandle) :
  reachable m →
  (id ∉ Drawables.ids (Model.drawables (_model m)) → getDrawableIndex id m = -1)
  ∧ (id ∈ Drawables.ids (Model.drawables (_model m)) →
     0 ≤ getDrawableIndex id m < getDrawableCount m
     ∧ index (Drawables.ids (Model.drawables (_model m))) (getDrawableIndex id m)
       = Some id
     ∧ ∀ j, 0 ≤ j < getDrawableIndex id m →
         index (Drawables.ids (Model.drawables (_model m))) j ≠ Some id).
Proof.
  intros Hr. apply reachable_Inv in Hr.
  pose proof (inv_drawableIds m Hr) as Hids.
  pose proof (inv_snapshot m Hr)
    as (_ & _ & Hdc & _ & _ & _ & _ & _ & _ & _ & Hlen & _).
  unfold getDrawableIndex, getDrawableCount. rewrite Hids.
  split.
  - intros Hno. by rewrite (proj2 (scan_unknown _ id _ Hlen) Hno).
  - intros Hin.
    destruct (scan _ id 0 _) as [k |] eqn:Hscan.
    + apply scan_Some in Hscan as (Hk & Hid & Hfirst).
      split; [lia |]. split; [done |]. intros j Hj. by apply Hfirst.
    + apply (scan_unknown _ id _ Hlen) in Hscan. done.
Qed.

Lemma getDrawableIndex_unknown_witness :
  getDrawableIndex "Nope" (initial sample) = -1.
Proof.
  apply (getDrawableIndex_unknown (initial sample) "Nope").
  - apply reachable_initial, sample_ok.
  - set_solver.
Defined.

(** ** Repeat policy *)

Lemma index_replicate {A} (n : nat) (x : A) (i : Z) :
  0 ≤ i < Z.of_nat n → index (replicate n x) i = Some x.
Proof.
  intros Hi. apply index_Some. split; [lia |].
  apply lookup_replicate. split; [done | lia].
Qed.

(** A real index is no slot of the overflow map. *)
Lemma real_parameter_not_overflow (m : CubismModel) (i : Z) :
  Inv m → i < getParameterCount m →
  csmMap.isExist (_notExistParameterValues m) i = false.
Proof.
  intros HI Hi. apply isExist_false, eq_None_not_Some.
  destruct (inv_parameters_overflow m HI) as [Hslots _]. rewrite Hslots. lia.
Qed.

Lemma real_part_not_overflow (m : CubismModel) (i : Z) :
  Inv m → i < getPartCount m →
  csmMap.isExist (_notExistPartOpacities m) i = false.
Proof.
  intros HI Hi. apply isExist_false, eq_None_not_Some.
  destruct (inv_parts_overflow m HI) as [Hslots _]. rewrite Hslots. lia.
Qed.

(** C2 (as stated, refuted): the parameter [Turn] of the sample asset has
    the repeat bit set; on the model just constructed and initialised, with
    its own override record untouched, [isRepeat] answers [false]. *)
Lemma isRepeat_fresh_ignores_asset :
  initialize (CubismModel_constructor sample) = Some (initial sample)
  ∧ getOverrideFlagForParameterRepeat 1 (initial sample) = Some false
  ∧ getParameterRepeats 1 (initial sample) = Some true
  ∧ isRepeat 1 (initial sample) = Some false.
Proof. repeat split; reflexivity. Qed.

(** C2 (amended): the constructor sets the model-wide repeat-override flag
    to [true], so on a freshly constructed and initialised model [isRepeat]
    answers the per-parameter override value, which is [false], for every
    in-asset parameter.  In any state where the model-wide flag has been set
    to [false] and the parameter's own record is not overridden, [isRepeat]
    answers exactly the asset-authored bit ([repeats[i] != 0]). *)
Theorem isRepeat_asset_bit (s : Model.t) (m0 m : CubismModel) (i : Z) :
  snapshot_ok s →
  initialize (CubismModel_constructor s) = Some m0 →
  reachable m →
  0 ≤ i < getParameterCount m0 →
  0 ≤ i < getParameterCount m →
  (getOverrideFlagForModelParameterRepeat m0 = true
   ∧ getOverrideFlagForParameterRepeat i m0 = Some false
   ∧ isRepeat i m0 = Some false)
  ∧ (getOverrideFlagForModelParameterRepeat m = false →
     getOverrideFlagForParameterRepeat i m = Some false →
     ∃ bit : Z,
       index (Parameters.repeats (Model.parameters (_model m))) i = Some bit
       ∧ isRepeat i m = Some (negb (bit =? 0))).
Proof.
  intros Hs Hinit Hr Hi0 Hi. split.
  - rewrite initialize_initial in Hinit by done. simplify_eq.
    pose proof (Inv_initial s Hs) as HI.
    unfold isRepeat. rewrite real_parameter_not_overflow by (done || lia).
    rewrite (proj2 (in_range_true _ _) Hi0).
    unfold getOverrideFlagForParameterRepeat, getOverrideFlagForModelParameterRepeat.
    unfold initial, getParameterCount in *. simpl in *.
    unfold csmVector.at_. rewrite index_replicate by lia. done.
  - intros Hflag Hown. apply reachable_Inv in Hr.
    pose proof (inv_snapshot m Hr) as (_ & _ & _ & _ & _ & _ & _ & Hlen & _).
    destruct (proj2 (index_is_Some
                (Parameters.repeats (Model.parameters (_model m))) i)) as [bit Hbit];
      [unfold getParameterCount in Hi; lia |].
    exists bit. split; [done |].
    unfold isRepeat. rewrite real_parameter_not_overflow by (done || lia).
    rewrite (proj2 (in_range_true _ _) Hi).
    unfold getOverrideFlagForModelParameterRepeat in Hflag. rewrite Hflag. simpl.
    unfold getOverrideFlagForParameterRepeat in Hown.
    destruct (csmVector.at_ (_userParameterRepeatDataList m) i) as [[ov rp] |];
      simpl in *; [| done].
    simplify_eq. simpl.
    unfold getParameterRepeats. by rewrite Hbit.
Qed.

Lemma isRepeat_asset_bit_witness :
  isRepeat 1 (initial sample) = Some false
  ∧ isRepeat 1 (setOverrideFlagForModelParameterRepeat false (initial sample))
    = Some true.
Proof.
  pose proof (isRepeat_asset_bit sample (initial sample)
                (setOverrideFlagForModelParameterRepeat false (initial sample)) 1
                sample_ok (initialize_initial sample sample_ok)) as H.
  destruct H as [(_ & _ & Hfresh) Hoff].
  - eapply reachable_run with (c := SetOverrideFlagForModelParameterRepeat false);
      [apply reachable_initial, sample_ok | reflexivity].
  - vm_compute. split; [discriminate | reflexivity].
  - vm_compute. split; [discriminate | reflexivity].
  - split; [exact Hfresh |].
    destruct Hoff as (bit & Hbit & Hrep); [reflexivity | reflexivity |].
    vm_compute in Hbit. injection Hbit as <-. exact Hrep.
Defined.

(** ** Colour and culling precedence *)

Lemma read_color_is_Some (colors : Float32Array.t) (d count : Z) :
  Z.of_nat (length colors) = 4 * count → 0 ≤ d < count →
  is_Some (read_color colors d).
Proof.
  intros Hlen Hd. unfold read_color, Float32Array.get.
  destruct (proj2 (index_is_Some colors (d * 4))) as [r ->]; [lia |].
  destruct (proj2 (index_is_Some colors (d * 4 + 1))) as [g ->]; [lia |].
  destruct (proj2 (index_is_Some colors (d * 4 + 2))) as [b ->]; [lia |].
  destruct (proj2 (index_is_Some colors (d * 4 + 3))) as [a ->]; [lia |].
  simpl. eauto.
Qed.

(** Every slot of [_userCullings] refers to one object of the store. *)
Lemma userCulling_shared (m : CubismModel) :
  Inv m →
  ∃ l : loc,
    (l < length (objects m))%nat
    ∧ ∀ d, 0 ≤ d < getDrawableCount m →
           csmVector.at_ (_userCullings m) d = Some l.
Proof.
  intros HI. destruct (inv_cullings m HI) as (l & Hl & Hall).
  exists l. split; [done |]. intros d Hd.
  destruct (proj2 (index_is_Some (_userCullings m) d)) as [x Hx].
  { rewrite (inv_cullings_length m HI). done. }
  unfold csmVector.at_. rewrite Hx. f_equal.
  apply index_Some in Hx as [_ Hx].
  rewrite Forall_lookup in Hall. by eapply Hall.
Qed.

Lemma userCulling_Some (m : CubismModel) (d : Z) (l : loc)
  (o : DrawableCullingData.t) :
  csmVector.at_ (_userCullings m) d = Some l →
  objects m !! l = Some o →
  userCulling d m = Some (l, o).
Proof.
  intros Hl Ho. unfold userCulling. rewrite Hl. simpl. simpl in Ho.
  rewrite Ho. done.
Qed.

(** C5: for a drawable index of the asset, [getMultiplyColor],
    [getScreenColor] and [getDrawableCulling] return the stored override
    value of the drawable when the model-wide flag is set, whatever the
    drawable's own flag; with the model-wide flag clear they return the
    override value when the drawable's own flag is set, and otherwise the
    asset-authored value of the snapshot: the four floats of the drawable in
    the colour array, and for culling the negation of the double-sided bit.
    The result is always one of the two values, never a mixture. *)
Theorem override_precedence (m : CubismModel) (d : Z) :
  reachable m →
  0 ≤ d < getDrawableCount m →
  (∃ user asset,
      csmVector.at_ (_userMultiplyColors m) d = Some user
      ∧ read_color (Drawables.multiplyColors (Model.drawables (_model m))) d
        = Some asset
      ∧ getMultiplyColor d m
        = Some (if getOverrideFlagForModelMultiplyColors m
                then DrawableColorData.color user
                else if DrawableColorData.isOverridden user
                     then DrawableColorData.color user
                     else asset))
  ∧ (∃ user asset,
      csmVector.at_ (_userScreenColors m) d = Some user
      ∧ read_color (Drawables.screenColors (Model.drawables (_model m))) d
        = Some asset
      ∧ getScreenColor d m
        = Some (if getOverrideFlagForModelScreenColors m
                then DrawableColorData.color user
                else if DrawableColorData.isOverridden user
                     then DrawableColorData.color user
                     else asset))
  ∧ (∃ l user flags,
      csmVector.at_ (_userCullings m) d = Some l
      ∧ objects m !! l = Some user
      ∧ index (Drawables.constantFlags (Model.drawables (_model m))) d = Some flags
      ∧ getDrawableCulling d m
        = Some (if getOverrideFlagForModelCullings m
                then DrawableCullingData.isCulling user
                else if DrawableCullingData.isOverridden user
                     then DrawableCullingData.isCulling user
                     else negb (Utils.hasIsDoubleSidedBit flags))).
Proof.
  intros Hr Hd. apply reachable_Inv in Hr.
  pose proof (inv_snapshot m Hr)
    as (_ & _ & _ & _ & _ & _ & _ & _ & _ & _ & _ & Hflags & Hmul & Hscr & _).
  unfold getDrawableCount in Hd.
  split; [| split].
  - destruct (proj2 (index_is_Some (_userMultiplyColors m) d)) as [user Hu].
    { rewrite (inv_multiplyColors m Hr). done. }
    destruct (read_color_is_Some _ d _ Hmul Hd) as [asset Ha].
    exists user, asset. split; [done |]. split; [done |].
    unfold getMultiplyColor, getOverrideFlagForDrawableMultiplyColors,
      getDrawableMultiplyColor, csmVector.at_.
    rewrite Hu, Ha. simpl.
    destruct (getOverrideFlagForModelMultiplyColors m); [done |].
    by destruct user as [[] c].
  - destruct (proj2 (index_is_Some (_userScreenColors m) d)) as [user Hu].
    { rewrite (inv_screenColors m Hr). done. }
    destruct (read_color_is_Some _ d _ Hscr Hd) as [asset Ha].
    exists user, asset. split; [done |]. split; [done |].
    unfold getScreenColor, getOverrideFlagForDrawableScreenColors,
      getDrawableScreenColor, csmVector.at_.
    rewrite Hu, Ha. simpl.
    destruct (getOverrideFlagForModelScreenColors m); [done |].
    by destruct user as [[] c].
  - destruct (userCulling_shared m Hr) as (l & Hl & Hall).
    destruct (lookup_lt_is_Some_2 (objects m) l Hl) as [user Hu].
    destruct (proj2 (index_is_Some
                (Drawables.constantFlags (Model.drawables (_model m))) d))
      as [flags Hf]; [lia |].
    exists l, user, flags.
    split; [by apply Hall |]. split; [done |]. split; [done |].
    unfold getDrawableCulling, getOverrideFlagForDrawableCullings.
    rewrite (userCulling_Some m d l user (Hall d Hd) Hu). simpl. rewrite Hf. simpl.
    destruct (getOverrideFlagForModelCullings m); [done |].
    by destruct user as [[] c].
Qed.

(** On the sample asset with two drawables: the second one is double-sided,
    so its authored culling is off; with the model-wide flag set the stored
    override value answers instead. *)
Lemma override_precedence_witness :
  getDrawableCulling 1 (initial sample2) = Some false
  ∧ getDrawableCulling 0 (initial sample2) = Some true
  ∧ getMultiplyColor 1 (setOverrideFlagForModelMultiplyColors true (initial sample2))
    = Some white.
Proof.
  assert (reachable (initial sample2)) as Hr by apply reachable_initial, sample2_ok.
  assert (reachable (setOverrideFlagForModelMultiplyColors true (initial sample2)))
    as Hr'.
  { by apply reachable_run
      with (c := SetOverrideFlagForModelMultiplyColors true) (m := initial sample2). }
  pose proof (override_precedence (initial sample2) 1 Hr) as H1.
  pose proof (override_precedence (initial sample2) 0 Hr) as H0.
  pose proof (override_precedence _ 1 Hr') as H2.
  destruct H1 as (_ & _ & (l & u & f & Hl & Hu & Hf & ->)); [vm_compute; done |].
  destruct H0 as (_ & _ & (l0 & u0 & f0 & Hl0 & Hu0 & Hf0 & ->)); [vm_compute; done |].
  destruct H2 as ((u2 & a2 & Hu2 & _ & ->) & _); [vm_compute; done |].
  vm_compute in Hl, Hu, Hf, Hl0, Hu0, Hf0, Hu2. simplify_eq.
  vm_compute. done.
Defined.

(** C9: after [initialize] the slots of [_userCullings] all refer to one
    record object.  For any two drawable indices [i] and [j] and any boolean
    [v], [setDrawableCulling i v] makes [v] the stored override culling of
    [j], which [getDrawableCulling j] returns whenever the resolution of [j]
    takes the override path, and [setOverrideFlagForDrawableCullings i v]
    makes [getOverrideFlagForDrawableCullings j] equal [v]. *)
Theorem cullings_share_one_record (m : CubismModel) (i j : Z) (v : bool) :
  reachable m →
  0 ≤ i < getDrawableCount m →
  0 ≤ j < getDrawableCount m →
  (∃ l, csmVector.at_ (_userCullings m) i = Some l
        ∧ csmVector.at_ (_userCullings m) j = Some l)
  ∧ (∃ m1,
        setDrawableCulling i v m = Some m1
        ∧ (∃ l o, userCulling j m1 = Some (l, o)
                  ∧ DrawableCullingData.isCulling o = v)
        ∧ (getOverrideFlagForModelCullings m1 = true
           ∨ getOverrideFlagForDrawableCullings j m1 = Some true →
           getDrawableCulling j m1 = Some v))
  ∧ (∃ m2,
        setOverrideFlagForDrawableCullings i v m = Some m2
        ∧ getOverrideFlagForDrawableCullings j m2 = Some v).
Proof.
  intros Hr Hi Hj. apply reachable_Inv in Hr.
  destruct (userCulling_shared m Hr) as (l & Hl & Hall).
  destruct (lookup_lt_is_Some_2 (objects m) l Hl) as [o Ho].
  pose proof (userCulling_Some m i l o (Hall i Hi) Ho) as Hui.
  split; [| split].
  - exists l. split; by apply Hall.
  - unfold setDrawableCulling. rewrite Hui. simpl.
    set (m1 := set__objects _ m). exists m1. split; [done |].
    assert (userCulling j m1
            = Some (l, DrawableCullingData.Build
                         (DrawableCullingData.isOverridden o) v)) as Huj.
    { apply userCulling_Some; [by apply Hall |]. simpl.
      by apply list_lookup_insert_eq. }
    split; [by eexists _, _ |].
    unfold getDrawableCulling, getOverrideFlagForDrawableCullings.
    rewrite Huj. simpl.
    repeat case_match; naive_solver.
  - unfold setOverrideFlagForDrawableCullings. rewrite Hui. simpl.
    eexists. split; [done |].
    unfold getOverrideFlagForDrawableCullings.
    rewrite (userCulling_Some _ j l
               (DrawableCullingData.Build v (DrawableCullingData.isCulling o))).
    + done.
    + by apply Hall.
    + simpl. by apply list_lookup_insert_eq.
Qed.

(** On the sample asset with two drawables, a write through drawable [0] is
    read through drawable [1]. *)
Lemma cullings_share_one_record_witness :
  ∃ m1 m2,
    setDrawableCulling 0 true (initial sample2) = Some m1
    ∧ setOverrideFlagForDrawableCullings 0 true m1 = Some m2
    ∧ getOverrideFlagForDrawableCullings 1 m2 = Some true
    ∧ getDrawableCulling 1 m2 = Some true.
Proof.
  assert (reachable (initial sample2)) as Hr by apply reachable_initial, sample2_ok.
  destruct (cullings_share_one_record (initial sample2) 0 1 true Hr)
    as (_ & (m1 & Hm1 & _) & _); [vm_compute; done | vm_compute; done |].
  assert (reachable m1) as Hr1.
  { by apply reachable_run with (c := SetDrawableCulling 0 true) (m := initial sample2). }
  destruct (cullings_share_one_record m1 0 1 true Hr1)
    as (_ & _ & (m2 & Hm2 & Hflag)).
  { vm_compute in Hm1. simplify_eq. vm_compute. done. }
  { vm_compute in Hm1. simplify_eq. vm_compute. done. }
  exists m1, m2. split; [done |]. split; [done |]. split; [done |].
  vm_compute in Hm1. simplify_eq. vm_compute in Hm2. simplify_eq.
  vm_compute. done.
Defined.

(** ** Save and load *)

Lemma save_step_set {A} (values saved : list A) (k : nat) (x : A) :
  values !! k = Some x → (k < length saved)%nat →
  <[k := x]> (take k values ++ drop k saved)
  = take (S k) values ++ drop (S k) saved.
Proof.
  intros Hx Hk.
  pose proof (lookup_lt_Some _ _ _ Hx) as Hlen.
  destruct (lookup_lt_is_Some_2 saved k Hk) as [y Hy].
  rewrite insert_app_r_alt by (rewrite length_take; lia).
  rewrite length_take, Nat.min_l, Nat.sub_diag by lia.
  rewrite (drop_S _ _ _ Hy). simpl.
  rewrite (take_S_r _ _ _ Hx), <- app_assoc. done.
Qed.

Lemma save_step_push {A} (values saved : list A) (k : nat) (x : A) :
  values !! k = Some x → (length saved ≤ k)%nat →
  (take k values ++ drop k saved) ++ [x]
  = take (S k) values ++ drop (S k) saved.
Proof.
  intros Hx Hk.
  rewrite !drop_ge, !app_nil_r by lia. by rewrite (take_S_r _ _ _ Hx).
Qed.

Lemma load_step (values saved : list number) (k : nat) (x : number) :
  saved !! k = Some x → (k < length values)%nat →
  <[k := fround x]> ((fround <$> take k saved) ++ drop k values)
  = (fround <$> take (S k) saved) ++ drop (S k) values.
Proof.
  intros Hx Hk.
  pose proof (lookup_lt_Some _ _ _ Hx) as Hlen.
  destruct (lookup_lt_is_Some_2 values k Hk) as [y Hy].
  rewrite insert_app_r_alt by (rewrite length_fmap, length_take; lia).
  rewrite length_fmap, length_take, Nat.min_l, Nat.sub_diag by lia.
  rewrite (drop_S _ _ _ Hy). simpl.
  rewrite (take_S_r _ _ _ Hx), fmap_app, <- app_assoc. done.
Qed.

(** [saveParameters] in closed form: the first [count] saved entries become
    the current values, the saved entries beyond them stay. *)
Lemma saveParameters_closed (m : CubismModel) :
  Inv m →
  saveParameters m
  = Some (set__savedParameters
            (Parameters.values (Model.parameters (_model m))
             ++ drop (Z.to_nat (getParameterCount m)) (_savedParameters m)) m).
Proof.
  intros HI.
  pose proof (inv_snapshot m HI) as (Hpc & _ & _ & _ & _ & _ & Hlen & _).
  pose proof (inv_parameterValues m HI) as Hview.
  clear HI. unfold saveParameters, for_, getParameterCount, parameterValues.
  destruct m as [? ? ? ? saved ? ? ? ? ? ? ? ? ? [[count ? ? ? ? values ?] ? ?]
                   pv ? ? ? ? ? ? ? ? ? ?].
  simpl in *. subst pv.
  match goal with
  | |- for_loop ?body 0 _ ?m0 = _ =>
      destruct (for_loop_total
                  (λ j t, t = set__savedParameters
                                (take (Z.to_nat j) values ++ drop (Z.to_nat j) saved)
                                m0)
                  body (Z.to_nat count) 0 m0) as (t & Hrun & Ht)
  end.
  - reflexivity.
  - intros j t Hj ->.
    assert (∃ k : nat, j = Z.of_nat k ∧ (k < length values)%nat) as (k & -> & Hk)
      by (exists (Z.to_nat j); lia).
    replace (Z.to_nat (Z.of_nat k + 1)) with (S k) by lia.
    rewrite Nat2Z.id.
    destruct (lookup_lt_is_Some_2 values k Hk) as [x Hx].
    eexists. split; [| reflexivity].
    simpl. unfold Float32Array.get. rewrite index_of_nat, Hx. simpl.
    unfold csmVector.getSize, csmVector.set, csmVector.pushBack.
    case_decide as Hlt.
    + rewrite decide_True by lia. rewrite Nat2Z.id.
      rewrite save_step_set by (done || lia). done.
    + rewrite save_step_push by (done || lia). done.
  - rewrite Hrun, Ht. rewrite Z.add_0_l, Nat2Z.id. rewrite take_ge by lia. done.
Qed.

(** [loadParameters] in closed form: the first [min(count, saved)] cells
    receive the saved entries, the cells beyond them stay. *)
Lemma loadParameters_closed (m : CubismModel) :
  Inv m →
  let n := Z.to_nat (Z.min (getParameterCount m)
                       (csmVector.getSize (_savedParameters m))) in
  loadParameters m
  = Some (with_parameterValues
            ((fround <$> take n (_savedParameters m))
             ++ drop n (Parameters.values (Model.parameters (_model m)))) m).
Proof.
  intros HI.
  pose proof (inv_snapshot m HI) as (Hpc & _ & _ & _ & _ & _ & Hlen & _).
  pose proof (inv_parameterValues m HI) as Hview.
  clear HI.
  unfold loadParameters, for_, getParameterCount, store_parameterValue,
    parameterValues, with_parameterValues.
  destruct m as [? ? ? ? saved ? ? ? ? ? ? ? ? ? [[count ? ? ? ? values ?] ? ?]
                   pv ? ? ? ? ? ? ? ? ? ?].
  simpl in *. subst pv.
  set (n := Z.to_nat (Z.min count (csmVector.getSize saved))).
  assert ((if decide (count > csmVector.getSize saved)
           then csmVector.getSize saved else count) = Z.of_nat n) as ->.
  { unfold n, csmVector.getSize. case_decide; lia. }
  rewrite Nat2Z.id.
  assert (n ≤ length values ∧ n ≤ length saved)%nat as [Hnv Hns].
  { unfold n, csmVector.getSize. lia. }
  clearbody n.
  match goal with
  | |- for_loop ?body 0 _ ?m0 = _ =>
      destruct (for_loop_total
                  (λ j t, t = set__model
                                (Model.set_parameters
                                   (Parameters.set_values
                                      ((fround <$> take (Z.to_nat j) saved)
                                       ++ drop (Z.to_nat j) values)
                                      (Model.parameters (_model m0)))
                                   (_model m0)) m0)
                  body n 0 m0) as (t & Hrun & Ht)
  end.
  - reflexivity.
  - intros j t Hj ->.
    assert (∃ k : nat, j = Z.of_nat k ∧ (k < n)%nat) as (k & -> & Hk)
      by (exists (Z.to_nat j); lia).
    replace (Z.to_nat (Z.of_nat k + 1)) with (S k) by lia.
    rewrite Nat2Z.id.
    destruct (lookup_lt_is_Some_2 saved k) as [x Hx]; [lia |].
    eexists. split; [| reflexivity].
    simpl. unfold csmVector.at_. rewrite index_of_nat, Hx. simpl.
    unfold Float32Array.set. rewrite decide_True by lia. rewrite Nat2Z.id.
    rewrite load_step by (done || lia). done.
  - rewrite Hrun, Ht. by rewrite Z.add_0_l, Nat2Z.id.
Qed.

Lemma with_parameterValues_same (m : CubismModel) (arr : Float32Array.t) :
  arr = Parameters.values (Model.parameters (_model m)) →
  with_parameterValues arr m = m.
Proof. by intros ->. Qed.

Lemma fmap_fround_single_precision (values : Float32Array.t) :
  single_precision values → fround <$> values = values.
Proof.
  induction 1 as [| x l Hx _ IH]; [done |].
  rewrite fmap_cons, Hx. f_equal. exact IH.
Qed.

(** What the copy back stores when the save has just been done. *)
Lemma save_load_values (values saved : list number) (count : Z) :
  Z.of_nat (length values) = count →
  single_precision values →
  let saved1 := values ++ drop (Z.to_nat count) saved in
  let n := Z.to_nat (Z.min count (csmVector.getSize saved1)) in
  (fround <$> take n saved1) ++ drop n values = values.
Proof.
  intros Hlen Hsingle saved1 n.
  assert (n = length values) as ->.
  { unfold n, saved1, csmVector.getSize. rewrite length_app. lia. }
  unfold saved1. rewrite take_app_length, drop_all, app_nil_r.
  by apply fmap_fround_single_precision.
Qed.

(** C7: [saveParameters] followed at once by [loadParameters] leaves every
    current parameter value as it was (the cells of the value array hold
    single precision values, as those of every [Float32Array] do, so the
    copy back stores each of them unchanged).  [loadParameters] copies back
    the first [min(count, saved count)] entries only and leaves the cells
    beyond them untouched; [saveParameters] overwrites the first [count]
    saved entries with the current values, appending those that the saved
    vector is too short for, and keeps the saved entries beyond [count]. *)
Theorem save_then_load (m : CubismModel) :
  reachable m →
  single_precision (Parameters.values (Model.parameters (_model m))) →
  let count := Z.to_nat (getParameterCount m) in
  let values := Parameters.values (Model.parameters (_model m)) in
  let saved := _savedParameters m in
  (∃ m1, saveParameters m = Some m1
         ∧ loadParameters m1 = Some m1
         ∧ parameterValues m1 = parameterValues m)
  ∧ saveParameters m
    = Some (set__savedParameters (values ++ drop count saved) m)
  ∧ loadParameters m
    = Some (with_parameterValues
              ((fround <$> take (count `min` length saved) saved)
               ++ drop (count `min` length saved) values) m).
Proof.
  intros Hr Hsingle count values saved.
  apply reachable_Inv in Hr.
  pose proof (inv_snapshot m Hr) as (Hpc & _ & _ & _ & _ & _ & Hlen & _).
  fold values in Hlen, Hsingle.
  split; [| split].
  - rewrite (saveParameters_closed m Hr). eexists. split; [done |].
    split; [| done].
    rewrite loadParameters_closed by (by apply Inv_set_savedParameters).
    f_equal. apply with_parameterValues_same.
    by apply (save_load_values values saved (getParameterCount m)).
  - apply (saveParameters_closed m Hr).
  - rewrite (loadParameters_closed m Hr).
    replace (Z.to_nat (Z.min (getParameterCount m)
                         (csmVector.getSize (_savedParameters m))))
      with (count `min` length saved)%nat; [done |].
    unfold count, saved, csmVector.getSize. lia.
Qed.

(** On the sample asset, after [0.1] has been written to the first
    parameter (the cell keeps its single precision rounding), a checkpoint
    taken, and the second parameter moved. *)
Lemma save_then_load_witness :
  ∃ m m1,
    after [SetParameterValueByIndex 0 0.1 1; SaveParameters;
           SetParameterValueByIndex 1 2.5 1] (initial sample) = Some m
    ∧ saveParameters m = Some m1
    ∧ loadParameters m1 = Some m1
    ∧ parameterValues m1 = Some [0.10000000149011612%float; 2.5%float].
Proof.
  destruct (after [SetParameterValueByIndex 0 0.1 1; SaveParameters;
                   SetParameterValueByIndex 1 2.5 1] (initial sample))
    as [m |] eqn:Hm; [| vm_compute in Hm; discriminate].
  assert (reachable m) as Hr.
  { eapply reachable_after; [apply reachable_initial, sample_ok | exact Hm]. }
  destruct (save_then_load m Hr) as ((m1 & Hsave & Hload & Hvalues) & _).
  { vm_compute in Hm. injection Hm as <-.
    repeat constructor; vm_compute; reflexivity. }
  exists m, m1. split; [done |]. split; [done |]. split; [done |].
  rewrite Hvalues. vm_compute in Hm. injection Hm as <-. reflexivity.
Defined.

(** ** The cascade of a part's override flag *)

(** The children of a part are the drawables whose parent it is. *)
Lemma children_are_children (m : CubismModel) (p : Z) :
  Inv m → 0 ≤ p < getPartCount m →
  ∃ children,
    csmVector.at_ (_partChildDrawables m) p = Some children
    ∧ Forall (λ d, 0 ≤ d < getDrawableCount m) children
    ∧ ∀ d, d ∈ children
           ↔ 0 ≤ d < getDrawableCount m
             ∧ getDrawableParentPartIndex d m = Some p.
Proof.
  intros HI Hp.
  destruct (proj2 (index_is_Some (_partChildDrawables m) p)) as [ch Hch].
  { rewrite (inv_children_length m HI). done. }
  exists ch. split; [done |]. split.
  - pose proof (inv_children m HI) as Hall. rewrite Forall_lookup in Hall.
    apply index_Some in Hch as [_ Hch]. by eapply Hall.
  - rewrite (inv_topology m HI) in Hch.
    apply index_Some in Hch as [_ Hch].
    rewrite list_lookup_fmap, lookup_seqZ_lt in Hch by lia.
    simpl in Hch. rewrite Z.add_0_l, Z2Nat.id in Hch by lia. simplify_eq.
    intros d. unfold children_of, getDrawableParentPartIndex.
    rewrite list_elem_of_filter, elem_of_seqZ.
    pose proof (inv_snapshot m HI) as (_ & _ & Hdc & _).
    unfold getDrawableCount. rewrite Z2Nat.id by lia. naive_solver lia.
Qed.

Lemma cascade_loop (value : bool) (partColor : CubismTextureColor.t)
  (children : list Z) (colors : list DrawableColorData.t) :
  Forall (λ d, 0 ≤ d < Z.of_nat (length colors)) children →
  ∃ colors',
    for_ (csmVector.getSize children)
      (λ i t, drawableIndex ← csmVector.at_ children i;
              cascade_flag value partColor t drawableIndex)
      colors
    = Some colors'
    ∧ length colors' = length colors
    ∧ ∀ k, index colors' k
           = if decide (k ∈ children)
             then cascaded value partColor <$> index colors k
             else index colors k.
Proof.
  intros Hrange. unfold for_, csmVector.getSize. rewrite Nat2Z.id.
  destruct (for_loop_total
              (λ j t, length t = length colors
                      ∧ ∀ k, index t k
                             = if decide (k ∈ take (Z.to_nat j) children)
                               then cascaded value partColor <$> index colors k
                               else index colors k)
              (λ i t, drawableIndex ← csmVector.at_ children i;
                      cascade_flag value partColor t drawableIndex)
              (length children) 0 colors) as (t & Hrun & Hlen & Ht).
  - split; [done |]. intros k. case_decide as Hin; [| done].
    rewrite take_0 in Hin. set_solver.
  - intros j t Hj [Hlen Ht].
    assert (∃ n : nat, j = Z.of_nat n ∧ (n < length children)%nat)
      as (n & -> & Hn) by (exists (Z.to_nat j); lia).
    replace (Z.to_nat (Z.of_nat n + 1)) with (S n) by lia.
    rewrite Nat2Z.id in Ht.
    destruct (lookup_lt_is_Some_2 children n Hn) as [d Hd].
    assert (0 ≤ d < Z.of_nat (length colors)) as Hdr.
    { rewrite Forall_lookup in Hrange. by eapply Hrange. }
    destruct (proj2 (index_is_Some colors d) Hdr) as [r0 Hr0].
    destruct (proj2 (index_is_Some t d)) as [r Hr]; [lia |].
    assert (DrawableColorData.color r = DrawableColorData.color r0
            ∨ value = true) as Hcolor.
    { pose proof (Ht d) as Htd. rewrite Hr, Hr0 in Htd.
      case_decide; simpl in Htd; simplify_eq; [| by left].
      destruct value; [by right | by left]. }
    exists (csmVector.set t d (cascaded value partColor r0)).
    unfold csmVector.at_. rewrite index_of_nat, Hd. simpl.
    split; [| split].
    + unfold cascade_flag, write_drawable_color, csmVector.at_. rewrite Hr. simpl.
      unfold cascaded. destruct value.
      * rewrite index_vector_set_eq by lia. simpl. f_equal.
        unfold csmVector.set. case_decide; [| lia].
        by rewrite list_insert_insert_eq.
      * destruct Hcolor as [-> | ?]; done.
    + rewrite length_vector_set. done.
    + intros k. rewrite (take_S_r _ _ _ Hd).
      destruct (decide (k = d)) as [-> | Hne].
      * rewrite index_vector_set_eq by lia.
        rewrite decide_True by set_solver. by rewrite Hr0.
      * rewrite index_vector_set_ne by done. rewrite Ht.
        destruct (decide (k ∈ take n children)).
        -- rewrite decide_True by set_solver. done.
        -- rewrite decide_False by set_solver. done.
  - exists t. split; [done |]. split; [done |].
    intros k. rewrite Ht. rewrite Z.add_0_l, Nat2Z.id, firstn_all. done.
Qed.

Lemma setOverrideColorForPartColors_cascade (partChildDrawables : list (list Z))
  (p : Z) (value : bool) (part : PartColorData.t) (children : list Z)
  (partColors : list PartColorData.t) (drawableColors : list DrawableColorData.t) :
  csmVector.at_ partColors p = Some part →
  csmVector.at_ partChildDrawables p = Some children →
  Forall (λ d, 0 ≤ d < Z.of_nat (length drawableColors)) children →
  ∃ drawableColors',
    setOverrideColorForPartColors partChildDrawables p value partColors drawableColors
    = Some (csmVector.set partColors p
              (PartColorData.Build value (PartColorData.color part)),
            drawableColors')
    ∧ length drawableColors' = length drawableColors
    ∧ ∀ k, index drawableColors' k
           = if decide (k ∈ children)
             then cascaded value (PartColorData.color part) <$> index drawableColors k
             else index drawableColors k.
Proof.
  intros Hpart Hchildren Hrange.
  destruct (cascade_loop value (PartColorData.color part) children drawableColors
              Hrange) as (dc' & Hloop & Hlen & Hdc).
  exists dc'. unfold setOverrideColorForPartColors.
  rewrite Hpart. simpl. rewrite Hchildren. simpl. rewrite Hloop. done.
Qed.

(** The part-level call: the part's flag becomes [value]; each child's flag
    becomes [value] too, and its colour becomes the part's colour when
    [value] holds and stays otherwise; no other record changes. *)
Lemma setOverrideColorForPartMultiplyColors_cascade (m : CubismModel) (p : Z)
  (value : bool) :
  Inv m → 0 ≤ p < getPartCount m →
  ∃ part children drawableColors',
    csmVector.at_ (_userPartMultiplyColors m) p = Some part
    ∧ csmVector.at_ (_partChildDrawables m) p = Some children
    ∧ setOverrideColorForPartMultiplyColors p value m
      = Some (set__userPartMultiplyColors
                (csmVector.set (_userPartMultiplyColors m) p
                   (PartColorData.Build value (PartColorData.color part)))
                (set__userMultiplyColors drawableColors' m))
    ∧ ∀ k, index drawableColors' k
           = if decide (k ∈ children)
             then cascaded value (PartColorData.color part)
                    <$> index (_userMultiplyColors m) k
             else index (_userMultiplyColors m) k.
Proof.
  intros HI Hp.
  destruct (children_are_children m p HI Hp) as (children & Hch & Hrange & _).
  destruct (proj2 (index_is_Some (_userPartMultiplyColors m) p)) as [part Hpart].
  { rewrite (inv_partMultiplyColors m HI). done. }
  rewrite <- (inv_multiplyColors m HI) in Hrange.
  set (pc1 := csmVector.set (_userPartMultiplyColors m) p
                (PartColorData.Build value (PartColorData.color part))).
  assert (csmVector.at_ pc1 p
          = Some (PartColorData.Build value (PartColorData.color part))) as Hpart1.
  { apply index_vector_set_eq. rewrite (inv_partMultiplyColors m HI). done. }
  destruct (setOverrideColorForPartColors_cascade (_partChildDrawables m) p value
              _ children pc1 (_userMultiplyColors m) Hpart1 Hch Hrange)
    as (dc' & Hset & _ & Hdc).
  exists part, children, dc'. split; [done |]. split; [done |]. split; [| done].
  transitivity
    ('(partColors, drawableColors) ←
       setOverrideColorForPartColors (_partChildDrawables m) p value pc1
         (_userMultiplyColors m);
     Some (set__userPartMultiplyColors partColors
             (set__userMultiplyColors drawableColors m))).
  { unfold setOverrideColorForPartMultiplyColors, csmVector.at_ at 1.
    rewrite Hpart. reflexivity. }
  rewrite Hset. cbn. f_equal.
  unfold pc1, csmVector.set. case_decide; [| done].
  by rewrite list_insert_insert_eq.
Qed.

Lemma setOverrideColorForPartScreenColors_cascade (m : CubismModel) (p : Z)
  (value : bool) :
  Inv m → 0 ≤ p < getPartCount m →
  ∃ part children drawableColors',
    csmVector.at_ (_userPartScreenColors m) p = Some part
    ∧ csmVector.at_ (_partChildDrawables m) p = Some children
    ∧ setOverrideColorForPartScreenColors p value m
      = Some (set__userPartScreenColors
                (csmVector.set (_userPartScreenColors m) p
                   (PartColorData.Build value (PartColorData.color part)))
                (set__userScreenColors drawableColors' m))
    ∧ ∀ k, index drawableColors' k
           = if decide (k ∈ children)
             then cascaded value (PartColorData.color part)
                    <$> index (_userScreenColors m) k
             else index (_userScreenColors m) k.
Proof.
  intros HI Hp.
  destruct (children_are_children m p HI Hp) as (children & Hch & Hrange & _).
  destruct (proj2 (index_is_Some (_userPartScreenColors m) p)) as [part Hpart].
  { rewrite (inv_partScreenColors m HI). done. }
  rewrite <- (inv_screenColors m HI) in Hrange.
  set (pc1 := csmVector.set (_userPartScreenColors m) p
                (PartColorData.Build value (PartColorData.color part))).
  assert (csmVector.at_ pc1 p
          = Some (PartColorData.Build value (PartColorData.color part))) as Hpart1.
  { apply index_vector_set_eq. rewrite (inv_partScreenColors m HI). done. }
  destruct (setOverrideColorForPartColors_cascade (_partChildDrawables m) p value
              _ children pc1 (_userScreenColors m) Hpart1 Hch Hrange)
    as (dc' & Hset & _ & Hdc).
  exists part, children, dc'. split; [done |]. split; [done |]. split; [| done].
  transitivity
    ('(partColors, drawableColors) ←
       setOverrideColorForPartColors (_partChildDrawables m) p value pc1
         (_userScreenColors m);
     Some (set__userPartScreenColors partColors
             (set__userScreenColors drawableColors m))).
  { unfold setOverrideColorForPartScreenColors, csmVector.at_ at 1.
    rewrite Hpart. reflexivity. }
  rewrite Hset. cbn. f_equal.
  unfold pc1, csmVector.set. case_decide; [| done].
  by rewrite list_insert_insert_eq.
Qed.

(** C1 (as stated, refuted): on the sample asset, the part's multiply-colour
    override is enabled with the colour [(1,0,0,1)], which marks its child
    drawable as overridden; disabling the part's override then clears the
    child's flag (the child's colour stays). *)
Lemma part_override_disable_clears_child_flag :
  ∃ m m',
    after [SetPartMultiplyColorByRGBA 0 1 0 0 1;
           SetOverrideColorForPartMultiplyColors 0 true] (initial sample) = Some m
    ∧ csmVector.at_ (_partChildDrawables m) 0 = Some [0]
    ∧ csmVector.at_ (_userMultiplyColors m) 0
      = Some (DrawableColorData.Build true red)
    ∧ setOverrideColorForPartMultiplyColors 0 false m = Some m'
    ∧ csmVector.at_ (_userMultiplyColors m') 0
      = Some (DrawableColorData.Build false red).
Proof. eexists _, _. repeat split; reflexivity. Qed.

(** C1 (amended): for every part index [p] of an initialised model,
    [setOverrideColorForPartMultiplyColors p false] (and likewise
    [setOverrideColorForPartScreenColors p false]) sets the part's own
    override flag to [false] and also sets the override flag of every child
    drawable of [p] to [false]; the RGBA colour of each child keeps the value
    it had before the call, the part's colour is unchanged, and the records
    of the drawables that are not children of [p] are unchanged.  The
    children of [p] are the drawables whose parent part is [p]. *)
Theorem part_override_disable (m : CubismModel) (p : Z) :
  reachable m →
  0 ≤ p < getPartCount m →
  ∃ children,
    csmVector.at_ (_partChildDrawables m) p = Some children
    ∧ (∀ d, d ∈ children
            ↔ 0 ≤ d < getDrawableCount m
              ∧ getDrawableParentPartIndex d m = Some p)
    ∧ (∃ m',
         setOverrideColorForPartMultiplyColors p false m = Some m'
         ∧ getOverrideColorForPartMultiplyColors p m' = Some false
         ∧ getPartMultiplyColor p m' = getPartMultiplyColor p m
         ∧ (∀ d, d ∈ children →
                 ∃ r, csmVector.at_ (_userMultiplyColors m) d = Some r
                      ∧ csmVector.at_ (_userMultiplyColors m') d
                        = Some (DrawableColorData.Build false
                                  (DrawableColorData.color r)))
         ∧ (∀ d, d ∉ children →
                 csmVector.at_ (_userMultiplyColors m') d
                 = csmVector.at_ (_userMultiplyColors m) d))
    ∧ (∃ m',
         setOverrideColorForPartScreenColors p false m = Some m'
         ∧ getOverrideColorForPartScreenColors p m' = Some false
         ∧ getPartScreenColor p m' = getPartScreenColor p m
         ∧ (∀ d, d ∈ children →
                 ∃ r, csmVector.at_ (_userScreenColors m) d = Some r
                      ∧ csmVector.at_ (_userScreenColors m') d
                        = Some (DrawableColorData.Build false
                                  (DrawableColorData.color r)))
         ∧ (∀ d, d ∉ children →
                 csmVector.at_ (_userScreenColors m') d
                 = csmVector.at_ (_userScreenColors m) d)).
Proof.
  intros Hr Hp. apply reachable_Inv in Hr.
  destruct (children_are_children m p Hr Hp) as (children & Hch & Hrange & Hiff).
  exists children. split; [done |]. split; [done |]. split.
  - destruct (setOverrideColorForPartMultiplyColors_cascade m p false Hr Hp)
      as (part & ch & dc' & Hpart & Hch' & Hset & Hdc).
    rewrite Hch in Hch'. simplify_eq.
    eexists. split; [exact Hset |].
    unfold getOverrideColorForPartMultiplyColors, getPartMultiplyColor,
      csmVector.at_ in *.
    cbn. rewrite index_vector_set_eq
      by (rewrite (inv_partMultiplyColors m Hr); done).
    rewrite Hpart. split; [done |]. split; [done |]. split.
    + intros d Hd. rewrite Hdc, decide_True by done.
      rewrite Forall_forall in Hrange.
      destruct (proj2 (index_is_Some (_userMultiplyColors m) d)) as [r Hrd].
      { rewrite (inv_multiplyColors m Hr). by apply Hrange. }
      exists r. by rewrite Hrd.
    + intros d Hd. by rewrite Hdc, decide_False.
  - destruct (setOverrideColorForPartScreenColors_cascade m p false Hr Hp)
      as (part & ch & dc' & Hpart & Hch' & Hset & Hdc).
    rewrite Hch in Hch'. simplify_eq.
    eexists. split; [exact Hset |].
    unfold getOverrideColorForPartScreenColors, getPartScreenColor,
      csmVector.at_ in *.
    cbn. rewrite index_vector_set_eq
      by (rewrite (inv_partScreenColors m Hr); done).
    rewrite Hpart. split; [done |]. split; [done |]. split.
    + intros d Hd. rewrite Hdc, decide_True by done.
      rewrite Forall_forall in Hrange.
      destruct (proj2 (index_is_Some (_userScreenColors m) d)) as [r Hrd].
      { rewrite (inv_screenColors m Hr). by apply Hrange. }
      exists r. by rewrite Hrd.
    + intros d Hd. by rewrite Hdc, decide_False.
Qed.

Lemma part_override_disable_witness :
  ∃ m m',
    after [SetPartMultiplyColorByRGBA 0 1 0 0 1;
           SetOverrideColorForPartMultiplyColors 0 true] (initial sample) = Some m
    ∧ setOverrideColorForPartMultiplyColors 0 false m = Some m'
    ∧ getOverrideColorForPartMultiplyColors 0 m' = Some false.
Proof.
  destruct (after [SetPartMultiplyColorByRGBA 0 1 0 0 1;
                   SetOverrideColorForPartMultiplyColors 0 true] (initial sample))
    as [m |] eqn:Hm; [| vm_compute in Hm; discriminate].
  assert (reachable m) as Hr.
  { eapply reachable_after; [apply reachable_initial, sample_ok | exact Hm]. }
  destruct (part_override_disable m 0 Hr)
    as (children & _ & _ & (m' & Hset & Hflag & _) & _).
  { vm_compute in Hm. injection Hm as <-. vm_compute. split; [discriminate | done]. }
  exists m, m'. split; [done |]. split; done.
Defined.

(** ** The index registries *)

Lemma extends_refl (m : CubismModel) : extends m m.
Proof. by repeat split. Qed.

Lemma extends_trans (m1 m2 m3 : CubismModel) :
  extends m1 m2 → extends m2 m3 → extends m1 m3.
Proof.
  intros (? & ? & ? & ? & ? & ?) (? & ? & ? & ? & ? & ?).
  repeat split; try congruence; by etrans.
Qed.

Lemma extends_store_parameterValue (i : Z) (x : number) (m m' : CubismModel) :
  store_parameterValue i x m = Some m' → extends m m'.
Proof.
  unfold store_parameterValue. intros Hs.
  destruct (parameterValues m); simplify_eq/=. by repeat split.
Qed.

Lemma extends_getParameterIndex (id : CubismIdHandle) (k : Z) (m m' : CubismModel) :
  getParameterIndex id m = Some (k, m') → extends m m'.
Proof.
  unfold getParameterIndex. intros Hg.
  destruct (scan _ _ _ _); [simplify_eq; apply extends_refl |].
  destruct (csmMap.isExist (_notExistParameterId m) id) eqn:Hex.
  - destruct (csmMap.getValue _ _); simplify_eq/=. apply extends_refl.
  - simplify_eq. apply isExist_false in Hex.
    repeat split; try done. simpl. by apply insert_subseteq.
Qed.

Lemma extends_getPartIndex (id : CubismIdHandle) (k : Z) (m m' : CubismModel) :
  getPartIndex id m = Some (k, m') → extends m m'.
Proof.
  unfold getPartIndex. intros Hg.
  destruct (scan _ _ _ _); [simplify_eq; apply extends_refl |].
  destruct (csmMap.isExist (_notExistPartId m) id) eqn:Hex.
  - destruct (csmMap.getValue _ _); simplify_eq/=. apply extends_refl.
  - simplify_eq. apply isExist_false in Hex.
    repeat split; try done. simpl. by apply insert_subseteq.
Qed.

Lemma extends_setParameterValueByIndex (i : Z) (v w : number) (m m' : CubismModel) :
  setParameterValueByIndex i v w m = Some m' → extends m m'.
Proof.
  unfold setParameterValueByIndex. intros Hs.
  destruct (csmMap.isExist (_notExistParameterValues m) i).
  - match type of Hs with (?e ≫= _) = _ => destruct e as [x |] end;
      simplify_eq/=. by repeat split.
  - destruct (CSM_ASSERT _); simpl in Hs; [| done].
    destruct (isRepeat i m) as [rp |]; simpl in Hs; [| done].
    match type of Hs with (?e ≫= _) = _ => destruct e as [x |] end;
      simpl in Hs; [| done].
    destruct (PrimFloat.eqb w 1).
    + by eapply extends_store_parameterValue.
    + destruct (parameterValues m) as [arr |]; simpl in Hs; [| done].
      destruct (Float32Array.get arr i) as [old |]; simpl in Hs; [| done].
      match type of Hs with (?e ≫= _) = _ => destruct e as [m1 |] eqn:H1 end;
        simpl in Hs; [| done].
      eapply extends_trans; by eapply extends_store_parameterValue.
Qed.

Lemma extends_setPartOpacityByIndex (p : Z) (o : number) (m m' : CubismModel) :
  setPartOpacityByIndex p o m = Some m' → extends m m'.
Proof.
  unfold setPartOpacityByIndex, store_partOpacity. intros Hs.
  destruct (csmMap.isExist (_notExistPartOpacities m) p).
  - simplify_eq. by repeat split.
  - destruct (CSM_ASSERT _); simpl in Hs; [| done].
    destruct (partOpacities m); simplify_eq/=. by repeat split.
Qed.

(** No call forgets an identifier, moves a count or edits the identifier
    vectors. *)
Lemma extends_run (c : Call) (m m' : CubismModel) :
  run c m = Some m' → extends m m'.
Proof.
  destruct c; simpl; intros Hr.
  - unfold saveParameters, for_ in Hr.
    apply (for_loop_invariant (λ _ t, extends m t)) in Hr;
      [done | apply extends_refl |].
    intros j t t' _ Ht Hb.
    destruct (parameterValues t) as [arr |]; simpl in Hb; [| done].
    destruct (Float32Array.get arr j) as [x |]; simpl in Hb; [| done].
    eapply extends_trans; [exact Ht |].
    case_decide; simplify_eq; by repeat split.
  - unfold loadParameters, for_ in Hr.
    apply (for_loop_invariant (λ _ t, extends m t)) in Hr;
      [done | apply extends_refl |].
    intros j t t' _ Ht Hb.
    destruct (csmVector.at_ (_savedParameters t) j) as [x |]; simpl in Hb; [| done].
    eapply extends_trans; [exact Ht |]. by eapply extends_store_parameterValue.
  - unfold setMultiplyColorByRGBA in Hr.
    destruct (write_drawable_color _ _ _); simplify_eq/=. by repeat split.
  - unfold setScreenColorByRGBA in Hr.
    destruct (write_drawable_color _ _ _); simplify_eq/=. by repeat split.
  - unfold setPartMultiplyColorByRGBA in Hr.
    destruct (setPartColor _ _ _ _ _ _ _ _) as [[pc dc] |]; simplify_eq/=.
    by repeat split.
  - unfold setPartScreenColorByRGBA in Hr.
    destruct (setPartColor _ _ _ _ _ _ _ _) as [[pc dc] |]; simplify_eq/=.
    by repeat split.
  - simplify_eq. by repeat split.
  - unfold setOverrideFlagForParameterRepeat in Hr.
    destruct (csmVector.at_ _ _); simplify_eq/=. by repeat split.
  - unfold setRepeatFlagForParameterRepeat in Hr.
    destruct (csmVector.at_ _ _); simplify_eq/=. by repeat split.
  - simplify_eq. by repeat split.
  - simplify_eq. by repeat split.
  - unfold setOverrideFlagForDrawableMultiplyColors in Hr.
    destruct (csmVector.at_ _ _); simplify_eq/=. by repeat split.
  - unfold setOverrideFlagForDrawableScreenColors in Hr.
    destruct (csmVector.at_ _ _); simplify_eq/=. by repeat split.
  - unfold setOverrideColorForPartMultiplyColors in Hr.
    destruct (csmVector.at_ _ _); simpl in Hr; [| done].
    destruct (setOverrideColorForPartColors _ _ _ _ _) as [[pc dc] |];
      simplify_eq/=. by repeat split.
  - unfold setOverrideColorForPartScreenColors in Hr.
    destruct (csmVector.at_ _ _); simpl in Hr; [| done].
    destruct (setOverrideColorForPartColors _ _ _ _ _) as [[pc dc] |];
      simplify_eq/=. by repeat split.
  - unfold setDrawableCulling in Hr.
    destruct (userCulling _ _) as [[l o] |]; simplify_eq/=. by repeat split.
  - simplify_eq. by repeat split.
  - unfold setOverrideFlagForDrawableCullings in Hr.
    destruct (userCulling _ _) as [[l o] |]; simplify_eq/=. by repeat split.
  - simplify_eq. by repeat split.
  - destruct (getPartIndex _ _) as [[k m1] |] eqn:Hg; simplify_eq/=.
    by eapply extends_getPartIndex.
  - by eapply extends_setPartOpacityByIndex.
  - unfold setPartOpacityById in Hr.
    destruct (getPartIndex _ _) as [[k m1] |] eqn:Hg; simpl in Hr; [| done].
    apply extends_getPartIndex in Hg.
    case_decide; [by simplify_eq |].
    eapply extends_trans; [exact Hg |]. by eapply extends_setPartOpacityByIndex.
  - unfold getPartOpacityById in Hr.
    destruct (getPartIndex _ _) as [[k m1] |] eqn:Hg; simpl in Hr; [| done].
    apply extends_getPartIndex in Hg.
    case_decide; [by simplify_eq/= |].
    destruct (getPartOpacityByIndex k m1); by simplify_eq/=.
  - destruct (getParameterIndex _ _) as [[k m1] |] eqn:Hg; simplify_eq/=.
    by eapply extends_getParameterIndex.
  - unfold getParameterValueById in Hr.
    destruct (getParameterIndex _ _) as [[k m1] |] eqn:Hg; simpl in Hr; [| done].
    apply extends_getParameterIndex in Hg.
    destruct (getParameterValueByIndex k m1); by simplify_eq/=.
  - by eapply extends_setParameterValueByIndex.
  - unfold setParameterValueById in Hr.
    destruct (getParameterIndex _ _) as [[k m1] |] eqn:Hg; simpl in Hr; [| done].
    apply extends_getParameterIndex in Hg.
    eapply extends_trans; [exact Hg |]. by eapply extends_setParameterValueByIndex.
  - unfold addParameterValueByIndex in Hr.
    destruct (getParameterValueByIndex _ _); simpl in Hr; [| done].
    by eapply extends_setParameterValueByIndex.
  - unfold addParameterValueById, addParameterValueByIndex in Hr.
    destruct (getParameterIndex _ _) as [[k m1] |] eqn:Hg; simpl in Hr; [| done].
    apply extends_getParameterIndex in Hg.
    destruct (getParameterValueByIndex _ _); simpl in Hr; [| done].
    eapply extends_trans; [exact Hg |]. by eapply extends_setParameterValueByIndex.
  - unfold multiplyParameterValueByIndex in Hr.
    destruct (getParameterValueByIndex _ _); simpl in Hr; [| done].
    by eapply extends_setParameterValueByIndex.
  - unfold multiplyParameterValueById, multiplyParameterValueByIndex in Hr.
    destruct (getParameterIndex _ _) as [[k m1] |] eqn:Hg; simpl in Hr; [| done].
    apply extends_getParameterIndex in Hg.
    destruct (getParameterValueByIndex _ _); simpl in Hr; [| done].
    eapply extends_trans; [exact Hg |]. by eapply extends_setParameterValueByIndex.
  - unfold setMultiplyColorByTextureColor, setMultiplyColorByRGBA in Hr.
    destruct (write_drawable_color _ _ _); simplify_eq/=. by repeat split.
  - unfold setScreenColorByTextureColor, setScreenColorByRGBA in Hr.
    destruct (write_drawable_color _ _ _); simplify_eq/=. by repeat split.
  - unfold setPartMultiplyColorByTextureColor, setPartMultiplyColorByRGBA in Hr.
    destruct (setPartColor _ _ _ _ _ _ _ _) as [[pc dc] |]; simplify_eq/=.
    by repeat split.
  - unfold setPartScreenColorByTextureColor, setPartScreenColorByRGBA in Hr.
    destruct (setPartColor _ _ _ _ _ _ _ _) as [[pc dc] |]; simplify_eq/=.
    by repeat split.
Qed.

Lemma extends_after (calls : list Call) (m m' : CubismModel) :
  after calls m = Some m' → extends m m'.
Proof.
  unfold after. revert m. induction calls as [| c calls IH]; intros m Ha.
  - simpl in Ha. simplify_eq. apply extends_refl.
  - simpl in Ha. destruct (run c m) as [m1 |] eqn:Hrun.
    + eapply extends_trans; [by eapply extends_run | by apply IH].
    + exfalso. clear -Ha. induction calls as [| c' calls IH']; simpl in Ha; [done |].
      by apply IH'.
Qed.

Lemma scan_parameterIds_unknown (m : CubismModel) (id : CubismIdHandle) :
  Inv m → id ∉ Parameters.ids (Model.parameters (_model m)) →
  scan (_parameterIds m) id 0 (Z.to_nat (getParameterCount m)) = None.
Proof.
  intros HI Hno.
  pose proof (inv_snapshot m HI) as (_ & _ & _ & Hlen & _).
  rewrite (inv_parameterIds m HI). by apply scan_unknown.
Qed.

Lemma scan_partIds_unknown (m : CubismModel) (id : CubismIdHandle) :
  Inv m → id ∉ Parts.ids (Model.parts (_model m)) →
  scan (_partIds m) id 0 (Z.to_nat (getPartCount m)) = None.
Proof.
  intros HI Hno.
  pose proof (inv_snapshot m HI) as (_ & _ & _ & _ & _ & _ & _ & _ & Hlen & _).
  rewrite (inv_partIds m HI). by apply scan_unknown.
Qed.

(** A lookup that the scan and the overflow map of identifiers decide. *)
Lemma getParameterIndex_registered (m : CubismModel) (id : CubismIdHandle) (k : Z) :
  scan (_parameterIds m) id 0 (Z.to_nat (getParameterCount m)) = None →
  _notExistParameterId m !! id = Some k →
  getParameterIndex id m = Some (k, m).
Proof.
  intros Hscan Hk. unfold getParameterIndex.
  unfold getParameterCount in Hscan. rewrite Hscan.
  rewrite (proj2 (isExist_true _ _)) by eauto.
  unfold csmMap.getValue. by rewrite Hk.
Qed.

Lemma getPartIndex_registered (m : CubismModel) (id : CubismIdHandle) (k : Z) :
  scan (_partIds m) id 0 (Z.to_nat (getPartCount m)) = None →
  _notExistPartId m !! id = Some k →
  getPartIndex id m = Some (k, m).
Proof.
  intros Hscan Hk. unfold getPartIndex.
  unfold getPartCount in Hscan. rewrite Hscan.
  rewrite (proj2 (isExist_true _ _)) by eauto.
  unfold csmMap.getValue. by rewrite Hk.
Qed.

Lemma appendKey_fresh `{Countable K} {V} (dflt : V) (m : gmap K V) (k : K) :
  m !! k = None → csmMap.appendKey dflt m k = <[k := dflt]> m.
Proof.
  intros Hk. unfold csmMap.appendKey. by rewrite (proj2 (isExist_false _ _) Hk).
Qed.

Lemma getParameterIndex_fresh (m : CubismModel) (id : CubismIdHandle) :
  Inv m →
  scan (_parameterIds m) id 0 (Z.to_nat (getParameterCount m)) = None →
  _notExistParameterId m !! id = None →
  let k := getParameterCount m + Z.of_nat (size (_notExistParameterId m)) in
  _notExistParameterValues m !! k = None
  ∧ getParameterIndex id m
    = Some (k, set__notExistParameterValues
                 (<[k := default_number]> (_notExistParameterValues m))
                 (set__notExistParameterId
                    (<[id := k]> (_notExistParameterId m)) m)).
Proof.
  intros HI Hscan Hfresh k.
  assert (_notExistParameterValues m !! k = None) as Hslot.
  { apply eq_None_not_Some.
    destruct (inv_parameters_overflow m HI) as [Hslots _].
    rewrite Hslots. unfold k. lia. }
  split; [done |].
  unfold getParameterIndex. unfold getParameterCount in Hscan. rewrite Hscan.
  rewrite (proj2 (isExist_false _ _) Hfresh).
  rewrite appendKey_fresh by exact Hslot. reflexivity.
Qed.

Lemma getPartIndex_fresh (m : CubismModel) (id : CubismIdHandle) :
  Inv m →
  scan (_partIds m) id 0 (Z.to_nat (getPartCount m)) = None →
  _notExistPartId m !! id = None →
  let k := getPartCount m + Z.of_nat (size (_notExistPartId m)) in
  _notExistPartOpacities m !! k = None
  ∧ getPartIndex id m
    = Some (k, set__notExistPartOpacities
                 (<[k := default_number]> (_notExistPartOpacities m))
                 (set__notExistPartId (<[id := k]> (_notExistPartId m)) m)).
Proof.
  intros HI Hscan Hfresh k.
  assert (_notExistPartOpacities m !! k = None) as Hslot.
  { apply eq_None_not_Some.
    destruct (inv_parts_overflow m HI) as [Hslots _].
    rewrite Hslots. unfold k. lia. }
  split; [done |].
  unfold getPartIndex. unfold getPartCount in Hscan. rewrite Hscan.
  rewrite (proj2 (isExist_false _ _) Hfresh).
  rewrite appendKey_fresh by exact Hslot. reflexivity.
Qed.

(** C6: for an identifier that the asset does not have, the first call of
    [getParameterIndex] (no entry for the identifier yet) returns the
    synthetic index [count + n], where [n] identifiers were given one
    before, and appends one default value slot, for that index; every later
    lookup of the identifier, whatever calls came in between, returns the
    same index and leaves the state, slots included, as it is; and
    [getParameterCount] keeps its value throughout.  The same holds for
    [getPartIndex], the part opacities and [getPartCount]. *)
Theorem absent_identifier_index (m : CubismModel) (id : CubismIdHandle) :
  reachable m →
  (id ∉ Parameters.ids (Model.parameters (_model m)) →
   _notExistParameterId m !! id = None →
   let k := getParameterCount m + Z.of_nat (size (_notExistParameterId m)) in
   ∃ m1,
     getParameterIndex id m = Some (k, m1)
     ∧ _notExistParameterValues m !! k = None
     ∧ _notExistParameterValues m1
       = <[k := default_number]> (_notExistParameterValues m)
     ∧ size (_notExistParameterValues m1) = S (size (_notExistParameterValues m))
     ∧ getParameterCount m1 = getParameterCount m
     ∧ ∀ calls m2,
         after calls m1 = Some m2 →
         getParameterIndex id m2 = Some (k, m2)
         ∧ getParameterCount m2 = getParameterCount m)
  ∧ (id ∉ Parts.ids (Model.parts (_model m)) →
     _notExistPartId m !! id = None →
     let k := getPartCount m + Z.of_nat (size (_notExistPartId m)) in
     ∃ m1,
       getPartIndex id m = Some (k, m1)
       ∧ _notExistPartOpacities m !! k = None
       ∧ _notExistPartOpacities m1
         = <[k := default_number]> (_notExistPartOpacities m)
       ∧ size (_notExistPartOpacities m1) = S (size (_notExistPartOpacities m))
       ∧ getPartCount m1 = getPartCount m
       ∧ ∀ calls m2,
           after calls m1 = Some m2 →
           getPartIndex id m2 = Some (k, m2)
           ∧ getPartCount m2 = getPartCount m).
Proof.
  intros Hr. apply reachable_Inv in Hr. split.
  - intros Hno Hfresh k.
    pose proof (scan_parameterIds_unknown m id Hr Hno) as Hscan.
    destruct (getParameterIndex_fresh m id Hr Hscan Hfresh) as [Hslot Hget].
    fold k in Hslot, Hget.
    eexists. split; [exact Hget |]. split; [done |]. split; [done |].
    split; [by apply map_size_insert_None |]. split; [done |].
    intros calls m2 Hafter.
    apply extends_after in Hafter as (Hids & _ & Hcount & _ & Hsub & _).
    split; [| done].
    apply getParameterIndex_registered.
    + rewrite Hids, Hcount. exact Hscan.
    + eapply lookup_weaken; [| exact Hsub]. cbn. apply lookup_insert_eq.
  - intros Hno Hfresh k.
    pose proof (scan_partIds_unknown m id Hr Hno) as Hscan.
    destruct (getPartIndex_fresh m id Hr Hscan Hfresh) as [Hslot Hget].
    fold k in Hslot, Hget.
    eexists. split; [exact Hget |]. split; [done |]. split; [done |].
    split; [by apply map_size_insert_None |]. split; [done |].
    intros calls m2 Hafter.
    apply extends_after in Hafter as (_ & Hids & _ & Hcount & _ & Hsub).
    split; [| done].
    apply getPartIndex_registered.
    + rewrite Hids, Hcount. exact Hscan.
    + eapply lookup_weaken; [| exact Hsub]. cbn. apply lookup_insert_eq.
Qed.

(** On the sample asset: two unknown parameter names take the indices [2]
    and [3]; a value is written to the first; the first name still resolves
    to [2] and the count is still [2]. *)
Lemma absent_identifier_index_witness :
  ∃ m1 m2,
    getParameterIndex "Nope" (initial sample) = Some (2, m1)
    ∧ after [GetParameterIndex "Other"; SetParameterValueById "Nope" 7 1] m1
      = Some m2
    ∧ getParameterIndex "Nope" m2 = Some (2, m2)
    ∧ getParameterCount m2 = 2.
Proof.
  destruct (absent_identifier_index (initial sample) "Nope") as [Hparameters _];
    [apply reachable_initial, sample_ok |].
  destruct Hparameters as (m1 & Hget & _ & _ & _ & _ & Hlater);
    [vm_compute; set_solver | reflexivity |].
  destruct (after [GetParameterIndex "Other"; SetParameterValueById "Nope" 7 1] m1)
    as [m2 |] eqn:Hafter.
  - destruct (Hlater _ m2 Hafter) as [Hsame Hcount].
    exists m1, m2. split; [exact Hget |]. split; [done |]. split; [exact Hsame |].
    exact Hcount.
  - exfalso. vm_compute in Hget. injection Hget as <-.
    vm_compute in Hafter. discriminate.
Defined.

(** ** Part opacities *)

Lemma getPartIndex_real (m : CubismModel) (id : CubismIdHandle) (k : Z) :
  scan (_partIds m) id 0 (Z.to_nat (getPartCount m)) = Some k →
  getPartIndex id m = Some (k, m).
Proof.
  intros Hscan. unfold getPartIndex. unfold getPartCount in Hscan.
  by rewrite Hscan.
Qed.

Lemma partOpacities_bound (m : CubismModel) :
  _partOpacities m = aliased →
  partOpacities m = Some (Parts.opacities (Model.parts (_model m))).
Proof. intros Hv. unfold partOpacities. by rewrite Hv. Qed.

Lemma setPartOpacityByIndex_real (m : CubismModel) (k : Z) (o : number)
  (arr : Float32Array.t) :
  _notExistPartOpacities m !! k = None →
  0 ≤ k < getPartCount m →
  partOpacities m = Some arr →
  setPartOpacityByIndex k o m
  = Some (with_partOpacities (Float32Array.set arr k o) m).
Proof.
  intros Hslot Hk Harr. unfold setPartOpacityByIndex, store_partOpacity.
  rewrite (proj2 (isExist_false _ _) Hslot).
  rewrite (proj2 (in_range_true _ _) Hk). simpl. by rewrite Harr.
Qed.

Lemma setPartOpacityByIndex_absent (m : CubismModel) (k : Z) (o : number) :
  is_Some (_notExistPartOpacities m !! k) →
  setPartOpacityByIndex k o m
  = Some (set__notExistPartOpacities (<[k := o]> (_notExistPartOpacities m)) m).
Proof.
  intros Hslot. unfold setPartOpacityByIndex.
  by rewrite (proj2 (isExist_true _ _) Hslot).
Qed.

Lemma getPartOpacityByIndex_real (m : CubismModel) (k : Z) (arr : Float32Array.t) :
  _notExistPartOpacities m !! k = None →
  0 ≤ k < getPartCount m →
  partOpacities m = Some arr →
  getPartOpacityByIndex k m = Float32Array.get arr k.
Proof.
  intros Hslot Hk Harr. unfold getPartOpacityByIndex.
  rewrite (proj2 (isExist_false _ _) Hslot).
  rewrite (proj2 (in_range_true _ _) Hk). simpl. by rewrite Harr.
Qed.

Lemma getPartOpacityByIndex_absent (m : CubismModel) (k : Z) (x : number) :
  _notExistPartOpacities m !! k = Some x →
  getPartOpacityByIndex k m = Some x.
Proof.
  intros Hslot. unfold getPartOpacityByIndex.
  rewrite (proj2 (isExist_true _ _)) by eauto. done.
Qed.

(** Every part lookup has a result: the first index of the identifier in
    the asset, or the synthetic index of its overflow entry, which has a
    slot.  The index is never negative. *)
Lemma getPartIndex_cases (m : CubismModel) (id : CubismIdHandle) :
  Inv m →
  ∃ k m1,
    getPartIndex id m = Some (k, m1) ∧ Inv m1 ∧ extends m m1
    ∧ ((id ∈ Parts.ids (Model.parts (_model m))
        ∧ scan (_partIds m) id 0 (Z.to_nat (getPartCount m)) = Some k
        ∧ 0 ≤ k < getPartCount m ∧ m1 = m)
       ∨ ((id ∉ Parts.ids (Model.parts (_model m)))
          ∧ scan (_partIds m) id 0 (Z.to_nat (getPartCount m)) = None
          ∧ getPartCount m ≤ k
          ∧ _notExistPartId m1 !! id = Some k
          ∧ is_Some (_notExistPartOpacities m1 !! k))).
Proof.
  intros HI.
  pose proof (inv_snapshot m HI) as (_ & Hqc & _ & _ & _ & _ & _ & _ & Hlen & _).
  destruct (scan (_partIds m) id 0 (Z.to_nat (getPartCount m))) as [k |] eqn:Hscan.
  - exists k, m. split; [by apply getPartIndex_real |]. split; [done |].
    split; [apply extends_refl |]. left.
    pose proof Hscan as Hs. apply scan_Some in Hs as (Hk & Hid & _).
    rewrite (inv_partIds m HI) in Hid.
    split; [| split; [done | split; [unfold getPartCount in *; lia | done]]].
    apply index_Some in Hid as [_ Hid]. by eapply list_elem_of_lookup_2.
  - assert (id ∉ Parts.ids (Model.parts (_model m))) as Hno.
    { rewrite (inv_partIds m HI) in Hscan.
      by apply (scan_unknown _ id _ Hlen). }
    destruct (_notExistPartId m !! id) as [k |] eqn:Hreg.
    + exists k, m. split; [by apply getPartIndex_registered |]. split; [done |].
      split; [apply extends_refl |]. right.
      destruct (inv_parts_overflow m HI) as [Hslots Hids].
      pose proof (Hids id k Hreg) as Hk.
      split; [done |]. split; [done |]. split; [lia |]. split; [done |].
      by apply Hslots.
    + destruct (getPartIndex_fresh m id HI Hscan Hreg) as [Hslot Hget].
      eexists _, _. split; [exact Hget |].
      split; [by eapply Inv_getPartIndex |].
      split; [by eapply extends_getPartIndex |]. right.
      split; [done |]. split; [done |]. split; [lia |].
      cbn. rewrite !lookup_insert_eq. eauto.
Qed.

(** C10 (as stated, refuted): the part [Body] of the sample asset is given
    the opacity [0.1]; reading it back returns [0.10000000149011612], the
    single precision value that the opacity array keeps, and not [0.1]. *)
Lemma part_opacity_is_rounded :
  ∃ m1,
    setPartOpacityById "Body" 0.1 (initial sample) = Some m1
    ∧ getPartOpacityById "Body" m1 = Some (0.10000000149011612%float, m1)
    ∧ PrimFloat.eqb 0.10000000149011612 0.1 = false.
Proof. eexists. repeat split; reflexivity. Qed.

(** C10 (amended): [getPartIndex] never returns a negative index (an unknown
    part identifier is given a synthetic index), so the [index < 0] branches
    of [setPartOpacityById] and [getPartOpacityById] are never taken.  For
    every part identifier, [setPartOpacityById(id, o)] followed by
    [getPartOpacityById(id)] returns [o] itself when the asset does not have
    the identifier, and the single precision rounding of [o] when it has:
    the opacities of the asset's parts live in a [Float32Array].  So the
    call returns [o] whenever [o] is a single precision value. *)
Theorem part_opacity_round_trip (m : CubismModel) (id : CubismIdHandle)
  (o : number) :
  reachable m →
  (∃ k m1, getPartIndex id m = Some (k, m1) ∧ 0 ≤ k)
  ∧ ∃ m1,
      setPartOpacityById id o m = Some m1
      ∧ getPartOpacityById id m1
        = Some (if decide (id ∈ Parts.ids (Model.parts (_model m)))
                then fround o else o, m1).
Proof.
  intros Hr. apply reachable_Inv in Hr.
  pose proof (inv_snapshot m Hr) as (_ & Hqc & _ & _ & _ & _ & _ & _ & _ & Hlen & _).
  destruct (getPartIndex_cases m id Hr) as (k & m1 & Hget & HI1 & Hext & Hcases).
  assert (0 ≤ k) as Hk by (unfold getPartCount in *; destruct Hcases; lia).
  split; [by exists k, m1 |].
  unfold setPartOpacityById, getPartOpacityById. rewrite Hget. simpl.
  rewrite decide_False by lia.
  destruct Hcases as [(Hin & Hscan & Hkr & ->) | (Hno & Hscan & Hkr & Hreg & Hslot)].
  - rewrite decide_True by done.
    pose proof (partOpacities_bound m (inv_partOpacities m Hr)) as Harr.
    assert (_notExistPartOpacities m !! k = None) as Hnoslot.
    { apply isExist_false. apply real_part_not_overflow; [done | lia]. }
    rewrite (setPartOpacityByIndex_real m k o _ Hnoslot Hkr Harr).
    eexists. split; [done |].
    rewrite (getPartIndex_real _ id k) by exact Hscan.
    cbn -[getPartOpacityByIndex]. rewrite decide_False by lia.
    erewrite getPartOpacityByIndex_real;
      [| exact Hnoslot | exact Hkr
       | apply partOpacities_bound; exact (inv_partOpacities m Hr) ].
    cbn. rewrite array_get_set_eq; [done |]. unfold getPartCount in Hkr. lia.
  - rewrite decide_False by done.
    rewrite (setPartOpacityByIndex_absent m1 k o Hslot).
    eexists. split; [done |].
    destruct Hext as (_ & Hids & _ & Hcount & _).
    rewrite (getPartIndex_registered _ id k).
    + cbn -[getPartOpacityByIndex]. rewrite decide_False by lia.
      erewrite getPartOpacityByIndex_absent; [done |].
      cbn. apply lookup_insert_eq.
    + change (scan (_partIds m1) id 0 (Z.to_nat (getPartCount m1)) = None).
      rewrite Hids, Hcount. exact Hscan.
    + exact Hreg.
Qed.

Lemma part_opacity_round_trip_witness :
  ∃ m1 m2,
    setPartOpacityById "Tail" 0.1 (initial sample) = Some m1
    ∧ getPartOpacityById "Tail" m1 = Some (0.1%float, m1)
    ∧ setPartOpacityById "Body" 0.5 m1 = Some m2
    ∧ getPartOpacityById "Body" m2 = Some (0.5%float, m2).
Proof.
  assert (reachable (initial sample)) as Hr by apply reachable_initial, sample_ok.
  destruct (part_opacity_round_trip (initial sample) "Tail" 0.1 Hr)
    as (_ & m1 & Hset1 & Hget1).
  assert (reachable m1) as Hr1.
  { by apply reachable_run
      with (c := SetPartOpacityById "Tail" 0.1) (m := initial sample). }
  destruct (part_opacity_round_trip m1 "Body" 0.5 Hr1) as (_ & m2 & Hset2 & Hget2).
  exists m1, m2. split; [done |]. split.
  - rewrite Hget1. rewrite decide_False; [done |]. vm_compute. set_solver.
  - split; [done |]. rewrite Hget2. rewrite decide_True.
    + reflexivity.
    + vm_compute in Hset1. injection Hset1 as <-. vm_compute. set_solver.
Defined.

(** ** Parameter values *)

Lemma parameterValues_bound (m : CubismModel) :
  _parameterValues m = aliased →
  parameterValues m = Some (Parameters.values (Model.parameters (_model m))).
Proof. intros Hv. unfold parameterValues. by rewrite Hv. Qed.

Lemma getParameterValueByIndex_real (m : CubismModel) (i : Z)
  (arr : Float32Array.t) :
  _notExistParameterValues m !! i = None →
  0 ≤ i < getParameterCount m →
  parameterValues m = Some arr →
  getParameterValueByIndex i m = Float32Array.get arr i.
Proof.
  intros Hslot Hi Harr. unfold getParameterValueByIndex.
  rewrite (proj2 (isExist_false _ _) Hslot).
  rewrite (proj2 (in_range_true _ _) Hi). simpl. by rewrite Harr.
Qed.

Lemma getParameterValueByIndex_absent (m : CubismModel) (i : Z) (x : number) :
  _notExistParameterValues m !! i = Some x →
  getParameterValueByIndex i m = Some x.
Proof.
  intros Hslot. unfold getParameterValueByIndex.
  rewrite (proj2 (isExist_true _ _)) by eauto. done.
Qed.

(** On a synthetic index a write with weight [1] overwrites the slot; no
    range policy and no rounding applies. *)
Lemma setParameterValueByIndex_absent (m : CubismModel) (i : Z) (v : number) :
  is_Some (_notExistParameterValues m !! i) →
  setParameterValueByIndex i v 1 m
  = Some (set__notExistParameterValues
            (<[i := v]> (_notExistParameterValues m)) m).
Proof.
  intros Hslot. unfold setParameterValueByIndex.
  by rewrite (proj2 (isExist_true _ _) Hslot).
Qed.

(** The policy and the range of a parameter of the asset can be read. *)
Lemma parameter_policy (m : CubismModel) (i : Z) :
  Inv m → 0 ≤ i < getParameterCount m →
  ∃ repeat minValue maxValue,
    isRepeat i m = Some repeat
    ∧ getParameterMinimumValue i m = Some minValue
    ∧ getParameterMaximumValue i m = Some maxValue.
Proof.
  intros HI Hi.
  pose proof (inv_snapshot m HI) as (_ & _ & _ & _ & Hmin & Hmax & _ & Hrep & _).
  pose proof Hi as Hi'. unfold getParameterCount in Hi'.
  destruct (proj2 (index_is_Some
              (Parameters.minimumValues (Model.parameters (_model m))) i))
    as [mn Hmn]; [lia |].
  destruct (proj2 (index_is_Some
              (Parameters.maximumValues (Model.parameters (_model m))) i))
    as [mx Hmx]; [lia |].
  destruct (proj2 (index_is_Some
              (Parameters.repeats (Model.parameters (_model m))) i))
    as [bit Hbit]; [lia |].
  destruct (proj2 (index_is_Some (_userParameterRepeatDataList m) i))
    as [d Hd]; [rewrite (inv_repeatData m HI); done |].
  assert (∃ repeat, isRepeat i m = Some repeat) as [repeat Hrepeat].
  { unfold isRepeat.
    rewrite real_parameter_not_overflow by (done || lia).
    rewrite (proj2 (in_range_true _ _) Hi). simpl.
    unfold csmVector.at_, getParameterRepeats. rewrite Hd, Hbit. simpl.
    repeat case_match; eauto. }
  by exists repeat, mn, mx.
Qed.

(** On an index of the asset a write with weight [1] stores the resolved
    value in the cell of the parameter. *)
Lemma setParameterValueByIndex_real (m : CubismModel) (i : Z) (v : number)
  (repeat : bool) (minValue maxValue : number) :
  Inv m → 0 ≤ i < getParameterCount m →
  isRepeat i m = Some repeat →
  getParameterMinimumValue i m = Some minValue →
  getParameterMaximumValue i m = Some maxValue →
  setParameterValueByIndex i v 1 m
  = Some (with_parameterValues
            (Float32Array.set (Parameters.values (Model.parameters (_model m))) i
               (resolved_value repeat minValue maxValue v)) m).
Proof.
  intros HI Hi Hrepeat Hmin Hmax.
  unfold setParameterValueByIndex.
  rewrite real_parameter_not_overflow by (done || lia).
  rewrite (proj2 (in_range_true _ _) Hi). simpl. rewrite Hrepeat. simpl.
  unfold getParameterRepeatValue, getParameterClampValue.
  rewrite real_parameter_not_overflow by (done || lia).
  rewrite (proj2 (in_range_true _ _) Hi). simpl. rewrite Hmin, Hmax. simpl.
  unfold store_parameterValue.
  rewrite (parameterValues_bound m (inv_parameterValues m HI)).
  by destruct repeat.
Qed.

(** The two steps of the wrap, case by case. *)
Lemma wrap_cases (minValue maxValue value : number) :
  let valueSize := (maxValue - minValue)%float in
  let wrapped := wrap_under minValue maxValue (wrap_over minValue maxValue value) in
  (PrimFloat.ltb maxValue value = true →
   let overValue := CubismMath.mod_ (value - maxValue)%float valueSize in
   (isNaN overValue = false →
    PrimFloat.ltb (minValue + overValue)%float minValue = false →
    wrapped = (minValue + overValue)%float)
   ∧ (isNaN overValue = true →
      PrimFloat.ltb maxValue minValue = false →
      wrapped = maxValue))
  ∧ (PrimFloat.ltb maxValue value = false →
     PrimFloat.ltb value minValue = true →
     let overValue := CubismMath.mod_ (minValue - value)%float valueSize in
     (isNaN overValue = false → wrapped = (maxValue - overValue)%float)
     ∧ (isNaN overValue = true → wrapped = minValue))
  ∧ (PrimFloat.ltb maxValue value = false →
     PrimFloat.ltb value minValue = false →
     wrapped = value).
Proof.
  unfold wrap_under, wrap_over. cbv zeta. split; [| split].
  - intros ->. split.
    + intros -> Hlt. simpl. by rewrite Hlt.
    + intros -> Hlt. simpl. by rewrite Hlt.
  - intros -> ->. split; by intros ->.
  - by intros -> ->.
Qed.

Lemma getParameterValueByIndex_outside (m : CubismModel) (i : Z) :
  _notExistParameterValues m !! i = None →
  ¬ (0 ≤ i < getParameterCount m) →
  getParameterValueByIndex i m = None.
Proof.
  intros Hslot Hi. unfold getParameterValueByIndex.
  rewrite (proj2 (isExist_false _ _) Hslot).
  destruct (in_range i (getParameterCount m)) eqn:Hr; [| done].
  by apply in_range_true in Hr.
Qed.

(** What a write to a parameter of the asset leaves behind. *)
Lemma getParameterValueByIndex_after_store (m : CubismModel) (i j : Z) (x : number) :
  Inv m → 0 ≤ i < getParameterCount m →
  getParameterValueByIndex j
    (with_parameterValues
       (Float32Array.set (Parameters.values (Model.parameters (_model m))) i x) m)
  = if decide (j = i) then Some (fround x) else getParameterValueByIndex j m.
Proof.
  intros HI Hi.
  pose proof (inv_snapshot m HI) as (_ & _ & _ & _ & _ & _ & Hlen & _).
  pose proof (inv_parameterValues m HI) as Hview.
  destruct (_notExistParameterValues m !! j) as [y |] eqn:Hslot.
  - rewrite decide_False.
    + rewrite (getParameterValueByIndex_absent m j y Hslot).
      by apply getParameterValueByIndex_absent.
    + intros ->.
      pose proof (real_parameter_not_overflow m i HI (proj2 Hi)) as Hreal.
      apply isExist_false in Hreal. congruence.
  - destruct (decide (0 ≤ j < getParameterCount m)) as [Hj | Hj].
    + erewrite getParameterValueByIndex_real;
        [| exact Hslot | exact Hj | apply parameterValues_bound; exact Hview].
      rewrite (getParameterValueByIndex_real m j _ Hslot Hj
                 (parameterValues_bound m Hview)).
      cbn. case_decide as Heq.
      * subst j. apply array_get_set_eq. unfold getParameterCount in Hi. lia.
      * by apply array_get_set_ne.
    + rewrite decide_False by (intros ->; done).
      rewrite (getParameterValueByIndex_outside m j Hslot Hj).
      by apply getParameterValueByIndex_outside.
Qed.

(** C4 (as stated, refuted): on the sample asset the parameter [Turn] has
    the range [0, 10].  Under clamp policy the value [0.1] is stored as
    [0.10000000149011612], which is not the clamped value [0.1]; under
    repeat policy [13.1] is stored as [3.0999999046325684], which is not
    [min + ((v - max) mod span) = 3.0999999999999996]. *)
Lemma stored_value_is_rounded :
  (∃ m1,
      isRepeat 1 (initial sample) = Some false
      ∧ setParameterValueByIndex 1 0.1 1 (initial sample) = Some m1
      ∧ getParameterValueByIndex 1 m1 = Some 0.10000000149011612%float
      ∧ CubismMath.clamp 0.1 0 10 = 0.1%float
      ∧ PrimFloat.eqb 0.10000000149011612 0.1 = false)
  ∧ (∃ m1,
        isRepeat 1 (setOverrideFlagForModelParameterRepeat false (initial sample))
        = Some true
        ∧ setParameterValueByIndex 1 13.1 1
            (setOverrideFlagForModelParameterRepeat false (initial sample))
          = Some m1
        ∧ getParameterValueByIndex 1 m1 = Some 3.0999999046325684%float
        ∧ (0 + CubismMath.mod_ (13.1 - 10) (10 - 0))%float
          = 3.0999999999999996%float
        ∧ PrimFloat.eqb 3.0999999046325684 3.0999999999999996 = false).
Proof. split; eexists; repeat split; reflexivity. Qed.

(** C4 (amended): for every parameter index [i] of the asset, with minimum
    [min], maximum [max] and [span = max - min], and every value [v],
    [setParameterValueByIndex(i, v, 1.0)] stores in the cell of the
    parameter the single precision rounding (the values live in a
    [Float32Array]) of the resolved value, and changes no other parameter
    value.  Under repeat policy the resolved value is
    [min + ((v - max) mod span)] when [v > max], provided this sum is not
    below [min] (the code tests the lower bound again on the wrapped value);
    it is [max - ((min - v) mod span)] when [v < min] and [v] is not above
    [max]; the exceeded bound ([max], when it is not below [min];
    respectively [min]) takes the place of the wrapped value when the
    modulo result is NaN; a value within the range is kept.  When repeat
    policy does not apply the resolved value is the clamped value. *)
Theorem set_parameter_value_resolution (m : CubismModel) (i : Z) (v : number) :
  reachable m →
  0 ≤ i < getParameterCount m →
  ∃ repeat minValue maxValue m',
    isRepeat i m = Some repeat
    ∧ getParameterMinimumValue i m = Some minValue
    ∧ getParameterMaximumValue i m = Some maxValue
    ∧ setParameterValueByIndex i v 1 m = Some m'
    ∧ getParameterValueByIndex i m'
      = Some (fround (resolved_value repeat minValue maxValue v))
    ∧ (∀ j, j ≠ i → getParameterValueByIndex j m' = getParameterValueByIndex j m)
    ∧ resolved_value false minValue maxValue v = CubismMath.clamp v minValue maxValue
    ∧ let valueSize := (maxValue - minValue)%float in
      let wrapped := resolved_value true minValue maxValue v in
      (PrimFloat.ltb maxValue v = true →
       let overValue := CubismMath.mod_ (v - maxValue)%float valueSize in
       (isNaN overValue = false →
        PrimFloat.ltb (minValue + overValue)%float minValue = false →
        wrapped = (minValue + overValue)%float)
       ∧ (isNaN overValue = true →
          PrimFloat.ltb maxValue minValue = false →
          wrapped = maxValue))
      ∧ (PrimFloat.ltb maxValue v = false →
         PrimFloat.ltb v minValue = true →
         let overValue := CubismMath.mod_ (minValue - v)%float valueSize in
         (isNaN overValue = false → wrapped = (maxValue - overValue)%float)
         ∧ (isNaN overValue = true → wrapped = minValue))
      ∧ (PrimFloat.ltb maxValue v = false →
         PrimFloat.ltb v minValue = false →
         wrapped = v).
Proof.
  intros Hr Hi. apply reachable_Inv in Hr.
  destruct (parameter_policy m i Hr Hi) as (repeat & mn & mx & Hrep & Hmn & Hmx).
  exists repeat, mn, mx. eexists.
  split; [done |]. split; [done |]. split; [done |].
  split; [by apply setParameterValueByIndex_real |].
  split; [| split; [| split; [done |]]].
  - rewrite getParameterValueByIndex_after_store by done.
    by rewrite decide_True.
  - intros j Hj. rewrite getParameterValueByIndex_after_store by done.
    by rewrite decide_False.
  - apply wrap_cases.
Qed.

(** With [min = 0] and [max = 10], setting [13] with weight [1.0] yields [3]
    under repeat policy and [10] under clamp policy; and the end-to-end
    example of the parameter [Angle], range [-30, 30]: [45] is clamped to
    [30], and wrapped to [-15] once its repeat override is set. *)
Lemma set_parameter_value_resolution_witness :
  (∃ m', setParameterValueByIndex 1 13 1
           (setOverrideFlagForModelParameterRepeat false (initial sample)) = Some m'
         ∧ getParameterValueByIndex 1 m' = Some 3%float)
  ∧ (∃ m', setParameterValueByIndex 1 13 1 (initial sample) = Some m'
           ∧ getParameterValueByIndex 1 m' = Some 10%float)
  ∧ (∃ m', setParameterValueByIndex 0 45 1 (initial sample) = Some m'
           ∧ getParameterValueByIndex 0 m' = Some 30%float)
  ∧ (∃ m1 m',
        after [SetOverrideFlagForParameterRepeat 0 true;
               SetRepeatFlagForParameterRepeat 0 true] (initial sample) = Some m1
        ∧ setParameterValueByIndex 0 45 1 m1 = Some m'
        ∧ getParameterValueByIndex 0 m' = Some (-15)%float).
Proof.
  assert (reachable (initial sample)) as Hr by apply reachable_initial, sample_ok.
  assert (reachable (setOverrideFlagForModelParameterRepeat false (initial sample)))
    as Hr1.
  { by apply reachable_run
      with (c := SetOverrideFlagForModelParameterRepeat false) (m := initial sample). }
  split; [| split; [| split]].
  - destruct (set_parameter_value_resolution _ 1 13 Hr1)
      as (rp & mn & mx & m' & Hrp & Hmn & Hmx & Hset & Hget & _);
      [vm_compute; done |].
    exists m'. split; [exact Hset |]. rewrite Hget.
    vm_compute in Hrp, Hmn, Hmx. simplify_eq. vm_compute. reflexivity.
  - destruct (set_parameter_value_resolution _ 1 13 Hr)
      as (rp & mn & mx & m' & Hrp & Hmn & Hmx & Hset & Hget & _);
      [vm_compute; done |].
    exists m'. split; [exact Hset |]. rewrite Hget.
    vm_compute in Hrp, Hmn, Hmx. simplify_eq. vm_compute. reflexivity.
  - destruct (set_parameter_value_resolution _ 0 45 Hr)
      as (rp & mn & mx & m' & Hrp & Hmn & Hmx & Hset & Hget & _);
      [vm_compute; done |].
    exists m'. split; [exact Hset |]. rewrite Hget.
    vm_compute in Hrp, Hmn, Hmx. simplify_eq. vm_compute. reflexivity.
  - destruct (after [SetOverrideFlagForParameterRepeat 0 true;
                     SetRepeatFlagForParameterRepeat 0 true] (initial sample))
      as [m1 |] eqn:Hm1; [| vm_compute in Hm1; discriminate].
    assert (reachable m1) as Hr2.
    { eapply reachable_after; [exact Hr | exact Hm1]. }
    destruct (set_parameter_value_resolution m1 0 45 Hr2)
      as (rp & mn & mx & m' & Hrp & Hmn & Hmx & Hset & Hget & _).
    { vm_compute in Hm1. injection Hm1 as <-. vm_compute. done. }
    exists m1, m'. split; [done |]. split; [exact Hset |]. rewrite Hget.
    vm_compute in Hm1. injection Hm1 as <-.
    vm_compute in Hrp, Hmn, Hmx. simplify_eq. vm_compute. reflexivity.
Defined.

(** C8: for every parameter index [i], value [v] and weight [w],
    [addParameterValueByIndex(i, v, w)] produces the state of
    [setParameterValueByIndex(i, getParameterValueByIndex(i) + v*w)], and
    [multiplyParameterValueByIndex(i, v, w)] the state of
    [setParameterValueByIndex(i, getParameterValueByIndex(i) * (1 + (v-1)*w))]
    (both with the default weight [1]; neither has a result when the read
    has none).  They inherit the handling of [setParameterValueByIndex]: on
    a synthetic index the slot receives the new number as it is; on an index
    of the asset the cell receives the repeat/clamp resolution of the new
    number. *)
Theorem add_and_multiply_are_set (m : CubismModel) (i : Z) (v w : number) :
  addParameterValueByIndex i v w m
  = (x ← getParameterValueByIndex i m;
     setParameterValueByIndex i (x + v * w)%float 1 m)
  ∧ multiplyParameterValueByIndex i v w m
    = (x ← getParameterValueByIndex i m;
       setParameterValueByIndex i (x * (1 + (v - 1) * w))%float 1 m)
  ∧ (reachable m →
     (∀ x, _notExistParameterValues m !! i = Some x →
           addParameterValueByIndex i v w m
           = Some (set__notExistParameterValues
                     (<[i := (x + v * w)%float]> (_notExistParameterValues m)) m)
           ∧ multiplyParameterValueByIndex i v w m
             = Some (set__notExistParameterValues
                       (<[i := (x * (1 + (v - 1) * w))%float]>
                          (_notExistParameterValues m)) m))
     ∧ (0 ≤ i < getParameterCount m →
        ∃ x repeat minValue maxValue,
          getParameterValueByIndex i m = Some x
          ∧ isRepeat i m = Some repeat
          ∧ getParameterMinimumValue i m = Some minValue
          ∧ getParameterMaximumValue i m = Some maxValue
          ∧ addParameterValueByIndex i v w m
            = Some (with_parameterValues
                      (Float32Array.set
                         (Parameters.values (Model.parameters (_model m))) i
                         (resolved_value repeat minValue maxValue (x + v * w)%float))
                      m)
          ∧ multiplyParameterValueByIndex i v w m
            = Some (with_parameterValues
                      (Float32Array.set
                         (Parameters.values (Model.parameters (_model m))) i
                         (resolved_value repeat minValue maxValue
                            (x * (1 + (v - 1) * w))%float))
                      m))).
Proof.
  split; [reflexivity |]. split; [reflexivity |].
  intros Hr. apply reachable_Inv in Hr. split.
  - intros x Hx. unfold addParameterValueByIndex, multiplyParameterValueByIndex.
    rewrite (getParameterValueByIndex_absent m i x Hx). simpl.
    rewrite !setParameterValueByIndex_absent by eauto. done.
  - intros Hi.
    pose proof (inv_snapshot m Hr) as (_ & _ & _ & _ & _ & _ & Hlen & _).
    destruct (parameter_policy m i Hr Hi) as (repeat & mn & mx & Hrep & Hmn & Hmx).
    destruct (proj2 (index_is_Some
                (Parameters.values (Model.parameters (_model m))) i))
      as [x Hx]; [unfold getParameterCount in Hi; lia |].
    assert (getParameterValueByIndex i m = Some x) as Hget.
    { erewrite getParameterValueByIndex_real;
        [exact Hx | | exact Hi
         | apply parameterValues_bound; exact (inv_parameterValues m Hr)].
      apply isExist_false. apply real_parameter_not_overflow; [done | lia]. }
    exists x, repeat, mn, mx.
    split; [done |]. split; [done |]. split; [done |]. split; [done |].
    unfold addParameterValueByIndex, multiplyParameterValueByIndex.
    rewrite Hget. simpl.
    rewrite !(setParameterValueByIndex_real m i _ repeat mn mx) by done. done.
Qed.

(** On the sample asset: [Angle] stands at [20]; adding [30] with weight
    [0.5] gives [35], which the clamp brings to [30]; an unknown parameter
    given [7] and multiplied by [3] with weight [1] holds [21]. *)
Lemma add_and_multiply_are_set_witness :
  ∃ m0 m1 m2 m3,
    after [SetParameterValueByIndex 0 20 1; GetParameterIndex "Nope";
           SetParameterValueByIndex 2 7 1] (initial sample) = Some m0
    ∧ addParameterValueByIndex 0 30 0.5 m0 = Some m1
    ∧ setParameterValueByIndex 0 35 1 m0 = Some m2
    ∧ m1 = m2
    ∧ getParameterValueByIndex 0 m1 = Some 30%float
    ∧ multiplyParameterValueByIndex 2 3 1 m0 = Some m3
    ∧ getParameterValueByIndex 2 m3 = Some 21%float.
Proof.
  destruct (after [SetParameterValueByIndex 0 20 1; GetParameterIndex "Nope";
                   SetParameterValueByIndex 2 7 1] (initial sample))
    as [m0 |] eqn:Hm0; [| vm_compute in Hm0; discriminate].
  destruct (add_and_multiply_are_set m0 0 30 0.5) as (Hadd & _ & _).
  destruct (add_and_multiply_are_set m0 2 3 1) as (_ & Hmul & _).
  vm_compute in Hm0. injection Hm0 as <-.
  eexists _, _, _, _. split; [reflexivity |].
  split; [rewrite Hadd; vm_compute; reflexivity |].
  split; [vm_compute; reflexivity |].
  split; [reflexivity |].
  split; [vm_compute; reflexivity |].
  split; [rewrite Hmul; vm_compute; reflexivity |].
  vm_compute. reflexivity.
Defined.

(** ** What the calls leave alone *)

(** A relation between the state before and after that every elementary
    write of the class respects holds across every call. *)
Section frame.
Variable R : CubismModel → CubismModel → Prop.
Hypothesis R_refl : ∀ m, R m m.
Hypothesis R_trans : ∀ m1 m2 m3, R m1 m2 → R m2 m3 → R m1 m3.
Hypothesis R_savedParameters : ∀ v m, R m (set__savedParameters v m).
Hypothesis R_userMultiplyColors : ∀ v m, R m (set__userMultiplyColors v m).
Hypothesis R_userScreenColors : ∀ v m, R m (set__userScreenColors v m).
Hypothesis R_userPartMultiplyColors : ∀ v m, R m (set__userPartMultiplyColors v m).
Hypothesis R_userPartScreenColors : ∀ v m, R m (set__userPartScreenColors v m).
Hypothesis R_userParameterRepeatDataList :
  ∀ v m, R m (set__userParameterRepeatDataList v m).
Hypothesis R_objects : ∀ v m, R m (set__objects v m).
Hypothesis R_isOverriddenParameterRepeat :
  ∀ v m, R m (set__isOverriddenParameterRepeat v m).
Hypothesis R_isOverriddenModelMultiplyColors :
  ∀ v m, R m (set__isOverriddenModelMultiplyColors v m).
Hypothesis R_isOverriddenModelScreenColors :
  ∀ v m, R m (set__isOverriddenModelScreenColors v m).
Hypothesis R_isOverriddenCullings : ∀ v m, R m (set__isOverriddenCullings v m).
Hypothesis R_modelOpacity : ∀ v m, R m (set__modelOpacity v m).
Hypothesis R_store_parameterValue :
  ∀ i x m m', store_parameterValue i x m = Some m' → R m m'.
Hypothesis R_store_partOpacity :
  ∀ i x m m', store_partOpacity i x m = Some m' → R m m'.
Hypothesis R_notExistParameterValues :
  ∀ k x m, is_Some (_notExistParameterValues m !! k) →
           R m (set__notExistParameterValues
                  (csmMap.setValue (_notExistParameterValues m) k x) m).
Hypothesis R_notExistPartOpacities :
  ∀ k x m, is_Some (_notExistPartOpacities m !! k) →
           R m (set__notExistPartOpacities
                  (csmMap.setValue (_notExistPartOpacities m) k x) m).
Hypothesis R_getParameterIndex :
  ∀ id k m m', getParameterIndex id m = Some (k, m') → R m m'.
Hypothesis R_getPartIndex :
  ∀ id k m m', getPartIndex id m = Some (k, m') → R m m'.

Lemma frame_setParameterValueByIndex (i : Z) (v w : number) (m m' : CubismModel) :
  setParameterValueByIndex i v w m = Some m' → R m m'.
Proof.
  unfold setParameterValueByIndex. intros Hs.
  destruct (csmMap.isExist (_notExistParameterValues m) i) eqn:Hex.
  - apply isExist_true in Hex.
    match type of Hs with (?e ≫= _) = _ => destruct e as [x |] end;
      simplify_eq/=. by apply R_notExistParameterValues.
  - destruct (CSM_ASSERT _); simpl in Hs; [| done].
    destruct (isRepeat i m) as [rp |]; simpl in Hs; [| done].
    match type of Hs with (?e ≫= _) = _ => destruct e as [x |] end;
      simpl in Hs; [| done].
    destruct (PrimFloat.eqb w 1).
    + by eapply R_store_parameterValue.
    + destruct (parameterValues m) as [arr |]; simpl in Hs; [| done].
      destruct (Float32Array.get arr i) as [old |]; simpl in Hs; [| done].
      match type of Hs with (?e ≫= _) = _ => destruct e as [m1 |] eqn:H1 end;
        simpl in Hs; [| done].
      eapply R_trans; by eapply R_store_parameterValue.
Qed.

Lemma frame_setPartOpacityByIndex (p : Z) (o : number) (m m' : CubismModel) :
  setPartOpacityByIndex p o m = Some m' → R m m'.
Proof.
  unfold setPartOpacityByIndex. intros Hs.
  destruct (csmMap.isExist (_notExistPartOpacities m) p) eqn:Hex.
  - apply isExist_true in Hex. simplify_eq. by apply R_notExistPartOpacities.
  - destruct (CSM_ASSERT _); simpl in Hs; [| done].
    by eapply R_store_partOpacity.
Qed.

Lemma frame_loadParameters (m m' : CubismModel) :
  loadParameters m = Some m' → R m m'.
Proof.
  unfold loadParameters, for_. intros Hr.
  apply (for_loop_invariant (λ _ t, R m t)) in Hr; [done | apply R_refl |].
  intros j t t' _ Ht Hb.
  destruct (csmVector.at_ (_savedParameters t) j) as [x |]; simpl in Hb; [| done].
  eapply R_trans; [exact Ht |]. by eapply R_store_parameterValue.
Qed.

Lemma frame_saveParameters (m m' : CubismModel) :
  saveParameters m = Some m' → R m m'.
Proof.
  unfold saveParameters, for_. intros Hr.
  apply (for_loop_invariant (λ _ t, R m t)) in Hr; [done | apply R_refl |].
  intros j t t' _ Ht Hb.
  destruct (parameterValues t) as [arr |]; simpl in Hb; [| done].
  destruct (Float32Array.get arr j) as [x |]; simpl in Hb; [| done].
  eapply R_trans; [exact Ht |].
  case_decide; simplify_eq; apply R_savedParameters.
Qed.

(** The calls that write the override state. *)
Lemma frame_override_call (c : Call) (m m' : CubismModel) :
  override_call c = true → run c m = Some m' → R m m'.
Proof.
  destruct c; simpl; try done; intros _ Hr.
  - unfold setMultiplyColorByRGBA in Hr.
    destruct (write_drawable_color _ _ _); simplify_eq/=.
    apply R_userMultiplyColors.
  - unfold setScreenColorByRGBA in Hr.
    destruct (write_drawable_color _ _ _); simplify_eq/=.
    apply R_userScreenColors.
  - unfold setPartMultiplyColorByRGBA in Hr.
    destruct (setPartColor _ _ _ _ _ _ _ _) as [[pc dc] |]; simplify_eq/=.
    eapply R_trans; [apply R_userMultiplyColors | apply R_userPartMultiplyColors].
  - unfold setPartScreenColorByRGBA in Hr.
    destruct (setPartColor _ _ _ _ _ _ _ _) as [[pc dc] |]; simplify_eq/=.
    eapply R_trans; [apply R_userScreenColors | apply R_userPartScreenColors].
  - simplify_eq. apply R_isOverriddenParameterRepeat.
  - unfold setOverrideFlagForParameterRepeat in Hr.
    destruct (csmVector.at_ _ _); simplify_eq/=.
    apply R_userParameterRepeatDataList.
  - unfold setRepeatFlagForParameterRepeat in Hr.
    destruct (csmVector.at_ _ _); simplify_eq/=.
    apply R_userParameterRepeatDataList.
  - simplify_eq. apply R_isOverriddenModelMultiplyColors.
  - simplify_eq. apply R_isOverriddenModelScreenColors.
  - unfold setOverrideFlagForDrawableMultiplyColors in Hr.
    destruct (csmVector.at_ _ _); simplify_eq/=. apply R_userMultiplyColors.
  - unfold setOverrideFlagForDrawableScreenColors in Hr.
    destruct (csmVector.at_ _ _); simplify_eq/=. apply R_userScreenColors.
  - unfold setOverrideColorForPartMultiplyColors in Hr.
    destruct (csmVector.at_ _ _); simpl in Hr; [| done].
    destruct (setOverrideColorForPartColors _ _ _ _ _) as [[pc dc] |];
      simplify_eq/=.
    eapply R_trans; [apply R_userPartMultiplyColors |].
    eapply R_trans; [apply R_userMultiplyColors | apply R_userPartMultiplyColors].
  - unfold setOverrideColorForPartScreenColors in Hr.
    destruct (csmVector.at_ _ _); simpl in Hr; [| done].
    destruct (setOverrideColorForPartColors _ _ _ _ _) as [[pc dc] |];
      simplify_eq/=.
    eapply R_trans; [apply R_userPartScreenColors |].
    eapply R_trans; [apply R_userScreenColors | apply R_userPartScreenColors].
  - unfold setDrawableCulling in Hr.
    destruct (userCulling _ _) as [[l o] |]; simplify_eq/=. apply R_objects.
  - simplify_eq. apply R_isOverriddenCullings.
  - unfold setOverrideFlagForDrawableCullings in Hr.
    destruct (userCulling _ _) as [[l o] |]; simplify_eq/=. apply R_objects.
  - simplify_eq. apply R_modelOpacity.
  - unfold setMultiplyColorByTextureColor, setMultiplyColorByRGBA in Hr.
    destruct (write_drawable_color _ _ _); simplify_eq/=.
    apply R_userMultiplyColors.
  - unfold setScreenColorByTextureColor, setScreenColorByRGBA in Hr.
    destruct (write_drawable_color _ _ _); simplify_eq/=.
    apply R_userScreenColors.
  - unfold setPartMultiplyColorByTextureColor, setPartMultiplyColorByRGBA in Hr.
    destruct (setPartColor _ _ _ _ _ _ _ _) as [[pc dc] |]; simplify_eq/=.
    eapply R_trans; [apply R_userMultiplyColors | apply R_userPartMultiplyColors].
  - unfold setPartScreenColorByTextureColor, setPartScreenColorByRGBA in Hr.
    destruct (setPartColor _ _ _ _ _ _ _ _) as [[pc dc] |]; simplify_eq/=.
    eapply R_trans; [apply R_userScreenColors | apply R_userPartScreenColors].
Qed.

(** The calls on values, but [saveParameters]. *)
Lemma frame_value_call_but_save (c : Call) (m m' : CubismModel) :
  override_call c = false → c ≠ SaveParameters → run c m = Some m' → R m m'.
Proof.
  destruct c; simpl; try done; intros _ Hc Hr.
  - by apply frame_loadParameters.
  - destruct (getPartIndex _ _) as [[k m1] |] eqn:Hg; simplify_eq/=.
    by eapply R_getPartIndex.
  - by eapply frame_setPartOpacityByIndex.
  - unfold setPartOpacityById in Hr.
    destruct (getPartIndex _ _) as [[k m1] |] eqn:Hg; simpl in Hr; [| done].
    apply R_getPartIndex in Hg.
    case_decide; [by simplify_eq |].
    eapply R_trans; [exact Hg |]. by eapply frame_setPartOpacityByIndex.
  - unfold getPartOpacityById in Hr.
    destruct (getPartIndex _ _) as [[k m1] |] eqn:Hg; simpl in Hr; [| done].
    apply R_getPartIndex in Hg.
    case_decide; [by simplify_eq/= |].
    destruct (getPartOpacityByIndex k m1); by simplify_eq/=.
  - destruct (getParameterIndex _ _) as [[k m1] |] eqn:Hg; simplify_eq/=.
    by eapply R_getParameterIndex.
  - unfold getParameterValueById in Hr.
    destruct (getParameterIndex _ _) as [[k m1] |] eqn:Hg; simpl in Hr; [| done].
    apply R_getParameterIndex in Hg.
    destruct (getParameterValueByIndex k m1); by simplify_eq/=.
  - by eapply frame_setParameterValueByIndex.
  - unfold setParameterValueById in Hr.
    destruct (getParameterIndex _ _) as [[k m1] |] eqn:Hg; simpl in Hr; [| done].
    apply R_getParameterIndex in Hg.
    eapply R_trans; [exact Hg |]. by eapply frame_setParameterValueByIndex.
  - unfold addParameterValueByIndex in Hr.
    destruct (getParameterValueByIndex _ _); simpl in Hr; [| done].
    by eapply frame_setParameterValueByIndex.
  - unfold addParameterValueById, addParameterValueByIndex in Hr.
    destruct (getParameterIndex _ _) as [[k m1] |] eqn:Hg; simpl in Hr; [| done].
    apply R_getParameterIndex in Hg.
    destruct (getParameterValueByIndex _ _); simpl in Hr; [| done].
    eapply R_trans; [exact Hg |]. by eapply frame_setParameterValueByIndex.
  - unfold multiplyParameterValueByIndex in Hr.
    destruct (getParameterValueByIndex _ _); simpl in Hr; [| done].
    by eapply frame_setParameterValueByIndex.
  - unfold multiplyParameterValueById, multiplyParameterValueByIndex in Hr.
    destruct (getParameterIndex _ _) as [[k m1] |] eqn:Hg; simpl in Hr; [| done].
    apply R_getParameterIndex in Hg.
    destruct (getParameterValueByIndex _ _); simpl in Hr; [| done].
    eapply R_trans; [exact Hg |]. by eapply frame_setParameterValueByIndex.
Qed.

(** The calls on values. *)
Lemma frame_value_call (c : Call) (m m' : CubismModel) :
  override_call c = false → run c m = Some m' → R m m'.
Proof.
  intros Hc. destruct c;
    first [apply frame_saveParameters | by apply frame_value_call_but_save].
Qed.


Lemma frame_run (c : Call) (m m' : CubismModel) : run c m = Some m' → R m m'.
Proof.
  destruct (override_call c) eqn:Hc.
  - by apply frame_override_call.
  - by apply frame_value_call.
Qed.

End frame.

Lemma after_nil (m : CubismModel) : after [] m = Some m.
Proof. done. Qed.

Lemma foldl_run_None (calls : list Call) :
  foldl (λ state c, state ≫= run c) None calls = None.
Proof. induction calls as [| c calls IH]; [done | exact IH]. Qed.

Lemma after_cons (c : Call) (calls : list Call) (m : CubismModel) :
  after (c :: calls) m = run c m ≫= after calls.
Proof.
  unfold after. simpl. destruct (run c m) as [m1 |]; [done |].
  apply foldl_run_None.
Qed.

Lemma after_app (calls1 calls2 : list Call) (m : CubismModel) :
  after (calls1 ++ calls2) m = after calls1 m ≫= after calls2.
Proof.
  revert m. induction calls1 as [| c calls1 IH]; intros m; [done |].
  change ((c :: calls1) ++ calls2) with (c :: (calls1 ++ calls2)).
  rewrite !after_cons. destruct (run c m) as [m1 |]; [apply IH | done].
Qed.

(** A reflexive and transitive relation that every call of a list respects
    holds across the list. *)
Lemma after_ind (R : CubismModel → CubismModel → Prop) (P : Call → Prop) :
  (∀ m, R m m) →
  (∀ m1 m2 m3, R m1 m2 → R m2 m3 → R m1 m3) →
  (∀ c m m', P c → run c m = Some m' → R m m') →
  ∀ calls m m', Forall P calls → after calls m = Some m' → R m m'.
Proof.
  intros Hrefl Htrans Hrun calls.
  induction calls as [| c calls IH]; intros m m' HP Ha.
  - rewrite after_nil in Ha. simplify_eq. apply Hrefl.
  - rewrite after_cons in Ha. apply Forall_cons in HP as [Hc HP].
    destruct (run c m) as [m1 |] eqn:Hr; simpl in Ha; [| done].
    eapply Htrans; [by eapply Hrun | by apply IH].
Qed.

Lemma same_asset_refl (m : CubismModel) : same_asset m m.
Proof. by repeat split. Qed.

Lemma same_asset_trans (m1 m2 m3 : CubismModel) :
  same_asset m1 m2 → same_asset m2 m3 → same_asset m1 m3.
Proof.
  unfold same_asset. intros H12 H23.
  destruct_and!. repeat split; congruence.
Qed.

Lemma same_asset_run (c : Call) (m m' : CubismModel) :
  run c m = Some m' → same_asset m m'.
Proof.
  apply frame_run; clear c m m'.
  - apply same_asset_refl.
  - apply same_asset_trans.
  - by repeat split.
  - by repeat split.
  - by repeat split.
  - by repeat split.
  - by repeat split.
  - by repeat split.
  - by repeat split.
  - by repeat split.
  - by repeat split.
  - by repeat split.
  - by repeat split.
  - by repeat split.
  - intros i x m m'. unfold store_parameterValue. intros Hs.
    destruct (parameterValues m) as [arr |] eqn:Ha; simplify_eq/=.
    unfold parameterValues in Ha. destruct (_parameterValues m); simplify_eq.
    repeat split; try done. simpl. apply length_array_set.
  - intros i x m m'. unfold store_partOpacity. intros Hs.
    destruct (partOpacities m) as [arr |] eqn:Ha; simplify_eq/=.
    unfold partOpacities in Ha. destruct (_partOpacities m); simplify_eq.
    repeat split; try done. simpl. apply length_array_set.
  - by repeat split.
  - by repeat split.
  - intros id k m m'. unfold getParameterIndex. intros Hg.
    destruct (scan _ _ _ _); [simplify_eq; apply same_asset_refl |].
    destruct (csmMap.isExist (_notExistParameterId m) id).
    + destruct (csmMap.getValue _ _); simplify_eq/=. apply same_asset_refl.
    + simplify_eq. by repeat split.
  - intros id k m m'. unfold getPartIndex. intros Hg.
    destruct (scan _ _ _ _); [simplify_eq; apply same_asset_refl |].
    destruct (csmMap.isExist (_notExistPartId m) id).
    + destruct (csmMap.getValue _ _); simplify_eq/=. apply same_asset_refl.
    + simplify_eq. by repeat split.
Qed.

(** X1: no sequence of the calls of [Call] (the setters, the identifier
    lookups, [saveParameters] and [loadParameters]) changes what the asset
    defines: the counts, the identifier, range, default value and repeat bit
    of every parameter, the identifier and parent of every part, the
    identifier, parent part and asset colours of every drawable, the index of
    a drawable identifier and the lists of children of the parts.  [update],
    [release] and [initialize] are not calls of [Call]: [update] hands the
    arrays to the core, which writes the drawables' colours, so nothing is
    stated across it. *)
Theorem calls_keep_asset (calls : list Call) (m m' : CubismModel) :
  after calls m = Some m' →
  getParameterCount m' = getParameterCount m
  ∧ getPartCount m' = getPartCount m
  ∧ getDrawableCount m' = getDrawableCount m
  ∧ (∀ i, getParameterId i m' = getParameterId i m
          ∧ getParameterMinimumValue i m' = getParameterMinimumValue i m
          ∧ getParameterMaximumValue i m' = getParameterMaximumValue i m
          ∧ getParameterDefaultValue i m' = getParameterDefaultValue i m
          ∧ getParameterRepeats i m' = getParameterRepeats i m)
  ∧ (∀ p, getPartId p m' = getPartId p m)
  ∧ getPartParentPartIndices m' = getPartParentPartIndices m
  ∧ (∀ d, getDrawableId d m' = getDrawableId d m
          ∧ getDrawableParentPartIndex d m' = getDrawableParentPartIndex d m
          ∧ getDrawableMultiplyColor d m' = getDrawableMultiplyColor d m
          ∧ getDrawableScreenColor d m' = getDrawableScreenColor d m)
  ∧ (∀ id, getDrawableIndex id m' = getDrawableIndex id m)
  ∧ _partChildDrawables m' = _partChildDrawables m.
Proof.
  intros Ha.
  assert (same_asset m m') as Hs.
  { eapply (after_ind same_asset (λ _, True));
      [apply same_asset_refl | apply same_asset_trans | | | exact Ha].
    - intros c m1 m2 _. apply same_asset_run.
    - by apply Forall_true. }
  destruct Hs as (Hd & Hc & Hi & Hmin & Hmax & Hdef & Hrp & _ & Hpc & Hpi & Hpp & _
                  & _ & _ & Hdi & Hch & _).
  unfold getParameterCount, getPartCount, getDrawableCount, getParameterId,
    getParameterMinimumValue, getParameterMaximumValue, getParameterDefaultValue,
    getParameterRepeats, getPartId, getPartParentPartIndices, getDrawableId,
    getDrawableParentPartIndex, getDrawableMultiplyColor, getDrawableScreenColor,
    getDrawableIndex.
  rewrite Hd, Hc, Hi, Hmin, Hmax, Hdef, Hrp, Hpc, Hpi, Hpp, Hdi, Hch. done.
Qed.

Lemma calls_keep_asset_witness :
  ∃ m',
    after [SetParameterValueByIndex 0 20 1; GetParameterIndex "Nope";
           SetPartOpacityById "Body" 0.5; SetMultiplyColorByRGBA 0 1 0 0 1]
      (initial sample) = Some m'
    ∧ getParameterMaximumValue 0 m' = Some 30%float
    ∧ getDrawableMultiplyColor 0 m' = Some white.
Proof.
  destruct (after [SetParameterValueByIndex 0 20 1; GetParameterIndex "Nope";
                   SetPartOpacityById "Body" 0.5; SetMultiplyColorByRGBA 0 1 0 0 1]
              (initial sample)) as [m' |] eqn:Ha;
    [| vm_compute in Ha; discriminate].
  destruct (calls_keep_asset _ _ _ Ha) as (_ & _ & _ & Hp & _ & _ & Hd & _).
  exists m'. split; [reflexivity |].
  destruct (Hp 0) as (_ & _ & -> & _). destruct (Hd 0) as (_ & _ & -> & _).
  split; reflexivity.
Defined.

(** ** The registries of absent identifiers *)

Lemma registry_ok_allocate (count : Z) (ids : list CubismIdHandle)
  (absent : gmap CubismIdHandle Z) (slots : gmap Z number) (id : CubismIdHandle) :
  overflow_ok count absent slots →
  registry_ok ids absent →
  id ∉ ids →
  registry_ok ids (csmMap.setValue absent id (count + csmMap.getSize absent)).
Proof.
  intros [_ Hrange] [Hnot Hinj] Hid. unfold csmMap.setValue, csmMap.getSize.
  split.
  - intros id' k. rewrite lookup_insert_Some. intros [[<- _] | [_ Hk]]; [done |].
    by eapply Hnot.
  - intros id1 id2 k. rewrite !lookup_insert_Some.
    intros [[<- <-] | [Hne1 H1]] [[<- Hk] | [Hne2 H2]]; try done.
    + apply Hrange in H2. lia.
    + apply Hrange in H1. lia.
    + by eapply Hinj.
Qed.

Lemma registries_ok_getParameterIndex (id : CubismIdHandle) (k : Z)
  (m m' : CubismModel) :
  getParameterIndex id m = Some (k, m') → registries_ok m → registries_ok m'.
Proof.
  unfold getParameterIndex. intros Hg HP.
  destruct (scan _ _ _ _) eqn:Hscan; [by simplify_eq |].
  destruct (csmMap.isExist (_notExistParameterId m) id) eqn:Hex.
  - destruct (csmMap.getValue _ _); by simplify_eq/=.
  - simplify_eq. apply isExist_false in Hex.
    destruct HP as [(Hlen & Hov & Hreg) Hparts]. split; [| exact Hparts].
    split; [exact Hlen |]. split.
    + by apply overflow_ok_allocate.
    + eapply registry_ok_allocate; [exact Hov | exact Hreg |].
      by apply (scan_unknown _ _ _ Hlen).
Qed.

Lemma registries_ok_getPartIndex (id : CubismIdHandle) (k : Z)
  (m m' : CubismModel) :
  getPartIndex id m = Some (k, m') → registries_ok m → registries_ok m'.
Proof.
  unfold getPartIndex. intros Hg HP.
  destruct (scan _ _ _ _) eqn:Hscan; [by simplify_eq |].
  destruct (csmMap.isExist (_notExistPartId m) id) eqn:Hex.
  - destruct (csmMap.getValue _ _); by simplify_eq/=.
  - simplify_eq. apply isExist_false in Hex.
    destruct HP as [Hparams (Hlen & Hov & Hreg)]. split; [exact Hparams |].
    split; [exact Hlen |]. split.
    + by apply overflow_ok_allocate.
    + eapply registry_ok_allocate; [exact Hov | exact Hreg |].
      by apply (scan_unknown _ _ _ Hlen).
Qed.

Lemma registries_ok_run (c : Call) (m m' : CubismModel) :
  run c m = Some m' → registries_ok m → registries_ok m'.
Proof.
  revert c m m'.
  apply (frame_run (λ m m', registries_ok m → registries_ok m')); try done.
  - auto.
  - intros i x m m'. unfold store_parameterValue. intros Hs.
    destruct (parameterValues m) as [arr |]; by simplify_eq/=.
  - intros i x m m'. unfold store_partOpacity. intros Hs.
    destruct (partOpacities m) as [arr |]; by simplify_eq/=.
  - intros k x m Hk [(Hlen & Hov & Hreg) Hparts]. split; [| exact Hparts].
    split; [exact Hlen |]. split; [| exact Hreg].
    by apply overflow_ok_setValue.
  - intros k x m Hk [Hparams (Hlen & Hov & Hreg)]. split; [exact Hparams |].
    split; [exact Hlen |]. split; [| exact Hreg].
    by apply overflow_ok_setValue.
  - apply registries_ok_getParameterIndex.
  - apply registries_ok_getPartIndex.
Qed.

Lemma registry_ok_empty (ids : list CubismIdHandle) : registry_ok ids ∅.
Proof.
  split; [intros id k Hk | intros id1 id2 k Hk _]; by rewrite lookup_empty in Hk.
Qed.

Lemma registries_ok_initial (s : Model.t) : snapshot_ok s → registries_ok (initial s).
Proof.
  intros Hs. pose proof (Inv_initial s Hs) as HI.
  split; (split; [| split]).
  - rewrite (inv_parameterIds _ HI). apply Hs.
  - apply overflow_ok_empty.
  - apply registry_ok_empty.
  - rewrite (inv_partIds _ HI). apply Hs.
  - apply overflow_ok_empty.
  - apply registry_ok_empty.
Qed.

Lemma reachable_registries_ok (m : CubismModel) : reachable m → registries_ok m.
Proof.
  induction 1 as [s m Hs Hi | c m m' _ IH Hr].
  - rewrite (initialize_initial s Hs) in Hi. simplify_eq.
    by apply registries_ok_initial.
  - by eapply registries_ok_run.
Qed.

(** The slots of an overflow map of values are as many as the identifiers. *)
Lemma overflow_ok_size (count : Z) (ids : gmap CubismIdHandle Z)
  (slots : gmap Z number) :
  overflow_ok count ids slots → size slots = size ids.
Proof.
  intros [Hdom _].
  assert (dom slots = list_to_set (seqZ count (Z.of_nat (size ids)))) as Hd.
  { apply set_eq. intros k. rewrite elem_of_dom, Hdom, elem_of_list_to_set.
    rewrite elem_of_seqZ. lia. }
  rewrite <- size_dom, Hd, size_list_to_set by apply NoDup_seqZ.
  rewrite length_seqZ. lia.
Qed.

(** X2: in every state of a model the registry of absent parameter
    identifiers is consistent: an identifier in it is none of the asset's,
    its synthetic index lies from the parameter count on, below the count
    plus the number of absent identifiers, addresses a slot of the overflow
    values and is what [getParameterIndex] returns without a change of
    state; no two identifiers share an index; the overflow values are as
    many as the absent identifiers.  The registry of absent part
    identifiers is consistent in the same way. *)
Theorem absent_registry (m : CubismModel) :
  reachable m →
  ((∀ id k, _notExistParameterId m !! id = Some k →
            (id ∉ Parameters.ids (Model.parameters (_model m)))
            ∧ getParameterCount m ≤ k
              < getParameterCount m + csmMap.getSize (_notExistParameterId m)
            ∧ is_Some (_notExistParameterValues m !! k)
            ∧ getParameterIndex id m = Some (k, m))
   ∧ (∀ id1 id2 k, _notExistParameterId m !! id1 = Some k →
                   _notExistParameterId m !! id2 = Some k → id1 = id2)
   ∧ csmMap.getSize (_notExistParameterValues m)
     = csmMap.getSize (_notExistParameterId m))
  ∧ ((∀ id k, _notExistPartId m !! id = Some k →
              (id ∉ Parts.ids (Model.parts (_model m)))
              ∧ getPartCount m ≤ k < getPartCount m + csmMap.getSize (_notExistPartId m)
              ∧ is_Some (_notExistPartOpacities m !! k)
              ∧ getPartIndex id m = Some (k, m))
     ∧ (∀ id1 id2 k, _notExistPartId m !! id1 = Some k →
                     _notExistPartId m !! id2 = Some k → id1 = id2)
     ∧ csmMap.getSize (_notExistPartOpacities m) = csmMap.getSize (_notExistPartId m)).
Proof.
  intros Hr. pose proof (reachable_Inv m Hr) as HI.
  destruct (reachable_registries_ok m Hr)
    as [(Hlen & Hov & Hnot & Hinj) (Hlen' & Hov' & Hnot' & Hinj')].
  split; (split; [| split]).
  - intros id k Hk. pose proof (Hnot id k Hk) as Hid.
    rewrite (inv_parameterIds m HI) in Hid.
    split; [exact Hid |]. split; [by apply Hov in Hk |].
    split; [apply Hov; by apply Hov in Hk |].
    apply getParameterIndex_registered; [| exact Hk].
    by apply scan_parameterIds_unknown.
  - exact Hinj.
  - unfold csmMap.getSize. f_equal. by eapply overflow_ok_size.
  - intros id k Hk. pose proof (Hnot' id k Hk) as Hid.
    rewrite (inv_partIds m HI) in Hid.
    split; [exact Hid |]. split; [by apply Hov' in Hk |].
    split; [apply Hov'; by apply Hov' in Hk |].
    apply getPartIndex_registered; [| exact Hk].
    by apply scan_partIds_unknown.
  - exact Hinj'.
  - unfold csmMap.getSize. f_equal. by eapply overflow_ok_size.
Qed.


Lemma absent_registry_witness :
  ∃ m,
    after [GetParameterIndex "Nope"; GetParameterIndex "Other";
           GetParameterIndex "Nope"] (initial sample) = Some m
    ∧ _notExistParameterId m !! "Other" = Some 3
    ∧ getParameterIndex "Other" m = Some (3, m)
    ∧ csmMap.getSize (_notExistParameterValues m)
      = csmMap.getSize (_notExistParameterId m).
Proof.
  destruct (after [GetParameterIndex "Nope"; GetParameterIndex "Other";
                   GetParameterIndex "Nope"] (initial sample)) as [m |] eqn:Ha;
    [| vm_compute in Ha; discriminate].
  assert (reachable m) as Hr.
  { eapply reachable_after; [apply reachable_initial, sample_ok | exact Ha]. }
  destruct (absent_registry m Hr) as [(Hid & _ & Hsize) _].
  assert (_notExistParameterId m !! "Other" = Some 3) as Hother.
  { vm_compute in Ha. injection Ha as <-. vm_compute. reflexivity. }
  destruct (Hid "Other" 3 Hother) as (_ & _ & _ & Hget).
  exists m. split; [reflexivity |]. split; [exact Hother |].
  split; [exact Hget | exact Hsize].
Defined.

(** ** The indices that a call accepts *)

Lemma parameter_slot_cases (m : CubismModel) (i : Z) :
  Inv m →
  parameter_slot i m = true
  ↔ 0 ≤ i < getParameterCount m ∨ is_Some (_notExistParameterValues m !! i).
Proof.
  intros HI. unfold parameter_slot, csmMap.getSize. rewrite in_range_true.
  destruct (inv_parameters_overflow m HI) as [Hslots _]. rewrite Hslots.
  pose proof (inv_snapshot m HI) as (Hc & _). unfold getParameterCount in *. lia.
Qed.

Lemma part_slot_cases (m : CubismModel) (i : Z) :
  Inv m →
  part_slot i m = true
  ↔ 0 ≤ i < getPartCount m ∨ is_Some (_notExistPartOpacities m !! i).
Proof.
  intros HI. unfold part_slot, csmMap.getSize. rewrite in_range_true.
  destruct (inv_parts_overflow m HI) as [Hslots _]. rewrite Hslots.
  pose proof (inv_snapshot m HI) as (_ & Hc & _). unfold getPartCount in *. lia.
Qed.

Lemma parameter_cell (m : CubismModel) (i : Z) :
  Inv m → 0 ≤ i < getParameterCount m →
  ∃ old, Float32Array.get (Parameters.values (Model.parameters (_model m))) i
         = Some old.
Proof.
  intros HI Hi.
  pose proof (inv_snapshot m HI) as (_ & _ & _ & _ & _ & _ & Hlen & _).
  apply index_is_Some. unfold getParameterCount in Hi. lia.
Qed.

Lemma part_cell (m : CubismModel) (p : Z) :
  Inv m → 0 ≤ p < getPartCount m →
  ∃ old, Float32Array.get (Parts.opacities (Model.parts (_model m))) p = Some old.
Proof.
  intros HI Hp.
  pose proof (inv_snapshot m HI) as (_ & _ & _ & _ & _ & _ & _ & _ & _ & Hlen & _).
  apply index_is_Some. unfold getPartCount in Hp. lia.
Qed.

Lemma with_parameterValues_twice (arr arr' : Float32Array.t) (m : CubismModel) :
  with_parameterValues arr' (with_parameterValues arr m) = with_parameterValues arr' m.
Proof. by destruct m as [? ? ? ? ? ? ? ? ? ? ? ? ? ? [[] ? ?] ? ? ? ? ? ? ? ? ? ? ?]. Qed.

Lemma array_set_twice (arr : Float32Array.t) (i : Z) (x : number) :
  Float32Array.set (Float32Array.set arr i x) i x = Float32Array.set arr i x.
Proof.
  unfold Float32Array.set. case_decide; [| done].
  apply (list_insert_insert_eq (A := number)).
Qed.

Lemma store_parameterValue_twice (m : CubismModel) (i : Z) (x : number) :
  _parameterValues m = aliased →
  (m1 ← store_parameterValue i x m; store_parameterValue i x m1)
  = Some (with_parameterValues
            (Float32Array.set (Parameters.values (Model.parameters (_model m))) i x) m).
Proof.
  destruct m as [? ? ? ? ? ? ? ? ? ? ? ? ? ? [[] ? ?] ? ? ? ? ? ? ? ? ? ? ?].
  simpl. intros ->. unfold store_parameterValue, parameterValues. simpl.
  unfold with_parameterValues. simpl. by rewrite array_set_twice.
Qed.

(** On an index of the asset a write with a weight other than [1] stores
    the blend of the cell and the resolved value: the inner assignment of
    the source yields the blend, which the outer one stores again. *)
Lemma setParameterValueByIndex_blend (m : CubismModel) (i : Z) (v w : number)
  (repeat : bool) (minValue maxValue old : number) :
  Inv m → 0 ≤ i < getParameterCount m →
  isRepeat i m = Some repeat →
  getParameterMinimumValue i m = Some minValue →
  getParameterMaximumValue i m = Some maxValue →
  Float32Array.get (Parameters.values (Model.parameters (_model m))) i = Some old →
  PrimFloat.eqb w 1 = false →
  setParameterValueByIndex i v w m
  = Some (with_parameterValues
            (Float32Array.set (Parameters.values (Model.parameters (_model m))) i
               (old * (1 - w) + resolved_value repeat minValue maxValue v * w)%float)
            m).
Proof.
  intros HI Hi Hrepeat Hmin Hmax Hold Hw.
  unfold setParameterValueByIndex.
  rewrite real_parameter_not_overflow by (done || lia).
  rewrite (proj2 (in_range_true _ _) Hi). simpl. rewrite Hrepeat. simpl.
  unfold getParameterRepeatValue, getParameterClampValue.
  rewrite real_parameter_not_overflow by (done || lia).
  rewrite (proj2 (in_range_true _ _) Hi). simpl. rewrite Hmin, Hmax. simpl.
  rewrite Hw.
  rewrite (parameterValues_bound m (inv_parameterValues m HI)).
  assert (∀ value,
            (old0 ← Float32Array.get
                      (Parameters.values (Model.parameters (_model m))) i;
             let x := (old0 * (1 - w) + value * w)%float in
             m1 ← store_parameterValue i x m; store_parameterValue i x m1)
            = Some (with_parameterValues
                      (Float32Array.set
                         (Parameters.values (Model.parameters (_model m))) i
                         (old * (1 - w) + value * w)%float) m)) as Hstore.
  { intros value. rewrite Hold. cbv zeta.
    apply store_parameterValue_twice. exact (inv_parameterValues m HI). }
  destruct repeat; apply Hstore.
Qed.

Lemma getParameterValueByIndex_defined (m : CubismModel) (i : Z) :
  Inv m → is_Some (getParameterValueByIndex i m) ↔ parameter_slot i m = true.
Proof.
  intros HI. rewrite (parameter_slot_cases m i HI).
  destruct (_notExistParameterValues m !! i) as [x |] eqn:Hslot.
  - rewrite (getParameterValueByIndex_absent m i x Hslot). naive_solver.
  - destruct (decide (0 ≤ i < getParameterCount m)) as [Hi | Hi].
    + rewrite (getParameterValueByIndex_real m i _ Hslot Hi
                 (parameterValues_bound m (inv_parameterValues m HI))).
      destruct (parameter_cell m i HI Hi) as [old ->]. naive_solver.
    + rewrite (getParameterValueByIndex_outside m i Hslot Hi).
      split; [by intros [? ?] | intros [? | [? ?]]; done].
Qed.

Lemma setParameterValueByIndex_outside (m : CubismModel) (i : Z) (v w : number) :
  _notExistParameterValues m !! i = None →
  ¬ (0 ≤ i < getParameterCount m) →
  setParameterValueByIndex i v w m = None.
Proof.
  intros Hslot Hi. unfold setParameterValueByIndex.
  rewrite (proj2 (isExist_false _ _) Hslot).
  destruct (in_range i (getParameterCount m)) eqn:Hr; [| done].
  by apply in_range_true in Hr.
Qed.

Lemma setParameterValueByIndex_defined (m : CubismModel) (i : Z) (v w : number) :
  Inv m → is_Some (setParameterValueByIndex i v w m) ↔ parameter_slot i m = true.
Proof.
  intros HI. rewrite (parameter_slot_cases m i HI).
  destruct (_notExistParameterValues m !! i) as [x |] eqn:Hslot.
  - split; [eauto |]. intros _. unfold setParameterValueByIndex.
    rewrite (proj2 (isExist_true _ _)) by eauto.
    unfold csmMap.getValue. rewrite Hslot.
    destruct (PrimFloat.eqb w 1); simpl; eauto.
  - destruct (decide (0 ≤ i < getParameterCount m)) as [Hi | Hi].
    + split; [eauto |]. intros _.
      destruct (parameter_policy m i HI Hi) as (rp & mn & mx & Hrp & Hmn & Hmx).
      destruct (PrimFloat.eqb w 1) eqn:Hw.
      * unfold setParameterValueByIndex.
        rewrite real_parameter_not_overflow by (done || lia).
        rewrite (proj2 (in_range_true _ _) Hi). simpl. rewrite Hrp. simpl.
        unfold getParameterRepeatValue, getParameterClampValue.
        rewrite real_parameter_not_overflow by (done || lia).
        rewrite (proj2 (in_range_true _ _) Hi). simpl. rewrite Hmn, Hmx. simpl.
        rewrite Hw. unfold store_parameterValue.
        rewrite (parameterValues_bound m (inv_parameterValues m HI)).
        destruct rp; simpl; eauto.
      * destruct (parameter_cell m i HI Hi) as [old Hold].
        rewrite (setParameterValueByIndex_blend m i v w rp mn mx old); eauto.
    + rewrite (setParameterValueByIndex_outside m i v w Hslot Hi).
      split; [by intros [? ?] | intros [? | [? ?]]; done].
Qed.

Lemma getPartOpacityByIndex_defined (m : CubismModel) (p : Z) :
  Inv m → is_Some (getPartOpacityByIndex p m) ↔ part_slot p m = true.
Proof.
  intros HI. rewrite (part_slot_cases m p HI).
  destruct (_notExistPartOpacities m !! p) as [x |] eqn:Hslot.
  - rewrite (getPartOpacityByIndex_absent m p x Hslot). naive_solver.
  - destruct (decide (0 ≤ p < getPartCount m)) as [Hp | Hp].
    + rewrite (getPartOpacityByIndex_real m p _ Hslot Hp
                 (partOpacities_bound m (inv_partOpacities m HI))).
      destruct (part_cell m p HI Hp) as [old ->]. naive_solver.
    + unfold getPartOpacityByIndex.
      rewrite (proj2 (isExist_false _ _) Hslot).
      destruct (in_range p (getPartCount m)) eqn:Hr;
        [by apply in_range_true in Hr |].
      simpl. split; [by intros [? ?] | intros [? | [? ?]]; done].
Qed.

Lemma setPartOpacityByIndex_defined (m : CubismModel) (p : Z) (o : number) :
  Inv m → is_Some (setPartOpacityByIndex p o m) ↔ part_slot p m = true.
Proof.
  intros HI. rewrite (part_slot_cases m p HI).
  destruct (_notExistPartOpacities m !! p) as [x |] eqn:Hslot.
  - rewrite (setPartOpacityByIndex_absent m p o) by eauto. naive_solver.
  - destruct (decide (0 ≤ p < getPartCount m)) as [Hp | Hp].
    + rewrite (setPartOpacityByIndex_real m p o _ Hslot Hp
                 (partOpacities_bound m (inv_partOpacities m HI))).
      naive_solver.
    + unfold setPartOpacityByIndex.
      rewrite (proj2 (isExist_false _ _) Hslot).
      destruct (in_range p (getPartCount m)) eqn:Hr;
        [by apply in_range_true in Hr |].
      simpl. split; [by intros [? ?] | intros [? | [? ?]]; done].
Qed.

(** Every parameter lookup has a result: the first index of the identifier
    in the asset, or the synthetic index of its overflow entry, which has a
    slot. *)
Lemma getParameterIndex_cases (m : CubismModel) (id : CubismIdHandle) :
  Inv m →
  ∃ k m1,
    getParameterIndex id m = Some (k, m1) ∧ Inv m1 ∧ extends m m1
    ∧ ((id ∈ Parameters.ids (Model.parameters (_model m))
        ∧ scan (_parameterIds m) id 0 (Z.to_nat (getParameterCount m)) = Some k
        ∧ 0 ≤ k < getParameterCount m ∧ m1 = m)
       ∨ ((id ∉ Parameters.ids (Model.parameters (_model m)))
          ∧ scan (_parameterIds m) id 0 (Z.to_nat (getParameterCount m)) = None
          ∧ getParameterCount m ≤ k
          ∧ _notExistParameterId m1 !! id = Some k
          ∧ is_Some (_notExistParameterValues m1 !! k))).
Proof.
  intros HI.
  pose proof (inv_snapshot m HI) as (Hpc & _ & _ & Hlen & _).
  destruct (scan (_parameterIds m) id 0 (Z.to_nat (getParameterCount m)))
    as [k |] eqn:Hscan.
  - exists k, m. split.
    { unfold getParameterIndex. unfold getParameterCount in Hscan. by rewrite Hscan. }
    split; [done |]. split; [apply extends_refl |]. left.
    pose proof Hscan as Hs. apply scan_Some in Hs as (Hk & Hid & _).
    rewrite (inv_parameterIds m HI) in Hid.
    split; [| split; [done | split; [unfold getParameterCount in *; lia | done]]].
    apply index_Some in Hid as [_ Hid]. by eapply list_elem_of_lookup_2.
  - assert (id ∉ Parameters.ids (Model.parameters (_model m))) as Hno.
    { rewrite (inv_parameterIds m HI) in Hscan.
      by apply (scan_unknown _ id _ Hlen). }
    destruct (_notExistParameterId m !! id) as [k |] eqn:Hreg.
    + exists k, m. split; [by apply getParameterIndex_registered |]. split; [done |].
      split; [apply extends_refl |]. right.
      destruct (inv_parameters_overflow m HI) as [Hslots Hids].
      pose proof (Hids id k Hreg) as Hk.
      split; [done |]. split; [done |]. split; [lia |]. split; [done |].
      by apply Hslots.
    + destruct (getParameterIndex_fresh m id HI Hscan Hreg) as [Hslot Hget].
      eexists _, _. split; [exact Hget |].
      split; [by eapply Inv_getParameterIndex |].
      split; [by eapply extends_getParameterIndex |]. right.
      split; [done |]. split; [done |]. split; [lia |].
      cbn. rewrite !lookup_insert_eq. eauto.
Qed.

(** ** The colour of a part and its children *)

Lemma paint_loop (c : CubismTextureColor.t) (children : list Z)
  (colors : list DrawableColorData.t) :
  Forall (λ d, 0 ≤ d < Z.of_nat (length colors)) children →
  ∃ colors',
    for_ (csmVector.getSize children)
      (λ i t, drawableIndex ← csmVector.at_ children i;
              write_drawable_color t drawableIndex c)
      colors
    = Some colors'
    ∧ length colors' = length colors
    ∧ ∀ k, index colors' k
           = if decide (k ∈ children)
             then painted c <$> index colors k
             else index colors k.
Proof.
  intros Hrange. unfold for_, csmVector.getSize. rewrite Nat2Z.id.
  destruct (for_loop_total
              (λ j t, length t = length colors
                      ∧ ∀ k, index t k
                             = if decide (k ∈ take (Z.to_nat j) children)
                               then painted c <$> index colors k
                               else index colors k)
              (λ i t, drawableIndex ← csmVector.at_ children i;
                      write_drawable_color t drawableIndex c)
              (length children) 0 colors) as (t & Hrun & Hlen & Ht).
  - split; [done |]. intros k. case_decide as Hin; [| done].
    rewrite take_0 in Hin. set_solver.
  - intros j t Hj [Hlen Ht].
    assert (∃ n : nat, j = Z.of_nat n ∧ (n < length children)%nat)
      as (n & -> & Hn) by (exists (Z.to_nat j); lia).
    replace (Z.to_nat (Z.of_nat n + 1)) with (S n) by lia.
    rewrite Nat2Z.id in Ht.
    destruct (lookup_lt_is_Some_2 children n Hn) as [d Hd].
    assert (0 ≤ d < Z.of_nat (length colors)) as Hdr.
    { rewrite Forall_lookup in Hrange. by eapply Hrange. }
    destruct (proj2 (index_is_Some colors d) Hdr) as [r0 Hr0].
    destruct (proj2 (index_is_Some t d)) as [r Hr]; [lia |].
    assert (DrawableColorData.isOverridden r = DrawableColorData.isOverridden r0)
      as Hflag.
    { pose proof (Ht d) as Htd. rewrite Hr, Hr0 in Htd.
      case_decide; simpl in Htd; by simplify_eq. }
    exists (csmVector.set t d (painted c r0)).
    unfold csmVector.at_. rewrite index_of_nat, Hd. simpl.
    split; [| split].
    + unfold write_drawable_color, csmVector.at_. rewrite Hr. simpl.
      unfold painted. by rewrite Hflag.
    + rewrite length_vector_set. done.
    + intros k. rewrite (take_S_r _ _ _ Hd).
      destruct (decide (k = d)) as [-> | Hne].
      * rewrite index_vector_set_eq by lia.
        rewrite decide_True by set_solver. by rewrite Hr0.
      * rewrite index_vector_set_ne by done. rewrite Ht.
        destruct (decide (k ∈ take n children)).
        -- rewrite decide_True by set_solver. done.
        -- rewrite decide_False by set_solver. done.
  - exists t. split; [done |]. split; [done |].
    intros k. rewrite Ht. rewrite Z.add_0_l, Nat2Z.id, firstn_all. done.
Qed.

Lemma setPartColor_paint (partChildDrawables : list (list Z)) (p : Z)
  (r g b a : number) (part : PartColorData.t) (children : list Z)
  (partColors : list PartColorData.t) (drawableColors : list DrawableColorData.t) :
  csmVector.at_ partColors p = Some part →
  csmVector.at_ partChildDrawables p = Some children →
  Forall (λ d, 0 ≤ d < Z.of_nat (length drawableColors)) children →
  ∃ drawableColors',
    setPartColor partChildDrawables p r g b a partColors drawableColors
    = Some (csmVector.set partColors p
              (PartColorData.Build (PartColorData.isOverridden part)
                 (CubismTextureColor.Build r g b a)),
            drawableColors')
    ∧ (PartColorData.isOverridden part = false → drawableColors' = drawableColors)
    ∧ (PartColorData.isOverridden part = true →
       ∀ k, index drawableColors' k
            = if decide (k ∈ children)
              then painted (CubismTextureColor.Build r g b a) <$> index drawableColors k
              else index drawableColors k).
Proof.
  intros Hpart Hchildren Hrange.
  unfold setPartColor. rewrite Hpart. simpl.
  destruct (PartColorData.isOverridden part) eqn:Hflag.
  - destruct (paint_loop (CubismTextureColor.Build r g b a) children drawableColors
                Hrange) as (dc' & Hloop & Hlen & Hdc).
    exists dc'. rewrite Hchildren. simpl. rewrite Hloop. done.
  - exists drawableColors. done.
Qed.

Lemma setPartColor_outside (partChildDrawables : list (list Z)) (p : Z)
  (r g b a : number) (partColors : list PartColorData.t)
  (drawableColors : list DrawableColorData.t) :
  ¬ (0 ≤ p < Z.of_nat (length partColors)) →
  setPartColor partChildDrawables p r g b a partColors drawableColors = None.
Proof.
  intros Hp. unfold setPartColor, csmVector.at_.
  by rewrite (proj2 (index_None partColors p) Hp).
Qed.

Lemma setOverrideColorForPartColors_outside (partChildDrawables : list (list Z))
  (p : Z) (value : bool) (partColors : list PartColorData.t)
  (drawableColors : list DrawableColorData.t) :
  ¬ (0 ≤ p < Z.of_nat (length partColors)) →
  setOverrideColorForPartColors partChildDrawables p value partColors drawableColors
  = None.
Proof.
  intros Hp. unfold setOverrideColorForPartColors, csmVector.at_.
  by rewrite (proj2 (index_None partColors p) Hp).
Qed.

(** [setPartMultiplyColorByRGBA] and [setPartScreenColorByRGBA] on a part of
    the asset. *)
Lemma setPartMultiplyColorByRGBA_paint (m : CubismModel) (p : Z) (r g b a : number) :
  Inv m → 0 ≤ p < getPartCount m →
  ∃ part children drawableColors',
    csmVector.at_ (_userPartMultiplyColors m) p = Some part
    ∧ csmVector.at_ (_partChildDrawables m) p = Some children
    ∧ setPartMultiplyColorByRGBA p r g b a m
      = Some (set__userPartMultiplyColors
                (csmVector.set (_userPartMultiplyColors m) p
                   (PartColorData.Build (PartColorData.isOverridden part)
                      (CubismTextureColor.Build r g b a)))
                (set__userMultiplyColors drawableColors' m))
    ∧ (PartColorData.isOverridden part = false
       → drawableColors' = _userMultiplyColors m)
    ∧ (PartColorData.isOverridden part = true →
       ∀ k, index drawableColors' k
            = if decide (k ∈ children)
              then painted (CubismTextureColor.Build r g b a)
                     <$> index (_userMultiplyColors m) k
              else index (_userMultiplyColors m) k).
Proof.
  intros HI Hp.
  destruct (children_are_children m p HI Hp) as (children & Hch & Hrange & _).
  destruct (proj2 (index_is_Some (_userPartMultiplyColors m) p)) as [part Hpart].
  { rewrite (inv_partMultiplyColors m HI). done. }
  rewrite <- (inv_multiplyColors m HI) in Hrange.
  destruct (setPartColor_paint (_partChildDrawables m) p r g b a part children
              (_userPartMultiplyColors m) (_userMultiplyColors m) Hpart Hch Hrange)
    as (dc' & Hset & Hoff & Hon).
  exists part, children, dc'. split; [done |]. split; [done |].
  split; [| done]. unfold setPartMultiplyColorByRGBA. rewrite Hset. done.
Qed.

Lemma setPartScreenColorByRGBA_paint (m : CubismModel) (p : Z) (r g b a : number) :
  Inv m → 0 ≤ p < getPartCount m →
  ∃ part children drawableColors',
    csmVector.at_ (_userPartScreenColors m) p = Some part
    ∧ csmVector.at_ (_partChildDrawables m) p = Some children
    ∧ setPartScreenColorByRGBA p r g b a m
      = Some (set__userPartScreenColors
                (csmVector.set (_userPartScreenColors m) p
                   (PartColorData.Build (PartColorData.isOverridden part)
                      (CubismTextureColor.Build r g b a)))
                (set__userScreenColors drawableColors' m))
    ∧ (PartColorData.isOverridden part = false
       → drawableColors' = _userScreenColors m)
    ∧ (PartColorData.isOverridden part = true →
       ∀ k, index drawableColors' k
            = if decide (k ∈ children)
              then painted (CubismTextureColor.Build r g b a)
                     <$> index (_userScreenColors m) k
              else index (_userScreenColors m) k).
Proof.
  intros HI Hp.
  destruct (children_are_children m p HI Hp) as (children & Hch & Hrange & _).
  destruct (proj2 (index_is_Some (_userPartScreenColors m) p)) as [part Hpart].
  { rewrite (inv_partScreenColors m HI). done. }
  rewrite <- (inv_screenColors m HI) in Hrange.
  destruct (setPartColor_paint (_partChildDrawables m) p r g b a part children
              (_userPartScreenColors m) (_userScreenColors m) Hpart Hch Hrange)
    as (dc' & Hset & Hoff & Hon).
  exists part, children, dc'. split; [done |]. split; [done |].
  split; [| done]. unfold setPartScreenColorByRGBA. rewrite Hset. done.
Qed.

Lemma userCulling_defined (m : CubismModel) (d : Z) :
  Inv m → is_Some (userCulling d m) ↔ 0 ≤ d < getDrawableCount m.
Proof.
  intros HI. split.
  - intros [[l o] Hu]. unfold userCulling in Hu.
    destruct (csmVector.at_ (_userCullings m) d) as [l' |] eqn:Hl; [| done].
    rewrite <- (inv_cullings_length m HI). apply index_is_Some.
    exists l'. exact Hl.
  - intros Hd. destruct (userCulling_shared m HI) as (l & Hl & Hall).
    destruct (lookup_lt_is_Some_2 (objects m) l Hl) as [o Ho].
    exists (l, o). apply userCulling_Some; [by apply Hall | done].
Qed.

Lemma setMultiplyColorByRGBA_defined (m : CubismModel) (i : Z) (r g b a : number) :
  Inv m → is_Some (setMultiplyColorByRGBA i r g b a m) ↔ 0 ≤ i < getDrawableCount m.
Proof.
  intros HI. rewrite <- (inv_multiplyColors m HI), <- index_is_Some.
  unfold setMultiplyColorByRGBA, write_drawable_color, csmVector.at_.
  destruct (index (_userMultiplyColors m) i); simpl; split; eauto; by intros [? ?].
Qed.

Lemma setScreenColorByRGBA_defined (m : CubismModel) (i : Z) (r g b a : number) :
  Inv m → is_Some (setScreenColorByRGBA i r g b a m) ↔ 0 ≤ i < getDrawableCount m.
Proof.
  intros HI. rewrite <- (inv_screenColors m HI), <- index_is_Some.
  unfold setScreenColorByRGBA, write_drawable_color, csmVector.at_.
  destruct (index (_userScreenColors m) i); simpl; split; eauto; by intros [? ?].
Qed.

Lemma setOverrideFlagForDrawableMultiplyColors_defined (m : CubismModel) (i : Z)
  (v : bool) :
  Inv m →
  is_Some (setOverrideFlagForDrawableMultiplyColors i v m)
  ↔ 0 ≤ i < getDrawableCount m.
Proof.
  intros HI. rewrite <- (inv_multiplyColors m HI), <- index_is_Some.
  unfold setOverrideFlagForDrawableMultiplyColors, csmVector.at_.
  destruct (index (_userMultiplyColors m) i); simpl; split; eauto; by intros [? ?].
Qed.

Lemma setOverrideFlagForDrawableScreenColors_defined (m : CubismModel) (i : Z)
  (v : bool) :
  Inv m →
  is_Some (setOverrideFlagForDrawableScreenColors i v m)
  ↔ 0 ≤ i < getDrawableCount m.
Proof.
  intros HI. rewrite <- (inv_screenColors m HI), <- index_is_Some.
  unfold setOverrideFlagForDrawableScreenColors, csmVector.at_.
  destruct (index (_userScreenColors m) i); simpl; split; eauto; by intros [? ?].
Qed.

Lemma repeat_record_defined (m : CubismModel) (i : Z)
  (f : ParameterRepeatData.t → ParameterRepeatData.t) :
  Inv m →
  is_Some (d ← csmVector.at_ (_userParameterRepeatDataList m) i;
           Some (set__userParameterRepeatDataList
                   (csmVector.set (_userParameterRepeatDataList m) i (f d)) m))
  ↔ 0 ≤ i < getParameterCount m.
Proof.
  intros HI. rewrite <- (inv_repeatData m HI), <- index_is_Some.
  unfold csmVector.at_.
  destruct (index (_userParameterRepeatDataList m) i); simpl; split; eauto;
    by intros [? ?].
Qed.

Lemma setPartOpacityById_defined (m : CubismModel) (id : CubismIdHandle) (o : number) :
  Inv m → is_Some (setPartOpacityById id o m).
Proof.
  intros HI.
  destruct (getPartIndex_cases m id HI) as (k & m1 & Hget & HI1 & _ & Hcases).
  unfold setPartOpacityById. rewrite Hget. simpl.
  case_decide; [eauto |].
  apply setPartOpacityByIndex_defined; [done |]. apply part_slot_cases; [done |].
  destruct Hcases as [(_ & _ & Hk & ->) | (_ & _ & _ & _ & Hslot)]; eauto.
Qed.

Lemma getPartOpacityById_defined (m : CubismModel) (id : CubismIdHandle) :
  Inv m → is_Some (getPartOpacityById id m).
Proof.
  intros HI.
  destruct (getPartIndex_cases m id HI) as (k & m1 & Hget & HI1 & _ & Hcases).
  unfold getPartOpacityById. rewrite Hget. simpl.
  case_decide; [eauto |].
  destruct (proj2 (getPartOpacityByIndex_defined m1 k HI1)) as [x Hx].
  { apply part_slot_cases; [done |].
    destruct Hcases as [(_ & _ & Hk & ->) | (_ & _ & _ & _ & Hslot)]; eauto. }
  rewrite Hx. simpl. eauto.
Qed.

Lemma parameter_slot_getParameterIndex (m m1 : CubismModel) (id : CubismIdHandle)
  (k : Z) :
  Inv m → getParameterIndex id m = Some (k, m1) → Inv m1 ∧ parameter_slot k m1 = true.
Proof.
  intros HI Hget.
  destruct (getParameterIndex_cases m id HI) as (k' & m1' & Hget' & HI1 & _ & Hcases).
  rewrite Hget in Hget'. simplify_eq. split; [done |].
  apply parameter_slot_cases; [done |].
  destruct Hcases as [(_ & _ & Hk & ->) | (_ & _ & _ & _ & Hslot)]; eauto.
Qed.

Lemma getParameterIndex_defined (m : CubismModel) (id : CubismIdHandle) :
  Inv m → ∃ k m1, getParameterIndex id m = Some (k, m1).
Proof.
  intros HI.
  destruct (getParameterIndex_cases m id HI) as (k & m1 & Hget & _). eauto.
Qed.

Lemma addParameterValueByIndex_defined (m : CubismModel) (i : Z) (v w : number) :
  Inv m → is_Some (addParameterValueByIndex i v w m) ↔ parameter_slot i m = true.
Proof.
  intros HI. unfold addParameterValueByIndex.
  rewrite <- (getParameterValueByIndex_defined m i HI).
  destruct (getParameterValueByIndex i m) as [x |] eqn:Hx; simpl.
  - rewrite setParameterValueByIndex_defined by done.
    rewrite <- (getParameterValueByIndex_defined m i HI), Hx. done.
  - split; by intros [? ?].
Qed.

Lemma multiplyParameterValueByIndex_defined (m : CubismModel) (i : Z)
  (v w : number) :
  Inv m → is_Some (multiplyParameterValueByIndex i v w m) ↔ parameter_slot i m = true.
Proof.
  intros HI. unfold multiplyParameterValueByIndex.
  rewrite <- (getParameterValueByIndex_defined m i HI).
  destruct (getParameterValueByIndex i m) as [x |] eqn:Hx; simpl.
  - rewrite setParameterValueByIndex_defined by done.
    rewrite <- (getParameterValueByIndex_defined m i HI), Hx. done.
  - split; by intros [? ?].
Qed.

Lemma setPartMultiplyColorByRGBA_defined (m : CubismModel) (p : Z)
  (r g b a : number) :
  Inv m → is_Some (setPartMultiplyColorByRGBA p r g b a m) ↔ 0 ≤ p < getPartCount m.
Proof.
  intros HI. split.
  - intros [m' Hs]. destruct (decide (0 ≤ p < getPartCount m)) as [| Hp]; [done |].
    unfold setPartMultiplyColorByRGBA in Hs.
    rewrite setPartColor_outside in Hs; [done |].
    by rewrite (inv_partMultiplyColors m HI).
  - intros Hp.
    destruct (setPartMultiplyColorByRGBA_paint m p r g b a HI Hp)
      as (? & ? & ? & _ & _ & -> & _). eauto.
Qed.

Lemma setPartScreenColorByRGBA_defined (m : CubismModel) (p : Z)
  (r g b a : number) :
  Inv m → is_Some (setPartScreenColorByRGBA p r g b a m) ↔ 0 ≤ p < getPartCount m.
Proof.
  intros HI. split.
  - intros [m' Hs]. destruct (decide (0 ≤ p < getPartCount m)) as [| Hp]; [done |].
    unfold setPartScreenColorByRGBA in Hs.
    rewrite setPartColor_outside in Hs; [done |].
    by rewrite (inv_partScreenColors m HI).
  - intros Hp.
    destruct (setPartScreenColorByRGBA_paint m p r g b a HI Hp)
      as (? & ? & ? & _ & _ & -> & _). eauto.
Qed.

Lemma setOverrideColorForPartMultiplyColors_defined (m : CubismModel) (p : Z)
  (v : bool) :
  Inv m →
  is_Some (setOverrideColorForPartMultiplyColors p v m) ↔ 0 ≤ p < getPartCount m.
Proof.
  intros HI. split.
  - intros [m' Hs]. rewrite <- (inv_partMultiplyColors m HI). apply index_is_Some.
    unfold setOverrideColorForPartMultiplyColors, csmVector.at_ in Hs.
    destruct (index (_userPartMultiplyColors m) p); [eauto | done].
  - intros Hp.
    destruct (setOverrideColorForPartMultiplyColors_cascade m p v HI Hp)
      as (? & ? & ? & _ & _ & -> & _). eauto.
Qed.

Lemma setOverrideColorForPartScreenColors_defined (m : CubismModel) (p : Z)
  (v : bool) :
  Inv m →
  is_Some (setOverrideColorForPartScreenColors p v m) ↔ 0 ≤ p < getPartCount m.
Proof.
  intros HI. split.
  - intros [m' Hs]. rewrite <- (inv_partScreenColors m HI). apply index_is_Some.
    unfold setOverrideColorForPartScreenColors, csmVector.at_ in Hs.
    destruct (index (_userPartScreenColors m) p); [eauto | done].
  - intros Hp.
    destruct (setOverrideColorForPartScreenColors_cascade m p v HI Hp)
      as (? & ? & ? & _ & _ & -> & _). eauto.
Qed.

Lemma setDrawableCulling_defined (m : CubismModel) (d : Z) (v : bool) :
  Inv m → is_Some (setDrawableCulling d v m) ↔ 0 ≤ d < getDrawableCount m.
Proof.
  intros HI. rewrite <- (userCulling_defined m d HI). unfold setDrawableCulling.
  destruct (userCulling d m) as [[l o] |]; simpl; split; eauto; by intros [? ?].
Qed.

Lemma setOverrideFlagForDrawableCullings_defined (m : CubismModel) (d : Z)
  (v : bool) :
  Inv m →
  is_Some (setOverrideFlagForDrawableCullings d v m) ↔ 0 ≤ d < getDrawableCount m.
Proof.
  intros HI. rewrite <- (userCulling_defined m d HI).
  unfold setOverrideFlagForDrawableCullings.
  destruct (userCulling d m) as [[l o] |]; simpl; split; eauto; by intros [? ?].
Qed.

(** X3: on an initialised model a call has a result exactly when its index
    argument addresses an entity: a drawable or a part of the asset for the
    colour and culling calls, a parameter of the asset for the repeat
    flags, a parameter or part of the asset or the slot of an absent
    identifier for the value and opacity calls.  The calls that take an
    identifier or no index always have a result. *)
Theorem run_defined (c : Call) (m : CubismModel) :
  reachable m → is_Some (run c m) ↔ valid_call c m = true.
Proof.
  intros Hr. pose proof (reachable_Inv m Hr) as HI.
  destruct c as [| | i r g b a | i r g b a | p r g b a | p r g b a | v | i v | i v
                 | v | v | i v | i v | p v | p v | d v | v | d v | o | id | p o
                 | id o | id | id | id | i v w | id v w | i v w | id v w | i v w
                 | id v w | i c | i c | p c | p c];
    simpl; rewrite ?in_range_true.
  - rewrite (saveParameters_closed m HI). naive_solver.
  - pose proof (loadParameters_closed m HI) as Hl. cbv zeta in Hl. rewrite Hl.
    naive_solver.
  - by apply setMultiplyColorByRGBA_defined.
  - by apply setScreenColorByRGBA_defined.
  - by apply setPartMultiplyColorByRGBA_defined.
  - by apply setPartScreenColorByRGBA_defined.
  - naive_solver.
  - by apply repeat_record_defined.
  - by apply repeat_record_defined.
  - naive_solver.
  - naive_solver.
  - by apply setOverrideFlagForDrawableMultiplyColors_defined.
  - by apply setOverrideFlagForDrawableScreenColors_defined.
  - by apply setOverrideColorForPartMultiplyColors_defined.
  - by apply setOverrideColorForPartScreenColors_defined.
  - by apply setDrawableCulling_defined.
  - naive_solver.
  - by apply setOverrideFlagForDrawableCullings_defined.
  - naive_solver.
  - destruct (getPartIndex_cases m id HI) as (k & m1 & -> & _). naive_solver.
  - by apply setPartOpacityByIndex_defined.
  - split; [done |]. intros _. by apply setPartOpacityById_defined.
  - split; [done |]. intros _. rewrite fmap_is_Some.
    by apply getPartOpacityById_defined.
  - destruct (getParameterIndex_defined m id HI) as (k & m1 & ->).
    naive_solver.
  - split; [done |]. intros _. rewrite fmap_is_Some. unfold getParameterValueById.
    destruct (getParameterIndex_defined m id HI) as (k & m1 & Hget).
    rewrite Hget. simpl.
    destruct (parameter_slot_getParameterIndex m m1 _ k HI Hget) as [HI1 Hslot].
    apply (getParameterValueByIndex_defined m1 k HI1) in Hslot as [x ->]. eauto.
  - by apply setParameterValueByIndex_defined.
  - split; [done |]. intros _. unfold setParameterValueById.
    destruct (getParameterIndex_defined m id HI) as (k & m1 & Hget).
    rewrite Hget. simpl.
    destruct (parameter_slot_getParameterIndex m m1 _ k HI Hget) as [HI1 Hslot].
    by apply setParameterValueByIndex_defined.
  - by apply addParameterValueByIndex_defined.
  - split; [done |]. intros _. unfold addParameterValueById.
    destruct (getParameterIndex_defined m id HI) as (k & m1 & Hget).
    rewrite Hget. simpl.
    destruct (parameter_slot_getParameterIndex m m1 _ k HI Hget) as [HI1 Hslot].
    by apply addParameterValueByIndex_defined.
  - by apply multiplyParameterValueByIndex_defined.
  - split; [done |]. intros _. unfold multiplyParameterValueById.
    destruct (getParameterIndex_defined m id HI) as (k & m1 & Hget).
    rewrite Hget. simpl.
    destruct (parameter_slot_getParameterIndex m m1 _ k HI Hget) as [HI1 Hslot].
    by apply multiplyParameterValueByIndex_defined.
  - by apply setMultiplyColorByRGBA_defined.
  - by apply setScreenColorByRGBA_defined.
  - by apply setPartMultiplyColorByRGBA_defined.
  - by apply setPartScreenColorByRGBA_defined.
Qed.

Lemma run_defined_witness :
  is_Some (run (SetParameterValueByIndex 1 5 0.5) (initial sample))
  ∧ run (SetParameterValueByIndex 2 5 0.5) (initial sample) = None
  ∧ is_Some (after [GetParameterIndex "Nope"; SetParameterValueByIndex 2 5 0.5]
               (initial sample)).
Proof.
  pose proof (reachable_initial sample sample_ok) as Hr.
  split; [| split].
  - apply (run_defined _ _ Hr). reflexivity.
  - apply eq_None_not_Some. rewrite (run_defined _ _ Hr). vm_compute. discriminate.
  - rewrite after_cons.
    destruct (run (GetParameterIndex "Nope") (initial sample)) as [m1 |] eqn:H1;
      [| vm_compute in H1; discriminate].
    simpl. rewrite after_cons.
    assert (reachable m1) as Hr1 by (by eapply reachable_run).
    destruct (proj2 (run_defined (SetParameterValueByIndex 2 5 0.5) m1 Hr1))
      as [m2 ->]; [| simpl; eauto].
    vm_compute in H1. injection H1 as <-. vm_compute. reflexivity.
Defined.

(** ** Values and overrides are separate *)

Lemma same_values_refl (m : CubismModel) : same_values m m.
Proof. by repeat split. Qed.

Lemma same_values_trans (m1 m2 m3 : CubismModel) :
  same_values m1 m2 → same_values m2 m3 → same_values m1 m3.
Proof.
  unfold same_values. intros H12 H23. destruct_and!. repeat split; congruence.
Qed.

Lemma same_overrides_refl (m : CubismModel) : same_overrides m m.
Proof. by repeat split. Qed.

Lemma same_overrides_trans (m1 m2 m3 : CubismModel) :
  same_overrides m1 m2 → same_overrides m2 m3 → same_overrides m1 m3.
Proof.
  unfold same_overrides. intros H12 H23. destruct_and!. repeat split; congruence.
Qed.

Lemma same_values_override_call (c : Call) (m m' : CubismModel) :
  override_call c = true → run c m = Some m' → same_values m m'.
Proof.
  apply frame_override_call; clear c m m';
    first [apply same_values_trans | by repeat split].
Qed.

Lemma same_overrides_value_call (c : Call) (m m' : CubismModel) :
  override_call c = false → run c m = Some m' → same_overrides m m'.
Proof.
  apply frame_value_call; clear c m m';
    try first [apply same_overrides_refl | apply same_overrides_trans
              | by repeat split].
  - intros i x m m'. unfold store_parameterValue. intros Hs.
    destruct (parameterValues m) as [arr |]; simplify_eq/=. by repeat split.
  - intros i x m m'. unfold store_partOpacity. intros Hs.
    destruct (partOpacities m) as [arr |]; simplify_eq/=. by repeat split.
  - intros id k m m'. unfold getParameterIndex. intros Hg.
    destruct (scan _ _ _ _); [simplify_eq; apply same_overrides_refl |].
    destruct (csmMap.isExist (_notExistParameterId m) id).
    + destruct (csmMap.getValue _ _); simplify_eq/=. apply same_overrides_refl.
    + simplify_eq. by repeat split.
  - intros id k m m'. unfold getPartIndex. intros Hg.
    destruct (scan _ _ _ _); [simplify_eq; apply same_overrides_refl |].
    destruct (csmMap.isExist (_notExistPartId m) id).
    + destruct (csmMap.getValue _ _); simplify_eq/=. apply same_overrides_refl.
    + simplify_eq. by repeat split.
Qed.

(** X4: the calls that write colours, culling, repeat flags or the model
    opacity leave every value alone: after any sequence of them the
    snapshot and the saved parameters are the same, every parameter value
    and part opacity reads the same, and every identifier has the same
    index. *)
Theorem override_calls_keep_values (calls : list Call) (m m' : CubismModel) :
  Forall (λ c, override_call c = true) calls →
  after calls m = Some m' →
  _model m' = _model m
  ∧ _savedParameters m' = _savedParameters m
  ∧ (∀ i, getParameterValueByIndex i m' = getParameterValueByIndex i m)
  ∧ (∀ p, getPartOpacityByIndex p m' = getPartOpacityByIndex p m)
  ∧ (∀ id, (fst <$> getParameterIndex id m') = (fst <$> getParameterIndex id m))
  ∧ (∀ id, (fst <$> getPartIndex id m') = (fst <$> getPartIndex id m)).
Proof.
  intros Hcalls Ha.
  assert (same_values m m' ∧ same_asset m m') as [Hv Hs].
  { eapply (after_ind (λ m m', same_values m m' ∧ same_asset m m')
              (λ c, override_call c = true)); [| | | exact Hcalls | exact Ha].
    - intros m0. split; [apply same_values_refl | apply same_asset_refl].
    - intros m1 m2 m3 [? ?] [? ?].
      split; [by eapply same_values_trans | by eapply same_asset_trans].
    - intros c m1 m2 Hc Hr.
      split; [by eapply same_values_override_call | by eapply same_asset_run]. }
  destruct Hv as (Hmodel & Hpi & Hpv & Hqi & Hqv & Hsaved).
  destruct Hs as (_ & _ & _ & _ & _ & _ & _ & _ & _ & _ & _ & _ & Hids & Hpids
                  & _ & _ & _ & Hview & Hoview).
  split; [done |]. split; [done |].
  unfold getParameterValueByIndex, getPartOpacityByIndex, getParameterIndex,
    getPartIndex, getParameterCount, getPartCount, parameterValues, partOpacities.
  rewrite Hmodel, Hpi, Hpv, Hqi, Hqv, Hids, Hpids, Hview, Hoview.
  repeat split; intros id; repeat case_match; try done;
    by destruct (csmMap.getValue _ id).
Qed.

Lemma override_calls_keep_values_witness :
  ∃ m',
    after [SetPartMultiplyColorByRGBA 0 1 0 0 1;
           SetOverrideColorForPartMultiplyColors 0 true;
           SetOverrideFlagForModelParameterRepeat false; SetDrawableCulling 0 true]
      (initial sample) = Some m'
    ∧ getParameterValueByIndex 1 m' = Some 0%float
    ∧ getPartOpacityByIndex 0 m' = Some 1%float.
Proof.
  destruct (after [SetPartMultiplyColorByRGBA 0 1 0 0 1;
                   SetOverrideColorForPartMultiplyColors 0 true;
                   SetOverrideFlagForModelParameterRepeat false;
                   SetDrawableCulling 0 true] (initial sample))
    as [m' |] eqn:Ha; [| vm_compute in Ha; discriminate].
  destruct (override_calls_keep_values _ _ _ ltac:(repeat constructor) Ha)
    as (_ & _ & Hp & Hq & _).
  exists m'. split; [reflexivity |]. rewrite Hp, Hq. split; reflexivity.
Defined.

(** X5: the calls that read or write parameter values and part opacities
    (the lookups, save and load among them) leave every override alone:
    after any sequence of them each drawable has the same resolved colours
    and culling and the same flags, each part the same colours and flags,
    each parameter the same repeat flags, and the model the same flags and
    opacity. *)
Theorem value_calls_keep_overrides (calls : list Call) (m m' : CubismModel) :
  Forall (λ c, override_call c = false) calls →
  after calls m = Some m' →
  (∀ d, getMultiplyColor d m' = getMultiplyColor d m
        ∧ getScreenColor d m' = getScreenColor d m
        ∧ getDrawableCulling d m' = getDrawableCulling d m
        ∧ getOverrideFlagForDrawableMultiplyColors d m'
          = getOverrideFlagForDrawableMultiplyColors d m
        ∧ getOverrideFlagForDrawableScreenColors d m'
          = getOverrideFlagForDrawableScreenColors d m
        ∧ getOverrideFlagForDrawableCullings d m'
          = getOverrideFlagForDrawableCullings d m)
  ∧ (∀ p, getPartMultiplyColor p m' = getPartMultiplyColor p m
          ∧ getPartScreenColor p m' = getPartScreenColor p m
          ∧ getOverrideColorForPartMultiplyColors p m'
            = getOverrideColorForPartMultiplyColors p m
          ∧ getOverrideColorForPartScreenColors p m'
            = getOverrideColorForPartScreenColors p m)
  ∧ (∀ i, getOverrideFlagForParameterRepeat i m'
          = getOverrideFlagForParameterRepeat i m
          ∧ getRepeatFlagForParameterRepeat i m' = getRepeatFlagForParameterRepeat i m)
  ∧ getOverrideFlagForModelParameterRepeat m'
    = getOverrideFlagForModelParameterRepeat m
  ∧ getOverrideFlagForModelMultiplyColors m' = getOverrideFlagForModelMultiplyColors m
  ∧ getOverrideFlagForModelScreenColors m' = getOverrideFlagForModelScreenColors m
  ∧ getOverrideFlagForModelCullings m' = getOverrideFlagForModelCullings m
  ∧ getModelOapcity m' = getModelOapcity m.
Proof.
  intros Hcalls Ha.
  assert (same_overrides m m' ∧ same_asset m m') as [Ho Hs].
  { eapply (after_ind (λ m m', same_overrides m m' ∧ same_asset m m')
              (λ c, override_call c = false)); [| | | exact Hcalls | exact Ha].
    - intros m0. split; [apply same_overrides_refl | apply same_asset_refl].
    - intros m1 m2 m3 [? ?] [? ?].
      split; [by eapply same_overrides_trans | by eapply same_asset_trans].
    - intros c m1 m2 Hc Hr.
      split; [by eapply same_overrides_value_call | by eapply same_asset_run]. }
  destruct Ho as (Hmc & Hsc & Hpmc & Hpsc & Hrd & Hobj & Hfr & Hfm & Hfs & Hfc & Hop).
  destruct Hs as (Hdr & _ & _ & _ & _ & _ & _ & _ & _ & _ & _ & _ & _ & _
                  & _ & _ & Hcull & _).
  unfold getMultiplyColor, getScreenColor, getDrawableCulling,
    getOverrideFlagForDrawableMultiplyColors, getOverrideFlagForDrawableScreenColors,
    getOverrideFlagForDrawableCullings, getPartMultiplyColor, getPartScreenColor,
    getOverrideColorForPartMultiplyColors, getOverrideColorForPartScreenColors,
    getOverrideFlagForParameterRepeat, getRepeatFlagForParameterRepeat,
    getOverrideFlagForModelParameterRepeat, getOverrideFlagForModelMultiplyColors,
    getOverrideFlagForModelScreenColors, getOverrideFlagForModelCullings,
    getModelOapcity, getDrawableMultiplyColor, getDrawableScreenColor, userCulling,
    getOverrideFlagForDrawableMultiplyColors, getOverrideFlagForDrawableScreenColors.
  rewrite Hmc, Hsc, Hpmc, Hpsc, Hrd, Hobj, Hfr, Hfm, Hfs, Hfc, Hop, Hdr, Hcull.
  done.
Qed.

Lemma value_calls_keep_overrides_witness :
  ∃ m',
    after [SetParameterValueById "Angle" 20 1; SetPartOpacityById "Tail" 0.5;
           SaveParameters; LoadParameters] (initial sample) = Some m'
    ∧ getMultiplyColor 0 m' = Some white
    ∧ getDrawableCulling 0 m' = Some true.
Proof.
  destruct (after [SetParameterValueById "Angle" 20 1; SetPartOpacityById "Tail" 0.5;
                   SaveParameters; LoadParameters] (initial sample))
    as [m' |] eqn:Ha; [| vm_compute in Ha; discriminate].
  destruct (value_calls_keep_overrides _ _ _ ltac:(repeat constructor) Ha)
    as (Hd & _).
  exists m'. split; [reflexivity |].
  destruct (Hd 0) as (-> & _ & -> & _). split; reflexivity.
Defined.

(** ** Restoring saved parameters *)






(** X7: [setPartMultiplyColorByRGBA] on a part of the asset stores the
    colour in the part's record and keeps the part's flag and the records
    of the other parts.  When the part's flag is set, the colour is also
    written to the record of each child drawable, whose flag stays; no other
    drawable record changes, and none at all when the part's flag is clear.
    [setPartScreenColorByRGBA] does the same on the screen colours. *)
Theorem part_color_reaches_children (m : CubismModel) (p : Z) (r g b a : number) :
  reachable m → 0 ≤ p < getPartCount m →
  ∃ children,
    csmVector.at_ (_partChildDrawables m) p = Some children
    ∧ (∃ flag m',
         getOverrideColorForPartMultiplyColors p m = Some flag
         ∧ setPartMultiplyColorByRGBA p r g b a m = Some m'
         ∧ getPartMultiplyColor p m' = Some (CubismTextureColor.Build r g b a)
         ∧ getOverrideColorForPartMultiplyColors p m' = Some flag
         ∧ (∀ q, q ≠ p → csmVector.at_ (_userPartMultiplyColors m') q
                          = csmVector.at_ (_userPartMultiplyColors m) q)
         ∧ (∀ d, csmVector.at_ (_userMultiplyColors m') d
                 = if decide (flag = true ∧ d ∈ children)
                   then painted (CubismTextureColor.Build r g b a)
                          <$> csmVector.at_ (_userMultiplyColors m) d
                   else csmVector.at_ (_userMultiplyColors m) d))
    ∧ (∃ flag m',
         getOverrideColorForPartScreenColors p m = Some flag
         ∧ setPartScreenColorByRGBA p r g b a m = Some m'
         ∧ getPartScreenColor p m' = Some (CubismTextureColor.Build r g b a)
         ∧ getOverrideColorForPartScreenColors p m' = Some flag
         ∧ (∀ q, q ≠ p → csmVector.at_ (_userPartScreenColors m') q
                          = csmVector.at_ (_userPartScreenColors m) q)
         ∧ (∀ d, csmVector.at_ (_userScreenColors m') d
                 = if decide (flag = true ∧ d ∈ children)
                   then painted (CubismTextureColor.Build r g b a)
                          <$> csmVector.at_ (_userScreenColors m) d
                   else csmVector.at_ (_userScreenColors m) d)).
Proof.
  intros Hr Hp. pose proof (reachable_Inv m Hr) as HI.
  destruct (setPartMultiplyColorByRGBA_paint m p r g b a HI Hp)
    as (part & children & dc & Hpart & Hch & Hset & Hoff & Hon).
  destruct (setPartScreenColorByRGBA_paint m p r g b a HI Hp)
    as (part' & children' & dc' & Hpart' & Hch' & Hset' & Hoff' & Hon').
  rewrite Hch in Hch'. injection Hch' as <-.
  exists children. split; [exact Hch |]. split.
  - exists (PartColorData.isOverridden part). eexists.
    split; [unfold getOverrideColorForPartMultiplyColors; by rewrite Hpart |].
    split; [exact Hset |].
    assert (0 ≤ p < Z.of_nat (length (_userPartMultiplyColors m))) as Hlen
      by (by rewrite (inv_partMultiplyColors m HI)).
    split; [| split; [| split]].
    + unfold getPartMultiplyColor, csmVector.at_. cbn.
      by rewrite index_vector_set_eq.
    + unfold getOverrideColorForPartMultiplyColors, csmVector.at_. cbn.
      by rewrite index_vector_set_eq.
    + intros q Hq. unfold csmVector.at_. cbn. by rewrite index_vector_set_ne.
    + intros d. unfold csmVector.at_. cbn.
      destruct (PartColorData.isOverridden part) eqn:Hflag.
      * rewrite (Hon eq_refl d).
        destruct (decide (d ∈ children)).
        -- by rewrite decide_True.
        -- rewrite decide_False; [done | tauto].
      * rewrite (Hoff eq_refl). rewrite decide_False; [done |]. by intros [? _].
  - exists (PartColorData.isOverridden part'). eexists.
    split; [unfold getOverrideColorForPartScreenColors; by rewrite Hpart' |].
    split; [exact Hset' |].
    assert (0 ≤ p < Z.of_nat (length (_userPartScreenColors m))) as Hlen
      by (by rewrite (inv_partScreenColors m HI)).
    split; [| split; [| split]].
    + unfold getPartScreenColor, csmVector.at_. cbn.
      by rewrite index_vector_set_eq.
    + unfold getOverrideColorForPartScreenColors, csmVector.at_. cbn.
      by rewrite index_vector_set_eq.
    + intros q Hq. unfold csmVector.at_. cbn. by rewrite index_vector_set_ne.
    + intros d. unfold csmVector.at_. cbn.
      destruct (PartColorData.isOverridden part') eqn:Hflag.
      * rewrite (Hon' eq_refl d).
        destruct (decide (d ∈ children)).
        -- by rewrite decide_True.
        -- rewrite decide_False; [done | tauto].
      * rewrite (Hoff' eq_refl). rewrite decide_False; [done |]. by intros [? _].
Qed.

Lemma part_color_reaches_children_witness :
  ∃ m m',
    setOverrideColorForPartScreenColors 0 true (initial sample2) = Some m
    ∧ setPartScreenColorByRGBA 0 1 0 0 1 m = Some m'
    ∧ csmVector.at_ (_partChildDrawables m) 0 = Some [0; 1]
    ∧ csmVector.at_ (_userScreenColors m') 1
      = Some (DrawableColorData.Build true red).
Proof.
  destruct (setOverrideColorForPartScreenColors 0 true (initial sample2))
    as [m |] eqn:Hm; [| vm_compute in Hm; discriminate].
  assert (reachable m) as Hr.
  { eapply (reachable_run (SetOverrideColorForPartScreenColors 0 true));
      [apply reachable_initial, sample2_ok | exact Hm]. }
  destruct (part_color_reaches_children m 0 1 0 0 1 Hr)
    as (children & Hch & _ & (flag & m' & Hflag & Hset & _ & _ & _ & Hd)).
  { vm_compute in Hm. injection Hm as <-. by vm_compute. }
  exists m, m'. split; [reflexivity |]. split; [exact Hset |].
  assert (children = [0; 1] ∧ flag = true) as [-> ->].
  { vm_compute in Hm. injection Hm as <-. vm_compute in Hch, Hflag.
    by simplify_eq. }
  split; [exact Hch |]. rewrite Hd.
  rewrite decide_True by (split; [done | set_solver]).
  vm_compute in Hm. injection Hm as <-. reflexivity.
Defined.

(** X8: enabling the override of a part of the asset
    ([setOverrideColorForPartMultiplyColors] with [true]) sets the part's
    flag and keeps its colour; every child drawable gets its flag set and
    the part's colour, so that [getMultiplyColor] resolves to the part's
    colour for each child; the records of the other drawables stay.
    [setOverrideColorForPartScreenColors] does the same on the screen
    colours. *)
Theorem part_override_enable (m : CubismModel) (p : Z) :
  reachable m → 0 ≤ p < getPartCount m →
  ∃ children,
    csmVector.at_ (_partChildDrawables m) p = Some children
    ∧ (∃ color m',
         getPartMultiplyColor p m = Some color
         ∧ setOverrideColorForPartMultiplyColors p true m = Some m'
         ∧ getOverrideColorForPartMultiplyColors p m' = Some true
         ∧ getPartMultiplyColor p m' = Some color
         ∧ (∀ d, d ∈ children →
                 getOverrideFlagForDrawableMultiplyColors d m' = Some true
                 ∧ getMultiplyColor d m' = Some color)
         ∧ (∀ d, d ∉ children →
                 csmVector.at_ (_userMultiplyColors m') d
                 = csmVector.at_ (_userMultiplyColors m) d))
    ∧ (∃ color m',
         getPartScreenColor p m = Some color
         ∧ setOverrideColorForPartScreenColors p true m = Some m'
         ∧ getOverrideColorForPartScreenColors p m' = Some true
         ∧ getPartScreenColor p m' = Some color
         ∧ (∀ d, d ∈ children →
                 getOverrideFlagForDrawableScreenColors d m' = Some true
                 ∧ getScreenColor d m' = Some color)
         ∧ (∀ d, d ∉ children →
                 csmVector.at_ (_userScreenColors m') d
                 = csmVector.at_ (_userScreenColors m) d)).
Proof.
  intros Hr Hp. pose proof (reachable_Inv m Hr) as HI.
  destruct (children_are_children m p HI Hp) as (children0 & Hch0 & Hrange & _).
  destruct (setOverrideColorForPartMultiplyColors_cascade m p true HI Hp)
    as (part & children & dc & Hpart & Hch & Hset & Hdc).
  destruct (setOverrideColorForPartScreenColors_cascade m p true HI Hp)
    as (part' & children' & dc' & Hpart' & Hch' & Hset' & Hdc').
  rewrite Hch0 in Hch, Hch'. injection Hch as <-. injection Hch' as <-.
  exists children0. split; [exact Hch0 |]. split.
  - exists (PartColorData.color part). eexists.
    split; [unfold getPartMultiplyColor; by rewrite Hpart |].
    split; [exact Hset |].
    assert (0 ≤ p < Z.of_nat (length (_userPartMultiplyColors m))) as Hlen
      by (by rewrite (inv_partMultiplyColors m HI)).
    split; [| split; [| split]].
    + unfold getOverrideColorForPartMultiplyColors, csmVector.at_. cbn.
      by rewrite index_vector_set_eq.
    + unfold getPartMultiplyColor, csmVector.at_. cbn.
      by rewrite index_vector_set_eq.
    + intros d Hd.
      assert (0 ≤ d < getDrawableCount m) as Hdr.
      { rewrite Forall_forall in Hrange. by apply Hrange. }
      destruct (proj2 (index_is_Some (_userMultiplyColors m) d)) as [rec Hrec];
        [by rewrite (inv_multiplyColors m HI) |].
      assert (index dc d
              = Some (DrawableColorData.Build true (PartColorData.color part)))
        as Hnew.
      { rewrite Hdc, decide_True by done. by rewrite Hrec. }
      unfold getMultiplyColor, getOverrideFlagForDrawableMultiplyColors,
        csmVector.at_. cbn. rewrite Hnew. cbn. split; [done |].
      by case_match.
    + intros d Hd. unfold csmVector.at_. cbn. rewrite Hdc.
      by rewrite decide_False.
  - exists (PartColorData.color part'). eexists.
    split; [unfold getPartScreenColor; by rewrite Hpart' |].
    split; [exact Hset' |].
    assert (0 ≤ p < Z.of_nat (length (_userPartScreenColors m))) as Hlen
      by (by rewrite (inv_partScreenColors m HI)).
    split; [| split; [| split]].
    + unfold getOverrideColorForPartScreenColors, csmVector.at_. cbn.
      by rewrite index_vector_set_eq.
    + unfold getPartScreenColor, csmVector.at_. cbn.
      by rewrite index_vector_set_eq.
    + intros d Hd.
      assert (0 ≤ d < getDrawableCount m) as Hdr.
      { rewrite Forall_forall in Hrange. by apply Hrange. }
      destruct (proj2 (index_is_Some (_userScreenColors m) d)) as [rec Hrec];
        [by rewrite (inv_screenColors m HI) |].
      assert (index dc' d
              = Some (DrawableColorData.Build true (PartColorData.color part')))
        as Hnew.
      { rewrite Hdc', decide_True by done. by rewrite Hrec. }
      unfold getScreenColor, getOverrideFlagForDrawableScreenColors,
        csmVector.at_. cbn. rewrite Hnew. cbn. split; [done |].
      by case_match.
    + intros d Hd. unfold csmVector.at_. cbn. rewrite Hdc'.
      by rewrite decide_False.
Qed.

Lemma part_override_enable_witness :
  ∃ m m',
    setPartMultiplyColorByRGBA 0 1 0 0 1 (initial sample2) = Some m
    ∧ getMultiplyColor 1 m = Some white
    ∧ setOverrideColorForPartMultiplyColors 0 true m = Some m'
    ∧ getMultiplyColor 1 m' = Some red.
Proof.
  destruct (setPartMultiplyColorByRGBA 0 1 0 0 1 (initial sample2))
    as [m |] eqn:Hm; [| vm_compute in Hm; discriminate].
  assert (reachable m) as Hr.
  { eapply (reachable_run (SetPartMultiplyColorByRGBA 0 1 0 0 1));
      [apply reachable_initial, sample2_ok | exact Hm]. }
  destruct (part_override_enable m 0 Hr)
    as (children & Hch & (color & m' & Hcolor & Hset & _ & _ & Hd & _) & _).
  { vm_compute in Hm. injection Hm as <-. by vm_compute. }
  exists m, m'. split; [reflexivity |].
  split; [vm_compute in Hm; injection Hm as <-; reflexivity |].
  split; [exact Hset |].
  assert (children = [0; 1] ∧ color = red) as [-> ->].
  { vm_compute in Hm. injection Hm as <-. vm_compute in Hch, Hcolor.
    by simplify_eq. }
  apply Hd. set_solver.
Defined.

(** ** The override record of a drawable *)

Lemma getMultiplyColor_resolved (m : CubismModel) (d : Z) (rec : DrawableColorData.t) :
  csmVector.at_ (_userMultiplyColors m) d = Some rec →
  getMultiplyColor d m
  = if getOverrideFlagForModelMultiplyColors m || DrawableColorData.isOverridden rec
    then Some (DrawableColorData.color rec)
    else getDrawableMultiplyColor d m.
Proof.
  intros Hrec. destruct rec as [flag c].
  unfold getMultiplyColor, getOverrideFlagForDrawableMultiplyColors. rewrite Hrec.
  simpl. by destruct (getOverrideFlagForModelMultiplyColors m), flag.
Qed.

Lemma getScreenColor_resolved (m : CubismModel) (d : Z) (rec : DrawableColorData.t) :
  csmVector.at_ (_userScreenColors m) d = Some rec →
  getScreenColor d m
  = if getOverrideFlagForModelScreenColors m || DrawableColorData.isOverridden rec
    then Some (DrawableColorData.color rec)
    else getDrawableScreenColor d m.
Proof.
  intros Hrec. destruct rec as [flag c].
  unfold getScreenColor, getOverrideFlagForDrawableScreenColors. rewrite Hrec.
  simpl. by destruct (getOverrideFlagForModelScreenColors m), flag.
Qed.

(** X9: [setMultiplyColorByRGBA] on a drawable of the asset writes the
    colour into the drawable's record and keeps the record's flag and the
    records of the other drawables; [getMultiplyColor] then returns the
    written colour when the model-wide flag or the drawable's flag is set,
    and still the asset's colour otherwise.  [setScreenColorByRGBA] does
    the same on the screen colours. *)
Theorem drawable_color_write (m : CubismModel) (d : Z) (r g b a : number) :
  reachable m → 0 ≤ d < getDrawableCount m →
  (∃ rec m',
      csmVector.at_ (_userMultiplyColors m) d = Some rec
      ∧ setMultiplyColorByRGBA d r g b a m = Some m'
      ∧ csmVector.at_ (_userMultiplyColors m') d
        = Some (painted (CubismTextureColor.Build r g b a) rec)
      ∧ (∀ e, e ≠ d → csmVector.at_ (_userMultiplyColors m') e
                       = csmVector.at_ (_userMultiplyColors m) e)
      ∧ getMultiplyColor d m'
        = if getOverrideFlagForModelMultiplyColors m
             || DrawableColorData.isOverridden rec
          then Some (CubismTextureColor.Build r g b a)
          else getDrawableMultiplyColor d m)
  ∧ (∃ rec m',
        csmVector.at_ (_userScreenColors m) d = Some rec
        ∧ setScreenColorByRGBA d r g b a m = Some m'
        ∧ csmVector.at_ (_userScreenColors m') d
          = Some (painted (CubismTextureColor.Build r g b a) rec)
        ∧ (∀ e, e ≠ d → csmVector.at_ (_userScreenColors m') e
                         = csmVector.at_ (_userScreenColors m) e)
        ∧ getScreenColor d m'
          = if getOverrideFlagForModelScreenColors m
               || DrawableColorData.isOverridden rec
            then Some (CubismTextureColor.Build r g b a)
            else getDrawableScreenColor d m).
Proof.
  intros Hr Hd. pose proof (reachable_Inv m Hr) as HI. split.
  - assert (0 ≤ d < Z.of_nat (length (_userMultiplyColors m))) as Hlen
      by (by rewrite (inv_multiplyColors m HI)).
    destruct (proj2 (index_is_Some (_userMultiplyColors m) d) Hlen) as [rec Hrec].
    exists rec. eexists. split; [exact Hrec |].
    split.
    { unfold setMultiplyColorByRGBA, write_drawable_color, csmVector.at_.
      rewrite Hrec. reflexivity. }
    assert (index (csmVector.set (_userMultiplyColors m) d
                     (painted (CubismTextureColor.Build r g b a) rec)) d
            = Some (painted (CubismTextureColor.Build r g b a) rec)) as Hnew
      by (by apply index_vector_set_eq).
    split; [exact Hnew |]. split.
    + intros e He. by apply index_vector_set_ne.
    + erewrite getMultiplyColor_resolved by exact Hnew. reflexivity.
  - assert (0 ≤ d < Z.of_nat (length (_userScreenColors m))) as Hlen
      by (by rewrite (inv_screenColors m HI)).
    destruct (proj2 (index_is_Some (_userScreenColors m) d) Hlen) as [rec Hrec].
    exists rec. eexists. split; [exact Hrec |].
    split.
    { unfold setScreenColorByRGBA, write_drawable_color, csmVector.at_.
      rewrite Hrec. reflexivity. }
    assert (index (csmVector.set (_userScreenColors m) d
                     (painted (CubismTextureColor.Build r g b a) rec)) d
            = Some (painted (CubismTextureColor.Build r g b a) rec)) as Hnew
      by (by apply index_vector_set_eq).
    split; [exact Hnew |]. split.
    + intros e He. by apply index_vector_set_ne.
    + erewrite getScreenColor_resolved by exact Hnew. reflexivity.
Qed.

Lemma drawable_color_write_witness :
  ∃ m',
    setMultiplyColorByRGBA 0 1 0 0 1 (initial sample) = Some m'
    ∧ getMultiplyColor 0 m' = Some white
    ∧ getMultiplyColor 0 (setOverrideFlagForModelMultiplyColors true m') = Some red.
Proof.
  destruct (drawable_color_write (initial sample) 0 1 0 0 1
              (reachable_initial sample sample_ok))
    as ((rec & m' & Hrec & Hset & _ & _ & Hget) & _); [by vm_compute |].
  exists m'. split; [exact Hset |]. split.
  - rewrite Hget. vm_compute in Hrec. injection Hrec as <-. reflexivity.
  - vm_compute in Hset. injection Hset as <-. reflexivity.
Defined.

(** X10: [setOverrideFlagForDrawableMultiplyColors] on a drawable of the
    asset writes the flag of the drawable's record and keeps the record's
    colour and the records of the other drawables; [getMultiplyColor] then
    returns the record's colour when the model-wide flag or the new flag is
    set, and the asset's colour otherwise.
    [setOverrideFlagForDrawableScreenColors] does the same on the screen
    colours. *)
Theorem drawable_flag_write (m : CubismModel) (d : Z) (v : bool) :
  reachable m → 0 ≤ d < getDrawableCount m →
  (∃ rec m',
      csmVector.at_ (_userMultiplyColors m) d = Some rec
      ∧ setOverrideFlagForDrawableMultiplyColors d v m = Some m'
      ∧ csmVector.at_ (_userMultiplyColors m') d
        = Some (DrawableColorData.Build v (DrawableColorData.color rec))
      ∧ (∀ e, e ≠ d → csmVector.at_ (_userMultiplyColors m') e
                       = csmVector.at_ (_userMultiplyColors m) e)
      ∧ getMultiplyColor d m'
        = if getOverrideFlagForModelMultiplyColors m || v
          then Some (DrawableColorData.color rec)
          else getDrawableMultiplyColor d m)
  ∧ (∃ rec m',
        csmVector.at_ (_userScreenColors m) d = Some rec
        ∧ setOverrideFlagForDrawableScreenColors d v m = Some m'
        ∧ csmVector.at_ (_userScreenColors m') d
          = Some (DrawableColorData.Build v (DrawableColorData.color rec))
        ∧ (∀ e, e ≠ d → csmVector.at_ (_userScreenColors m') e
                         = csmVector.at_ (_userScreenColors m) e)
        ∧ getScreenColor d m'
          = if getOverrideFlagForModelScreenColors m || v
            then Some (DrawableColorData.color rec)
            else getDrawableScreenColor d m).
Proof.
  intros Hr Hd. pose proof (reachable_Inv m Hr) as HI. split.
  - assert (0 ≤ d < Z.of_nat (length (_userMultiplyColors m))) as Hlen
      by (by rewrite (inv_multiplyColors m HI)).
    destruct (proj2 (index_is_Some (_userMultiplyColors m) d) Hlen) as [rec Hrec].
    exists rec. eexists. split; [exact Hrec |].
    split.
    { unfold setOverrideFlagForDrawableMultiplyColors, csmVector.at_.
      rewrite Hrec. reflexivity. }
    assert (index (csmVector.set (_userMultiplyColors m) d
                     (DrawableColorData.Build v (DrawableColorData.color rec))) d
            = Some (DrawableColorData.Build v (DrawableColorData.color rec)))
      as Hnew by (by apply index_vector_set_eq).
    split; [exact Hnew |]. split.
    + intros e He. by apply index_vector_set_ne.
    + erewrite getMultiplyColor_resolved by exact Hnew. reflexivity.
  - assert (0 ≤ d < Z.of_nat (length (_userScreenColors m))) as Hlen
      by (by rewrite (inv_screenColors m HI)).
    destruct (proj2 (index_is_Some (_userScreenColors m) d) Hlen) as [rec Hrec].
    exists rec. eexists. split; [exact Hrec |].
    split.
    { unfold setOverrideFlagForDrawableScreenColors, csmVector.at_.
      rewrite Hrec. reflexivity. }
    assert (index (csmVector.set (_userScreenColors m) d
                     (DrawableColorData.Build v (DrawableColorData.color rec))) d
            = Some (DrawableColorData.Build v (DrawableColorData.color rec)))
      as Hnew by (by apply index_vector_set_eq).
    split; [exact Hnew |]. split.
    + intros e He. by apply index_vector_set_ne.
    + erewrite getScreenColor_resolved by exact Hnew. reflexivity.
Qed.

Lemma drawable_flag_write_witness :
  ∃ m',
    setOverrideFlagForDrawableScreenColors 1 true (initial sample2) = Some m'
    ∧ getScreenColor 1 m' = Some black
    ∧ getOverrideFlagForDrawableScreenColors 0 m' = Some false.
Proof.
  destruct (drawable_flag_write (initial sample2) 1 true
              (reachable_initial sample2 sample2_ok))
    as (_ & (rec & m' & Hrec & Hset & _ & Hother & Hget)); [by vm_compute |].
  exists m'. split; [exact Hset |]. split.
  - rewrite Hget. vm_compute in Hrec. injection Hrec as <-. reflexivity.
  - unfold getOverrideFlagForDrawableScreenColors. rewrite Hother by done.
    reflexivity.
Defined.

(** ** Identifiers and indices *)

(** The scan returns the first index that holds the identifier. *)
Lemma scan_first (ids : list CubismIdHandle) (id : CubismIdHandle) (i count : Z) :
  Z.of_nat (length ids) = count →
  index ids i = Some id →
  ∃ k, scan ids id 0 (Z.to_nat count) = Some k
       ∧ 0 ≤ k ≤ i
       ∧ index ids k = Some id
       ∧ (∀ j, 0 ≤ j < k → index ids j ≠ Some id)
       ∧ (NoDup ids → k = i).
Proof.
  intros Hlen Hi.
  assert (0 ≤ i < count) as Hrange.
  { rewrite <- Hlen. apply index_is_Some. eauto. }
  destruct (scan ids id 0 (Z.to_nat count)) as [k |] eqn:Hscan.
  - apply scan_Some in Hscan as (Hk & Hidk & Hfirst).
    exists k. split; [done |].
    assert (k ≤ i) as Hle.
    { destruct (decide (k ≤ i)) as [| Hgt]; [done |].
      exfalso. apply (Hfirst i); [lia | done]. }
    split; [lia |]. split; [done |]. split; [intros j Hj; apply Hfirst; lia |].
    intros Hnodup. apply index_Some in Hidk as [_ Hidk].
    apply index_Some in Hi as [_ Hi].
    pose proof (NoDup_lookup _ _ _ _ Hnodup Hidk Hi). lia.
  - exfalso. rewrite scan_None in Hscan. apply (Hscan i); [lia | done].
Qed.

(** X11: the identifier of an index and the index of an identifier agree.
    For a parameter of the asset, [getParameterIndex] on the identifier
    that [getParameterId] returns for index [i] changes no state and
    returns the first index that holds this identifier, which is at most
    [i], and is [i] when the identifiers of the asset are distinct.  The
    same holds for [getPartId] with [getPartIndex] and for [getDrawableId]
    with [getDrawableIndex]. *)
Theorem id_index_round_trip (m : CubismModel) (i : Z) :
  reachable m →
  (0 ≤ i < getParameterCount m →
   ∃ id k,
     getParameterId i m = Some id
     ∧ getParameterIndex id m = Some (k, m)
     ∧ 0 ≤ k ≤ i
     ∧ getParameterId k m = Some id
     ∧ (∀ j, 0 ≤ j < k → getParameterId j m ≠ Some id)
     ∧ (NoDup (Parameters.ids (Model.parameters (_model m))) → k = i))
  ∧ (0 ≤ i < getPartCount m →
     ∃ id k,
       getPartId i m = Some id
       ∧ getPartIndex id m = Some (k, m)
       ∧ 0 ≤ k ≤ i
       ∧ getPartId k m = Some id
       ∧ (∀ j, 0 ≤ j < k → getPartId j m ≠ Some id)
       ∧ (NoDup (Parts.ids (Model.parts (_model m))) → k = i))
  ∧ (0 ≤ i < getDrawableCount m →
     ∃ id,
       getDrawableId i m = Some id
       ∧ 0 ≤ getDrawableIndex id m ≤ i
       ∧ getDrawableId (getDrawableIndex id m) m = Some id
       ∧ (∀ j, 0 ≤ j < getDrawableIndex id m → getDrawableId j m ≠ Some id)
       ∧ (NoDup (Drawables.ids (Model.drawables (_model m)))
          → getDrawableIndex id m = i)).
Proof.
  intros Hr. pose proof (reachable_Inv m Hr) as HI.
  pose proof (inv_snapshot m HI)
    as (_ & _ & _ & Hpl & _ & _ & _ & _ & Hql & _ & Hdl & _).
  assert (∀ (ids : list CubismIdHandle) (j : Z) (id : CubismIdHandle),
            (x ← index ids j; Some (CubismIdManager.getId x)) = Some id
            ↔ index ids j = Some id) as Hid.
  { intros ids j id. unfold CubismIdManager.getId.
    destruct (index ids j); simpl; naive_solver. }
  split; [| split].
  - intros Hi.
    destruct (proj2 (index_is_Some (Parameters.ids (Model.parameters (_model m))) i))
      as [id Hidx]; [unfold getParameterCount in Hi; lia |].
    destruct (scan_first _ id i _ Hpl Hidx) as (k & Hscan & Hk & Hidk & Hfirst & Hnd).
    exists id, k. unfold getParameterId. rewrite !Hid.
    split; [done |]. split.
    { unfold getParameterIndex. rewrite (inv_parameterIds m HI), Hscan. done. }
    split; [done |]. split; [done |]. split; [| done].
    intros j Hj. rewrite Hid. by apply Hfirst.
  - intros Hi.
    destruct (proj2 (index_is_Some (Parts.ids (Model.parts (_model m))) i))
      as [id Hidx]; [unfold getPartCount in Hi; lia |].
    destruct (scan_first _ id i _ Hql Hidx) as (k & Hscan & Hk & Hidk & Hfirst & Hnd).
    exists id, k. unfold getPartId. rewrite !Hid.
    split; [done |]. split.
    { unfold getPartIndex. rewrite (inv_partIds m HI), Hscan. done. }
    split; [done |]. split; [done |]. split; [| done].
    intros j Hj. rewrite Hid. by apply Hfirst.
  - intros Hi.
    destruct (proj2 (index_is_Some (Drawables.ids (Model.drawables (_model m))) i))
      as [id Hidx]; [unfold getDrawableCount in Hi; lia |].
    destruct (scan_first _ id i _ Hdl Hidx) as (k & Hscan & Hk & Hidk & Hfirst & Hnd).
    exists id.
    assert (getDrawableIndex id m = k) as ->.
    { unfold getDrawableIndex. rewrite (inv_drawableIds m HI), Hscan. done. }
    unfold getDrawableId. cbv zeta. rewrite !Hid.
    split; [done |]. split; [done |]. split; [done |]. split; [| done].
    intros j Hj. rewrite Hid. by apply Hfirst.
Qed.

Lemma id_index_round_trip_witness :
  getParameterId 1 (initial sample) = Some "Turn"
  ∧ getParameterIndex "Turn" (initial sample) = Some (1, initial sample)
  ∧ getDrawableIndex "Hair" (initial sample2) = 1.
Proof.
  destruct (id_index_round_trip (initial sample) 1
              (reachable_initial sample sample_ok)) as (Hp & _ & _).
  destruct Hp as (id & k & Hid & Hget & _ & _ & _ & Hk); [by vm_compute |].
  destruct (id_index_round_trip (initial sample2) 1
              (reachable_initial sample2 sample2_ok)) as (_ & _ & Hd).
  destruct Hd as (id' & Hid' & _ & _ & _ & Hk'); [by vm_compute |].
  vm_compute in Hid, Hid'. injection Hid as <-. injection Hid' as <-.
  split; [reflexivity |]. split.
  - rewrite Hget, Hk; [done |]. vm_compute. repeat constructor; set_solver.
  - apply Hk'. vm_compute. repeat constructor; set_solver.
Defined.

(** ** The state after [initialize] *)

(** X12: on a well-formed snapshot the constructor and [initialize] give a
    model over that snapshot in which the model-wide repeat override is
    set, the model-wide colour and culling overrides are clear, the model
    opacity is [1] and nothing is saved; each parameter has both repeat
    flags clear; each part and each drawable has the multiply colour
    [(1,1,1,1)] and the screen colour [(0,0,0,1)] with the flags clear, and
    each drawable has its culling flag clear. *)
Theorem initialize_defaults (s : Model.t) :
  snapshot_ok s →
  ∃ m,
    initialize (CubismModel_constructor s) = Some m
    ∧ _model m = s
    ∧ getOverrideFlagForModelParameterRepeat m = true
    ∧ getOverrideFlagForModelMultiplyColors m = false
    ∧ getOverrideFlagForModelScreenColors m = false
    ∧ getOverrideFlagForModelCullings m = false
    ∧ getModelOapcity m = 1%float
    ∧ _savedParameters m = []
    ∧ (∀ i, 0 ≤ i < getParameterCount m →
            getOverrideFlagForParameterRepeat i m = Some false
            ∧ getRepeatFlagForParameterRepeat i m = Some false)
    ∧ (∀ p, 0 ≤ p < getPartCount m →
            getPartMultiplyColor p m = Some white
            ∧ getPartScreenColor p m = Some black
            ∧ getOverrideColorForPartMultiplyColors p m = Some false
            ∧ getOverrideColorForPartScreenColors p m = Some false)
    ∧ (∀ d, 0 ≤ d < getDrawableCount m →
            csmVector.at_ (_userMultiplyColors m) d
            = Some (DrawableColorData.Build false white)
            ∧ csmVector.at_ (_userScreenColors m) d
              = Some (DrawableColorData.Build false black)
            ∧ getOverrideFlagForDrawableCullings d m = Some false).
Proof.
  intros Hs. exists (initial s). split; [by apply initialize_initial |].
  pose proof Hs as (Hpc & Hqc & Hdc & _).
  do 7 (split; [reflexivity |]).
  split; [| split].
  - intros i Hi. unfold getParameterCount in Hi. cbn in Hi.
    unfold getOverrideFlagForParameterRepeat, getRepeatFlagForParameterRepeat,
      csmVector.at_. cbn.
    rewrite index_replicate by lia. done.
  - intros p Hp. unfold getPartCount in Hp. cbn in Hp.
    unfold getPartMultiplyColor, getPartScreenColor,
      getOverrideColorForPartMultiplyColors, getOverrideColorForPartScreenColors,
      csmVector.at_. cbn.
    rewrite !index_replicate by lia. done.
  - intros d Hd. unfold getDrawableCount in Hd. cbn in Hd.
    unfold getOverrideFlagForDrawableCullings, userCulling, csmVector.at_. cbn.
    rewrite !index_replicate by lia. done.
Qed.

Lemma initialize_defaults_witness :
  ∃ m,
    initialize (CubismModel_constructor sample2) = Some m
    ∧ getPartScreenColor 0 m = Some black
    ∧ getOverrideFlagForDrawableCullings 1 m = Some false.
Proof.
  destruct (initialize_defaults sample2 sample2_ok)
    as (m & Hi & Hmodel & _ & _ & _ & _ & _ & _ & _ & Hp & Hd).
  exists m. split; [exact Hi |].
  unfold getPartCount in Hp. unfold getDrawableCount in Hd.
  rewrite Hmodel in Hp, Hd.
  split.
  - destruct (Hp 0) as (_ & H & _); [clear; by vm_compute | exact H].
  - destruct (Hd 1) as (_ & _ & H); [clear; by vm_compute | exact H].
Defined.

(** ** The children of the parts *)

Lemma children_of_increasing (s : Model.t) (nd : nat) (p : Z) :
  (∀ (a b : nat) (x y : Z),
      (a < b)%nat →
      children_of s nd p !! a = Some x → children_of s nd p !! b = Some y → x < y)
  ∧ Forall (λ d, 0 ≤ d < Z.of_nat nd) (children_of s nd p).
Proof.
  induction nd as [| nd [IHs IHr]].
  - split; [by intros a b x y _ Hx | constructor].
  - rewrite children_of_S.
    assert (Forall (λ d, 0 ≤ d < Z.of_nat (S nd)) (children_of s nd p)) as IHr'.
    { eapply Forall_impl; [exact IHr |]. simpl. intros; lia. }
    case_decide; [| by rewrite app_nil_r].
    split.
    + intros a b x y Hab Hx Hy.
      apply lookup_app_Some in Hy as [Hy | [Hlen Hy]].
      * apply lookup_app_Some in Hx as [Hx | [Hlen' _]]; [by eapply IHs |].
        apply lookup_lt_Some in Hy. lia.
      * apply list_lookup_singleton_Some in Hy as [Hb <-].
        apply lookup_app_Some in Hx as [Hx | [Hlen' Hx]].
        -- rewrite Forall_lookup in IHr. apply IHr in Hx. lia.
        -- apply list_lookup_singleton_Some in Hx as [? _]. lia.
    + apply Forall_app. split; [done |]. repeat constructor; lia.
Qed.

(** X13: in every state of a model there is one list of children per part;
    the list of a part holds the drawables whose parent is this part, each
    once and in increasing order.  So a drawable is in the list of its
    parent part and in no other list, and a drawable without a parent part
    is in none. *)
Theorem child_lists (m : CubismModel) :
  reachable m →
  csmVector.getSize (_partChildDrawables m) = getPartCount m
  ∧ (∀ p children,
        csmVector.at_ (_partChildDrawables m) p = Some children →
        (∀ (a b : nat) (x y : Z),
            (a < b)%nat → children !! a = Some x → children !! b = Some y → x < y)
        ∧ NoDup children
        ∧ ∀ d, d ∈ children
               ↔ 0 ≤ d < getDrawableCount m
                 ∧ getDrawableParentPartIndex d m = Some p)
  ∧ (∀ d, 0 ≤ d < getDrawableCount m →
          ∃ q, getDrawableParentPartIndex d m = Some q
               ∧ -1 ≤ q < getPartCount m
               ∧ ∀ p children,
                   csmVector.at_ (_partChildDrawables m) p = Some children →
                   (d ∈ children ↔ p = q)).
Proof.
  intros Hr. pose proof (reachable_Inv m Hr) as HI.
  assert (∀ p children,
            csmVector.at_ (_partChildDrawables m) p = Some children →
            0 ≤ p < getPartCount m
            ∧ children = children_of (_model m) (Z.to_nat (getDrawableCount m)) p)
    as Hlist.
  { intros p children Hch.
    assert (0 ≤ p < getPartCount m) as Hp.
    { rewrite <- (inv_children_length m HI). apply index_is_Some. eauto. }
    split; [done |].
    unfold csmVector.at_ in Hch. rewrite (inv_topology m HI) in Hch.
    apply index_Some in Hch as [_ Hch].
    rewrite list_lookup_fmap, lookup_seqZ_lt in Hch by lia.
    simpl in Hch. rewrite Z.add_0_l, Z2Nat.id in Hch by lia. by simplify_eq. }
  assert (∀ p children,
            csmVector.at_ (_partChildDrawables m) p = Some children →
            ∀ d, d ∈ children
                 ↔ 0 ≤ d < getDrawableCount m
                   ∧ getDrawableParentPartIndex d m = Some p) as Hmem.
  { intros p children Hch.
    destruct (Hlist p children Hch) as [Hp _].
    destruct (children_are_children m p HI Hp) as (ch & Hch' & _ & Hiff).
    rewrite Hch in Hch'. by simplify_eq. }
  split; [exact (inv_children_length m HI) |]. split.
  - intros p children Hch. destruct (Hlist p children Hch) as [Hp ->].
    destruct (children_of_increasing (_model m) (Z.to_nat (getDrawableCount m)) p)
      as [Hsorted _].
    split; [done |]. split; [| by apply Hmem].
    apply NoDup_filter, NoDup_seqZ.
  - intros d Hd.
    pose proof (inv_snapshot m HI)
      as (_ & _ & _ & _ & _ & _ & _ & _ & _ & _ & _ & _ & _ & _ & Hlen & Hparents).
    destruct (proj2 (index_is_Some
                (Drawables.parentPartIndices (Model.drawables (_model m))) d))
      as [q Hq]; [unfold getDrawableCount in Hd; lia |].
    exists q. split; [exact Hq |]. split.
    + rewrite Forall_forall in Hparents. apply Hparents.
      apply index_Some in Hq as [_ Hq]. by eapply list_elem_of_lookup_2.
    + intros p children Hch. rewrite (Hmem p children Hch).
      unfold getDrawableParentPartIndex. rewrite Hq. naive_solver.
Qed.

Lemma child_lists_witness :
  csmVector.at_ (_partChildDrawables (initial sample2)) 0 = Some [0; 1]
  ∧ NoDup [0; 1]
  ∧ getDrawableParentPartIndex 1 (initial sample2) = Some 0.
Proof.
  destruct (child_lists (initial sample2) (reachable_initial sample2 sample2_ok))
    as (_ & Hlists & _).
  assert (csmVector.at_ (_partChildDrawables (initial sample2)) 0 = Some [0; 1])
    as Hch by reflexivity.
  destruct (Hlists 0 [0; 1] Hch) as (_ & Hnodup & Hmem).
  split; [exact Hch |]. split; [exact Hnodup |].
  apply (Hmem 1). set_solver.
Defined.

(** ** Weighted writes *)

(** What a write to the slot of an absent identifier leaves behind. *)
Lemma getParameterValueByIndex_after_absent (m : CubismModel) (i j : Z) (y : number) :
  getParameterValueByIndex j
    (set__notExistParameterValues (<[i := y]> (_notExistParameterValues m)) m)
  = if decide (j = i) then Some y else getParameterValueByIndex j m.
Proof.
  destruct m as [? ? values ? ? ? ? ? ? ? ? ? ? ? ? ? ? ? ? ? ? ? ? ? ? ?].
  unfold getParameterValueByIndex, csmMap.isExist, csmMap.getValue. simpl.
  case_decide as Hj.
  - subst j. rewrite lookup_insert_eq. by rewrite bool_decide_eq_true_2 by eauto.
  - by rewrite lookup_insert_ne by done.
Qed.

(** X14: a write with a weight [w] other than [1] blends.  On the slot of
    an absent identifier that holds [x] the slot receives [x * (1 - w) + v * w],
    neither clamped nor rounded.  On a parameter of the asset that holds
    [old] the cell receives [old * (1 - w) + r * w], where [r] is the
    resolved (wrapped or clamped) value of [v], and reads back as the
    single precision rounding of this blend.  No other index changes. *)
Theorem weighted_write (m : CubismModel) (i : Z) (v w : number) :
  reachable m →
  PrimFloat.eqb w 1 = false →
  (∀ x, _notExistParameterValues m !! i = Some x →
        ∃ m', setParameterValueByIndex i v w m = Some m'
              ∧ getParameterValueByIndex i m' = Some (x * (1 - w) + v * w)%float
              ∧ ∀ j, j ≠ i → getParameterValueByIndex j m'
                             = getParameterValueByIndex j m)
  ∧ (0 ≤ i < getParameterCount m →
     ∃ old repeat minValue maxValue m',
       getParameterValueByIndex i m = Some old
       ∧ isRepeat i m = Some repeat
       ∧ getParameterMinimumValue i m = Some minValue
       ∧ getParameterMaximumValue i m = Some maxValue
       ∧ setParameterValueByIndex i v w m = Some m'
       ∧ getParameterValueByIndex i m'
         = Some (fround (old * (1 - w)
                         + resolved_value repeat minValue maxValue v * w))
       ∧ ∀ j, j ≠ i → getParameterValueByIndex j m'
                      = getParameterValueByIndex j m).
Proof.
  intros Hr Hw. pose proof (reachable_Inv m Hr) as HI. split.
  - intros x Hx. eexists. split; [| split].
    + unfold setParameterValueByIndex.
      rewrite (proj2 (isExist_true _ _)) by eauto.
      unfold csmMap.getValue. rewrite Hw, Hx. reflexivity.
    + unfold csmMap.setValue. rewrite getParameterValueByIndex_after_absent.
      by rewrite decide_True.
    + intros j Hj. unfold csmMap.setValue.
      rewrite getParameterValueByIndex_after_absent. by rewrite decide_False.
  - intros Hi.
    destruct (parameter_policy m i HI Hi) as (rp & mn & mx & Hrp & Hmn & Hmx).
    destruct (parameter_cell m i HI Hi) as [old Hold].
    assert (_notExistParameterValues m !! i = None) as Hslot.
    { apply isExist_false, real_parameter_not_overflow; [done | lia]. }
    exists old, rp, mn, mx. eexists.
    split.
    { rewrite (getParameterValueByIndex_real m i _ Hslot Hi
                 (parameterValues_bound m (inv_parameterValues m HI))). done. }
    split; [done |]. split; [done |]. split; [done |].
    split; [by apply setParameterValueByIndex_blend |].
    split.
    + rewrite getParameterValueByIndex_after_store by done. by rewrite decide_True.
    + intros j Hj. rewrite getParameterValueByIndex_after_store by done.
      by rewrite decide_False.
Qed.

Lemma weighted_write_witness :
  ∃ m0 m1 m2,
    after [SetParameterValueByIndex 0 20 1; GetParameterIndex "Nope";
           SetParameterValueByIndex 2 8 1] (initial sample) = Some m0
    ∧ setParameterValueByIndex 0 100 0.5 m0 = Some m1
    ∧ getParameterValueByIndex 0 m1 = Some 25%float
    ∧ setParameterValueByIndex 2 100 0.5 m0 = Some m2
    ∧ getParameterValueByIndex 2 m2 = Some 54%float.
Proof.
  destruct (after [SetParameterValueByIndex 0 20 1; GetParameterIndex "Nope";
                   SetParameterValueByIndex 2 8 1] (initial sample))
    as [m0 |] eqn:Ha; [| vm_compute in Ha; discriminate].
  assert (reachable m0) as Hr.
  { eapply reachable_after; [apply reachable_initial, sample_ok | exact Ha]. }
  destruct (weighted_write m0 0 100 0.5 Hr eq_refl) as [_ Hreal].
  destruct (weighted_write m0 2 100 0.5 Hr eq_refl) as [Habsent _].
  destruct Hreal as (old & rp & mn & mx & m1 & Hold & Hrp & Hmn & Hmx & Hset & Hget & _).
  { vm_compute in Ha. injection Ha as <-. clear. by vm_compute. }
  destruct (Habsent 8%float) as (m2 & Hset2 & Hget2 & _).
  { vm_compute in Ha. injection Ha as <-. clear. by vm_compute. }
  exists m0, m1, m2. split; [reflexivity |]. split; [exact Hset |].
  split.
  { rewrite Hget. vm_compute in Ha. injection Ha as <-.
    vm_compute in Hold, Hrp, Hmn, Hmx. simplify_eq. reflexivity. }
  split; [exact Hset2 |]. rewrite Hget2. reflexivity.
Defined.

(** ** The repeat policy of a parameter *)

Lemma isRepeat_resolved (m : CubismModel) (i : Z) (rec : ParameterRepeatData.t)
  (bit : bool) :
  _notExistParameterValues m !! i = None →
  0 ≤ i < getParameterCount m →
  csmVector.at_ (_userParameterRepeatDataList m) i = Some rec →
  getParameterRepeats i m = Some bit →
  isRepeat i m
  = Some (if getOverrideFlagForModelParameterRepeat m
             || ParameterRepeatData.isOverridden rec
          then ParameterRepeatData.isParameterRepeated rec
          else bit).
Proof.
  intros Hslot Hi Hrec Hbit. destruct rec as [flag rp].
  unfold isRepeat. rewrite (proj2 (isExist_false _ _) Hslot).
  rewrite (proj2 (in_range_true _ _) Hi). simpl. rewrite Hrec, Hbit. simpl.
  unfold getOverrideFlagForModelParameterRepeat.
  by destruct (_isOverriddenParameterRepeat m), flag.
Qed.

(** X15: the repeat policy of a parameter of the asset is the repeat flag
    of its record when the model-wide override or the record's override
    flag is set, and the repeat bit of the asset otherwise.
    [setRepeatFlagForParameterRepeat] writes the repeat flag and keeps the
    override flag, [setOverrideFlagForParameterRepeat] writes the override
    flag and keeps the repeat flag; both leave the policy of every other
    parameter as it is. *)
Theorem repeat_policy_table (m : CubismModel) (i : Z) :
  reachable m → 0 ≤ i < getParameterCount m →
  ∃ rec bit,
    csmVector.at_ (_userParameterRepeatDataList m) i = Some rec
    ∧ getParameterRepeats i m = Some bit
    ∧ isRepeat i m
      = Some (if getOverrideFlagForModelParameterRepeat m
                 || ParameterRepeatData.isOverridden rec
              then ParameterRepeatData.isParameterRepeated rec
              else bit)
    ∧ (∀ v, ∃ m',
          setRepeatFlagForParameterRepeat i v m = Some m'
          ∧ getRepeatFlagForParameterRepeat i m' = Some v
          ∧ getOverrideFlagForParameterRepeat i m'
            = Some (ParameterRepeatData.isOverridden rec)
          ∧ isRepeat i m'
            = Some (if getOverrideFlagForModelParameterRepeat m
                       || ParameterRepeatData.isOverridden rec
                    then v else bit)
          ∧ ∀ j, j ≠ i → isRepeat j m' = isRepeat j m)
    ∧ (∀ v, ∃ m',
          setOverrideFlagForParameterRepeat i v m = Some m'
          ∧ getOverrideFlagForParameterRepeat i m' = Some v
          ∧ getRepeatFlagForParameterRepeat i m'
            = Some (ParameterRepeatData.isParameterRepeated rec)
          ∧ isRepeat i m'
            = Some (if getOverrideFlagForModelParameterRepeat m || v
                    then ParameterRepeatData.isParameterRepeated rec
                    else bit)
          ∧ ∀ j, j ≠ i → isRepeat j m' = isRepeat j m).
Proof.
  intros Hr Hi. pose proof (reachable_Inv m Hr) as HI.
  pose proof (inv_snapshot m HI) as (_ & _ & _ & _ & _ & _ & _ & Hrep & _).
  assert (0 ≤ i < Z.of_nat (length (_userParameterRepeatDataList m))) as Hlen
    by (by rewrite (inv_repeatData m HI)).
  destruct (proj2 (index_is_Some (_userParameterRepeatDataList m) i) Hlen)
    as [rec Hrec].
  destruct (proj2 (index_is_Some
              (Parameters.repeats (Model.parameters (_model m))) i))
    as [rp Hrp]; [unfold getParameterCount in Hi; lia |].
  assert (getParameterRepeats i m = Some (negb (rp =? 0))) as Hbit.
  { unfold getParameterRepeats. by rewrite Hrp. }
  assert (_notExistParameterValues m !! i = None) as Hslot.
  { apply isExist_false, real_parameter_not_overflow; [done | lia]. }
  assert (∀ (new : ParameterRepeatData.t) (j : Z),
            j ≠ i →
            isRepeat j (set__userParameterRepeatDataList
                          (csmVector.set (_userParameterRepeatDataList m) i new) m)
            = isRepeat j m) as Hother.
  { intros new j Hj. unfold isRepeat, csmVector.at_. cbn.
    by rewrite index_vector_set_ne by done. }
  exists rec, (negb (rp =? 0)).
  split; [exact Hrec |]. split; [exact Hbit |].
  split; [by apply isRepeat_resolved |]. split.
  - intros v. eexists.
    split.
    { unfold setRepeatFlagForParameterRepeat, csmVector.at_. rewrite Hrec.
      reflexivity. }
    assert (index (csmVector.set (_userParameterRepeatDataList m) i
                     (ParameterRepeatData.Build
                        (ParameterRepeatData.isOverridden rec) v)) i
            = Some (ParameterRepeatData.Build
                      (ParameterRepeatData.isOverridden rec) v)) as Hnew
      by (by apply index_vector_set_eq).
    split; [| split; [| split]].
    + unfold getRepeatFlagForParameterRepeat, csmVector.at_. cbn. by rewrite Hnew.
    + unfold getOverrideFlagForParameterRepeat, csmVector.at_. cbn. by rewrite Hnew.
    + match goal with |- isRepeat i ?m' = _ =>
        rewrite (isRepeat_resolved m' i _ _ Hslot Hi Hnew Hbit)
      end. reflexivity.
    + intros j Hj. by apply Hother.
  - intros v. eexists.
    split.
    { unfold setOverrideFlagForParameterRepeat, csmVector.at_. rewrite Hrec.
      reflexivity. }
    assert (index (csmVector.set (_userParameterRepeatDataList m) i
                     (ParameterRepeatData.Build v
                        (ParameterRepeatData.isParameterRepeated rec))) i
            = Some (ParameterRepeatData.Build v
                      (ParameterRepeatData.isParameterRepeated rec))) as Hnew
      by (by apply index_vector_set_eq).
    split; [| split; [| split]].
    + unfold getOverrideFlagForParameterRepeat, csmVector.at_. cbn. by rewrite Hnew.
    + unfold getRepeatFlagForParameterRepeat, csmVector.at_. cbn. by rewrite Hnew.
    + match goal with |- isRepeat i ?m' = _ =>
        rewrite (isRepeat_resolved m' i _ _ Hslot Hi Hnew Hbit)
      end. reflexivity.
    + intros j Hj. by apply Hother.
Qed.

Lemma repeat_policy_table_witness :
  ∃ m1 m2,
    isRepeat 1 (initial sample) = Some false
    ∧ setRepeatFlagForParameterRepeat 1 true (initial sample) = Some m1
    ∧ isRepeat 1 m1 = Some true
    ∧ setOverrideFlagForParameterRepeat 0 true
        (setOverrideFlagForModelParameterRepeat false m1) = Some m2
    ∧ isRepeat 0 m2 = Some false
    ∧ isRepeat 1 m2 = Some true.
Proof.
  pose proof (reachable_initial sample sample_ok) as Hr.
  destruct (repeat_policy_table (initial sample) 1 Hr)
    as (rec & bit & Hrec & Hbit & His & Hset & _); [clear; by vm_compute |].
  destruct (Hset true) as (m1 & Hm1 & _ & _ & His1 & _).
  assert (reachable (setOverrideFlagForModelParameterRepeat false m1)) as Hr1.
  { eapply (reachable_run (SetOverrideFlagForModelParameterRepeat false));
      [| reflexivity].
    by eapply (reachable_run (SetRepeatFlagForParameterRepeat 1 true)). }
  destruct (repeat_policy_table _ 0 Hr1)
    as (rec0 & bit0 & Hrec0 & Hbit0 & _ & _ & Hset0).
  { vm_compute in Hm1. injection Hm1 as <-. clear. by vm_compute. }
  destruct (Hset0 true) as (m2 & Hm2 & _ & _ & His2 & Hother).
  exists m1, m2. split; [reflexivity |]. split; [exact Hm1 |].
  vm_compute in Hrec, Hbit. injection Hrec as <-. injection Hbit as <-.
  split; [exact His1 |]. split; [exact Hm2 |].
  vm_compute in Hm1. injection Hm1 as <-.
  vm_compute in Hrec0, Hbit0. injection Hrec0 as <-. injection Hbit0 as <-.
  split; [exact His2 |]. rewrite Hother by done. reflexivity.
Defined.

(** ** Parameter values by identifier *)

Lemma getParameterIndex_real (m : CubismModel) (id : CubismIdHandle) (k : Z) :
  scan (_parameterIds m) id 0 (Z.to_nat (getParameterCount m)) = Some k →
  getParameterIndex id m = Some (k, m).
Proof.
  intros Hscan. unfold getParameterIndex. unfold getParameterCount in Hscan.
  by rewrite Hscan.
Qed.

(** X16: [setParameterValueById] with weight [1] always has a result, and
    [getParameterValueById] then returns, for an identifier that the asset
    does not have, the written value itself (the identifier has a synthetic
    index from the parameter count on), and for an identifier of the asset
    the single precision rounding of the resolved (wrapped or clamped)
    value. *)
Theorem parameter_value_round_trip (m : CubismModel) (id : CubismIdHandle)
  (v : number) :
  reachable m →
  ∃ k m0 m1,
    getParameterIndex id m = Some (k, m0)
    ∧ setParameterValueById id v 1 m = Some m1
    ∧ ((id ∉ Parameters.ids (Model.parameters (_model m))) →
       getParameterCount m ≤ k
       ∧ getParameterValueById id m1 = Some (v, m1))
    ∧ (id ∈ Parameters.ids (Model.parameters (_model m)) →
       0 ≤ k < getParameterCount m
       ∧ ∃ repeat minValue maxValue,
           isRepeat k m = Some repeat
           ∧ getParameterMinimumValue k m = Some minValue
           ∧ getParameterMaximumValue k m = Some maxValue
           ∧ getParameterValueById id m1
             = Some (fround (resolved_value repeat minValue maxValue v), m1)).
Proof.
  intros Hr. pose proof (reachable_Inv m Hr) as HI.
  destruct (getParameterIndex_cases m id HI) as (k & m0 & Hget & HI0 & Hext & Hcases).
  exists k, m0. unfold setParameterValueById. rewrite Hget. simpl.
  destruct Hcases as [(Hin & Hscan & Hk & ->) | (Hno & Hscan & Hk & Hreg & Hslot)].
  - destruct (parameter_policy m k HI Hk) as (rp & mn & mx & Hrp & Hmn & Hmx).
    rewrite (setParameterValueByIndex_real m k v rp mn mx HI Hk Hrp Hmn Hmx).
    eexists. split; [done |]. split; [done |]. split; [done |].
    intros _. split; [done |]. exists rp, mn, mx.
    split; [done |]. split; [done |]. split; [done |].
    unfold getParameterValueById.
    rewrite (getParameterIndex_real _ id k) by exact Hscan.
    cbn -[getParameterValueByIndex].
    rewrite getParameterValueByIndex_after_store by done.
    by rewrite decide_True.
  - rewrite (setParameterValueByIndex_absent m0 k v Hslot).
    eexists. split; [done |]. split; [done |]. split; [| done].
    intros _. split; [done |].
    destruct Hext as (Hids & _ & Hcount & _).
    unfold getParameterValueById.
    rewrite (getParameterIndex_registered _ id k).
    + cbn -[getParameterValueByIndex].
      rewrite getParameterValueByIndex_after_absent. by rewrite decide_True.
    + change (scan (_parameterIds m0) id 0 (Z.to_nat (getParameterCount m0)) = None).
      rewrite Hids, Hcount. exact Hscan.
    + exact Hreg.
Qed.

Lemma parameter_value_round_trip_witness :
  ∃ m1 m2,
    setParameterValueById "Nope" 1000.1 1 (initial sample) = Some m1
    ∧ getParameterValueById "Nope" m1 = Some (1000.1%float, m1)
    ∧ setParameterValueById "Angle" 1000.1 1 m1 = Some m2
    ∧ getParameterValueById "Angle" m2 = Some (30%float, m2).
Proof.
  destruct (parameter_value_round_trip (initial sample) "Nope" 1000.1
              (reachable_initial sample sample_ok))
    as (k & m0 & m1 & _ & Hset & Habsent & _).
  destruct Habsent as [_ Hget]; [clear; vm_compute; set_solver |].
  assert (reachable m1) as Hr1.
  { eapply (reachable_run (SetParameterValueById "Nope" 1000.1 1));
      [apply reachable_initial, sample_ok | exact Hset]. }
  destruct (parameter_value_round_trip m1 "Angle" 1000.1 Hr1)
    as (k' & m0' & m2 & Hidx & Hset' & _ & Hreal).
  destruct Hreal as (_ & rp & mn & mx & Hrp & Hmn & Hmx & Hget').
  { vm_compute in Hset. injection Hset as <-. clear. vm_compute. set_solver. }
  exists m1, m2. split; [exact Hset |]. split; [exact Hget |].
  split; [exact Hset' |]. rewrite Hget'.
  vm_compute in Hset. injection Hset as <-.
  vm_compute in Hidx. injection Hidx as <- <-.
  vm_compute in Hrp, Hmn, Hmx. simplify_eq. reflexivity.
Defined.

(** ** The indices that a read accepts *)



(** ** Part opacities by index *)

Lemma getPartOpacityByIndex_after_absent (m : CubismModel) (k j : Z) (y : number) :
  getPartOpacityByIndex j
    (set__notExistPartOpacities (<[k := y]> (_notExistPartOpacities m)) m)
  = if decide (j = k) then Some y else getPartOpacityByIndex j m.
Proof.
  destruct m as [opacities ? ? ? ? ? ? ? ? ? ? ? ? ? ? ? ? ? ? ? ? ? ? ? ? ?].
  unfold getPartOpacityByIndex, csmMap.isExist, csmMap.getValue. simpl.
  case_decide as Hj.
  - subst j. rewrite lookup_insert_eq. by rewrite bool_decide_eq_true_2 by eauto.
  - by rewrite lookup_insert_ne by done.
Qed.

Lemma getPartOpacityByIndex_outside (m : CubismModel) (j : Z) :
  _notExistPartOpacities m !! j = None →
  ¬ (0 ≤ j < getPartCount m) →
  getPartOpacityByIndex j m = None.
Proof.
  intros Hslot Hj. unfold getPartOpacityByIndex.
  rewrite (proj2 (isExist_false _ _) Hslot).
  destruct (in_range j (getPartCount m)) eqn:Hr; [| done].
  by apply in_range_true in Hr.
Qed.

Lemma getPartOpacityByIndex_after_store (m : CubismModel) (k j : Z) (x : number) :
  Inv m → 0 ≤ k < getPartCount m →
  getPartOpacityByIndex j
    (with_partOpacities
       (Float32Array.set (Parts.opacities (Model.parts (_model m))) k x) m)
  = if decide (j = k) then Some (fround x) else getPartOpacityByIndex j m.
Proof.
  intros HI Hk.
  pose proof (inv_snapshot m HI) as (_ & _ & _ & _ & _ & _ & _ & _ & _ & Hlen & _).
  pose proof (inv_partOpacities m HI) as Hview.
  destruct (_notExistPartOpacities m !! j) as [y |] eqn:Hslot.
  - rewrite decide_False.
    + rewrite (getPartOpacityByIndex_absent m j y Hslot).
      by apply getPartOpacityByIndex_absent.
    + intros ->.
      pose proof (real_part_not_overflow m k HI (proj2 Hk)) as Hreal.
      apply isExist_false in Hreal. congruence.
  - destruct (decide (0 ≤ j < getPartCount m)) as [Hj | Hj].
    + erewrite getPartOpacityByIndex_real;
        [| exact Hslot | exact Hj | apply partOpacities_bound; exact Hview].
      rewrite (getPartOpacityByIndex_real m j _ Hslot Hj
                 (partOpacities_bound m Hview)).
      cbn. case_decide as Heq.
      * subst j. apply array_get_set_eq. unfold getPartCount in Hk. lia.
      * by apply array_get_set_ne.
    + rewrite decide_False by (intros ->; done).
      rewrite (getPartOpacityByIndex_outside m j Hslot Hj).
      by apply getPartOpacityByIndex_outside.
Qed.

(** X18: [setPartOpacityByIndex] on an index that addresses a part has a
    result; [getPartOpacityByIndex] then returns, on a part of the asset,
    the single precision rounding of the written opacity, and on the slot
    of an absent identifier the written opacity itself.  The opacity of
    every other index and every parameter value stay. *)
Theorem part_opacity_write (m : CubismModel) (k : Z) (o : number) :
  reachable m →
  part_slot k m = true →
  ∃ m',
    setPartOpacityByIndex k o m = Some m'
    ∧ getPartOpacityByIndex k m'
      = Some (if decide (k < getPartCount m) then fround o else o)
    ∧ (∀ j, j ≠ k → getPartOpacityByIndex j m' = getPartOpacityByIndex j m)
    ∧ (∀ i, getParameterValueByIndex i m' = getParameterValueByIndex i m).
Proof.
  intros Hr Hk. pose proof (reachable_Inv m Hr) as HI.
  apply (part_slot_cases m k HI) in Hk.
  destruct (_notExistPartOpacities m !! k) as [x |] eqn:Hslot.
  - assert (¬ k < getPartCount m) as Hge.
    { intros Hlt. pose proof (real_part_not_overflow m k HI Hlt) as Hex.
      apply isExist_false in Hex. congruence. }
    rewrite (setPartOpacityByIndex_absent m k o) by eauto.
    eexists. split; [done |]. rewrite decide_False by done.
    split; [| split].
    + rewrite getPartOpacityByIndex_after_absent. by rewrite decide_True.
    + intros j Hj. rewrite getPartOpacityByIndex_after_absent.
      by rewrite decide_False.
    + intros i. reflexivity.
  - destruct Hk as [Hk | [? ?]]; [| done].
    rewrite (setPartOpacityByIndex_real m k o _ Hslot Hk
               (partOpacities_bound m (inv_partOpacities m HI))).
    eexists. split; [done |]. rewrite decide_True by lia.
    split; [| split].
    + rewrite getPartOpacityByIndex_after_store by done. by rewrite decide_True.
    + intros j Hj. rewrite getPartOpacityByIndex_after_store by done.
      by rewrite decide_False.
    + intros i. reflexivity.
Qed.

Lemma part_opacity_write_witness :
  ∃ m',
    setPartOpacityByIndex 0 0.1 (initial sample) = Some m'
    ∧ getPartOpacityByIndex 0 m' = Some 0.10000000149011612%float
    ∧ getParameterValueByIndex 1 m' = Some 0%float.
Proof.
  destruct (part_opacity_write (initial sample) 0 0.1
              (reachable_initial sample sample_ok) eq_refl)
    as (m' & Hset & Hget & _ & Hp).
  exists m'. split; [exact Hset |]. split; [exact Hget |].
  rewrite Hp. reflexivity.
Defined.

(** ** Saving twice, loading before a save *)

(** X19: [saveParameters] changes no parameter value, and saving again
    right after a save changes nothing at all.  When nothing is saved,
    [loadParameters] changes nothing. *)
Theorem save_load_edges (m : CubismModel) :
  reachable m →
  (∃ m1,
      saveParameters m = Some m1
      ∧ _model m1 = _model m
      ∧ (∀ i, getParameterValueByIndex i m1 = getParameterValueByIndex i m)
      ∧ take (Z.to_nat (getParameterCount m)) (_savedParameters m1)
        = Parameters.values (Model.parameters (_model m))
      ∧ saveParameters m1 = Some m1)
  ∧ (_savedParameters m = [] → loadParameters m = Some m).
Proof.
  intros Hr. pose proof (reachable_Inv m Hr) as HI.
  pose proof (inv_snapshot m HI) as (Hc & _ & _ & _ & _ & _ & Hlen & _).
  split.
  - rewrite (saveParameters_closed m HI). eexists. split; [done |].
    split; [done |]. split; [done |].
    assert (Z.to_nat (getParameterCount m)
            = length (Parameters.values (Model.parameters (_model m)))) as Hn
      by (unfold getParameterCount; lia).
    split.
    + cbn. rewrite Hn. by rewrite take_app_length.
    + match goal with |- saveParameters ?m1 = _ =>
        assert (Inv m1) as HI1 by (by apply Inv_set_savedParameters);
        rewrite (saveParameters_closed m1 HI1)
      end.
      f_equal. cbn.
      change (getParameterCount (set__savedParameters _ m))
        with (getParameterCount m).
      rewrite Hn, drop_app_length.
      by destruct m.
  - intros Hnil. pose proof (loadParameters_closed m HI) as Hl. cbv zeta in Hl.
    rewrite Hl, Hnil.
    replace (Z.to_nat (getParameterCount m `min` csmVector.getSize (@nil number)))
      with 0%nat by (unfold csmVector.getSize, getParameterCount; simpl; lia).
    simpl. f_equal.
Qed.

Lemma save_load_edges_witness :
  loadParameters (initial sample) = Some (initial sample)
  ∧ ∃ m1, saveParameters (initial sample) = Some m1
          ∧ saveParameters m1 = Some m1.
Proof.
  destruct (save_load_edges (initial sample) (reachable_initial sample sample_ok))
    as [(m1 & Hs & _ & _ & _ & Hs') Hl].
  split; [by apply Hl | by exists m1].
Defined.

(** ** Masks *)

Lemma isUsingMasking_from_true (maskCounts : list Z) (n : nat) :
  ∀ d, isUsingMasking_from maskCounts d n = true
       ↔ ∃ e, d ≤ e < d + Z.of_nat n
              ∧ ∀ c, index maskCounts e = Some c → 0 < c.
Proof.
  induction n as [| n IH]; intros d.
  - simpl. split; [done | intros (e & ? & _); lia].
  - simpl. destruct (index maskCounts d) as [c |] eqn:Hc.
    + destruct (c <=? 0) eqn:Hle.
      * rewrite IH. apply Z.leb_le in Hle. split.
        -- intros (e & He & Hpos). exists e. split; [lia | done].
        -- intros (e & He & Hpos). exists e. split; [| done].
           destruct (decide (e = d)) as [-> | Hne]; [| lia].
           specialize (Hpos c Hc). lia.
      * apply Z.leb_gt in Hle. split; [| done]. intros _.
        exists d. split; [lia |]. intros c' Hc'. rewrite Hc in Hc'. by simplify_eq.
    + split; [| done]. intros _.
      exists d. split; [lia |]. intros c' Hc'. by rewrite Hc in Hc'.
Qed.

(** X20: [isUsingMasking] returns [true] exactly when, for some drawable
    index below the count, the mask count is not a number that is zero or
    less: it is positive, or missing from the array.  When the array holds
    one mask count per drawable, the result is [false] exactly when no
    mask count is positive. *)
Theorem isUsingMasking_spec (count : Z) (maskCounts : list Z) :
  (isUsingMasking count maskCounts = true
   ↔ ∃ d, 0 ≤ d < count ∧ ∀ c, index maskCounts d = Some c → 0 < c)
  ∧ (Z.of_nat (length maskCounts) = count →
     (isUsingMasking count maskCounts = false ↔ Forall (λ c, c ≤ 0) maskCounts)).
Proof.
  assert (isUsingMasking count maskCounts = true
          ↔ ∃ d, 0 ≤ d < count ∧ ∀ c, index maskCounts d = Some c → 0 < c)
    as Htrue.
  { unfold isUsingMasking. rewrite isUsingMasking_from_true.
    split; intros (d & Hd & Hpos); exists d; (split; [lia | done]). }
  split; [exact Htrue |].
  intros Hlen. rewrite <- not_true_iff_false, Htrue, Forall_lookup. split.
  - intros Hnone k c Hk.
    destruct (decide (c ≤ 0)) as [| Hpos]; [done |]. exfalso. apply Hnone.
    exists (Z.of_nat k). apply lookup_lt_Some in Hk as Hlt.
    split; [lia |]. intros c'. rewrite index_of_nat, Hk. intros ?. simplify_eq. lia.
  - intros Hall (d & Hd & Hpos).
    destruct (proj2 (index_is_Some maskCounts d)) as [c Hc]; [lia |].
    specialize (Hpos c Hc). apply index_Some in Hc as [_ Hc].
    specialize (Hall _ _ Hc). simpl in Hall. lia.
Qed.

Lemma isUsingMasking_spec_witness :
  isUsingMasking 3 [0; 0; 0] = false ∧ isUsingMasking 3 [0; 2; 0] = true.
Proof.
  split.
  - apply (isUsingMasking_spec 3 [0; 0; 0]); [reflexivity |].
    repeat constructor; lia.
  - apply (isUsingMasking_spec 3 [0; 2; 0]).
    exists 1. split; [lia |]. intros c Hc. vm_compute in Hc. injection Hc as <-. lia.
Defined.

(** ** A parent that is no part *)

Lemma initialize_drawable_Some (ids : list string) (l : loc) (j : Z)
  (t t' : CubismModel) :
  initialize_drawable ids l j t = Some t' →
  _model t' = _model t
  ∧ length (_partChildDrawables t') = length (_partChildDrawables t)
  ∧ ∀ q, getDrawableParentPartIndex j t = Some q → 0 ≤ q →
         q < Z.of_nat (length (_partChildDrawables t)).
Proof.
  destruct t as [? ? ? ? ? ? ? ? ? ? ? ? ? children model ? ? ? ? ? ? ? ? ? ? ?].
  unfold initialize_drawable, getDrawableParentPartIndex. simpl. intros Hb.
  destruct (index ids j) as [id |]; simpl in Hb; [| done].
  destruct (index (Drawables.parentPartIndices (Model.drawables model)) j)
    as [parent |]; simpl in Hb; [| done].
  case_decide as Hge.
  - destruct (csmVector.at_ children parent) as [ch |] eqn:Hch; simplify_eq/=.
    apply mk_is_Some, index_is_Some in Hch.
    split; [done |]. split; [apply length_vector_set |].
    intros q ? _. simplify_eq. lia.
  - simplify_eq/=. split; [done |]. split; [done |]. intros q ? ?. simplify_eq. lia.
Qed.

(** X21: [initialize] has no guard on the parent of a drawable: when some
    drawable of the snapshot names a parent index that is not below the
    part count, there is no list of children to append to and [initialize]
    throws. *)
Theorem initialize_rejects_foreign_parent (s : Model.t) (d p : Z) :
  0 ≤ d < Drawables.count (Model.drawables s) →
  index (Drawables.parentPartIndices (Model.drawables s)) d = Some p →
  0 ≤ p →
  Parts.count (Model.parts s) ≤ p →
  initialize (CubismModel_constructor s) = None.
Proof.
  intros Hd Hp Hp0 Hpc.
  destruct (initialize (CubismModel_constructor s)) as [m |] eqn:Hi; [| done].
  exfalso. unfold initialize, for_ in Hi.
  set (m0 := set__parameterMinimumValues aliased
               (set__parameterMaximumValues aliased
                  (set__partOpacities aliased
                     (set__parameterValues aliased (CubismModel_constructor s)))))
    in Hi.
  cbv zeta in Hi.
  assert (_partChildDrawables m0 = [] ∧ _model m0 = s) as H0 by done.
  change (_model m0) with s in Hi.
  destruct (for_loop (initialize_parameter (Parameters.ids (Model.parameters s))) 0
              (Z.to_nat (Parameters.count (Model.parameters s))) m0)
    as [m1 |] eqn:H1; [| done].
  apply (for_loop_invariant (λ _ t, _partChildDrawables t = [] ∧ _model t = s))
    in H1 as [Hch1 Hm1]; [| done |]; cycle 1.
  { intros j t t' _ [Hc Hm] Hb. unfold initialize_parameter in Hb.
    destruct (index _ j); by simplify_eq/=. }
  simpl in Hi. rewrite Hm1 in Hi.
  destruct (for_loop (initialize_partId (Parts.ids (Model.parts s))) 0
              (Z.to_nat (Parts.count (Model.parts s))) m1)
    as [m2 |] eqn:H2; [| done].
  apply (for_loop_invariant (λ _ t, _partChildDrawables t = [] ∧ _model t = s))
    in H2 as [Hch2 Hm2]; [| done |]; cycle 1.
  { intros j t t' _ [Hc Hm] Hb. unfold initialize_partId in Hb.
    destruct (index _ j); by simplify_eq/=. }
  simpl in Hi. rewrite Hm2 in Hi.
  match type of Hi with
  | context [for_loop initialize_part 0 _ ?m2'] =>
      destruct (for_loop initialize_part 0
                  (Z.to_nat (Parts.count (Model.parts s))) m2')
        as [m3 |] eqn:H3; [| done]
  end.
  apply (for_loop_invariant
           (λ j t, length (_partChildDrawables t) = Z.to_nat j ∧ _model t = s))
    in H3 as [Hch3 Hm3];
    [| split; [change (length (_partChildDrawables m2) = 0%nat); by rewrite Hch2
              | exact Hm2] |]; cycle 1.
  { intros j t t' Hj [Hc Hm] Hb. unfold initialize_part in Hb. cbv zeta in Hb.
    destruct (csmVector.at_ _ j); [| done]. injection Hb as <-.
    split; [| exact Hm].
    change (length (_partChildDrawables t ++ [[]]) = Z.to_nat (j + 1)).
    rewrite length_app, Hc. simpl. lia. }
  simpl in Hi.
  apply (for_loop_invariant
           (λ j t, length (_partChildDrawables t)
                   = Z.to_nat (Parts.count (Model.parts s))
                   ∧ _model t = s
                   ∧ ∀ k q, 0 ≤ k < j →
                            index (Drawables.parentPartIndices (Model.drawables s)) k
                            = Some q →
                            0 ≤ q → q < Z.of_nat (length (_partChildDrawables t))))
    in Hi as (Hlen & _ & Hall).
  - specialize (Hall d p ltac:(lia) Hp Hp0). rewrite Hlen in Hall. lia.
  - rewrite Hch3. split; [lia |]. split; [done |]. intros; lia.
  - intros j t t' Hj (Hlen & Hm & Hall) Hb.
    apply initialize_drawable_Some in Hb as (Hm' & Hlen' & Hparent).
    rewrite Hlen', Hm'. split; [done |]. split; [done |].
    intros k q Hk Hq Hq0.
    destruct (decide (k = j)) as [-> | Hne].
    + apply Hparent; [| done]. unfold getDrawableParentPartIndex. by rewrite Hm.
    + apply (Hall k q); [lia | done | done].
Qed.

Lemma initialize_rejects_foreign_parent_witness :
  initialize (CubismModel_constructor sample_foreign) = None.
Proof.
  apply (initialize_rejects_foreign_parent sample_foreign 0 1).
  - by vm_compute.
  - reflexivity.
  - lia.
  - by vm_compute.
Defined.
